(** * Court-auction document scraper: model of [scripts/scrape-documents.ts]

    The script walks a list of auction cases, asks the court site for the
    delivery and document history of each case, merges the answer into the
    case's entry and checkpoints its progress.  This file embeds the script
    and proves properties of its classifier, its pending-list
    construction, its merge rule, its persistence and its retry loop.

    Conventions of the embedding.
    - A JavaScript value is an [option json]: [None] is [undefined].
      Numbers are integers; strings are UTF-8 byte strings, for which
      substring search agrees with JavaScript's on well-formed text, and
      whose length and cuts are counted in UTF-16 code units as JavaScript
      counts them.
    - Objects are finite maps from property names to values.  Where a value
      of a reply is converted to a number or to text, the conversion is
      taken not to throw: an object with a [toString] member of its own
      is outside the model.
    - The entries of the record store are shared objects: the arrays
      [details] and [targets] and the map [detailMap] all refer to the same
      objects.  The model keeps one array of entries and lets [targets] and
      [detailMap] hold positions in it, so that an update through one
      reference is seen through all of them.
    - Everything outside the process is an oracle of the environment,
      indexed by the number of earlier calls: the reply to a request,
      whether a file write or a page navigation succeeds, the clock.
      A write that fails leaves its file as it was.  Timers and the closing
      of the browser do not fail; console output is left out, and with it
      the conversions to text that it makes. *)

From stdpp Require Import gmap strings list fin_maps pretty.
From Stdlib Require Import ZArith Lia Sorted.

Set Warnings "-register-all,-clear-no-such-hyp".
Local Open Scope Z_scope.

(** ** JavaScript values *)

Inductive json : Type :=
  | JNull
  | JBool (b : bool)
  | JNum (n : Z)
  | JStr (s : string)
  | JArr (l : list json)
  | JObj (m : gmap string json).

Module Js.

(** [v.k] for a value that is not [null] or [undefined].  The program only
    reads named data properties, which primitives and arrays do not
    have; it also is what [v?.k] gives, with [None] for [null]. *)
Definition prop (v : json) (k : string) : option json :=
  match v with
  | JObj m => m !! k
  | _ => None
  end.

Definition truthyJ (v : json) : bool :=
  match v with
  | JNull => false
  | JBool b => b
  | JNum n => negb (n =? 0)
  | JStr s => negb (String.eqb s "")
  | JArr _ | JObj _ => true
  end.

Definition truthy (v : option json) : bool :=
  match v with
  | Some x => truthyJ x
  | None => false
  end.

(** [a || b] when [b] is defined. *)
Definition orElse (a : option json) (b : json) : json :=
  match a with
  | Some x => if truthyJ x then x else b
  | None => b
  end.

(** [String.prototype.includes]. *)
Fixpoint includes (s needle : string) : bool :=
  String.prefix needle s ||
  match s with
  | EmptyString => false
  | String _ rest => includes rest needle
  end.

Definition isStr (needle : string) (v : json) : bool :=
  match v with
  | JStr s => String.eqb s needle
  | _ => false
  end.

(** [Object.keys(v).length > 0] for a value that is not [null]. *)
Definition hasKeys (v : json) : bool :=
  match v with
  | JObj m => negb (Nat.eqb (size m) 0)
  | JArr l => negb (Nat.eqb (length l) 0)
  | JStr s => negb (Nat.eqb (String.length s) 0)
  | JNull | JBool _ | JNum _ => false
  end.

(** *** Text in UTF-16 code units *)

Definition code (a : Ascii.ascii) : Z := Z.of_N (Ascii.N_of_ascii a).
Definition byte (n : Z) : Ascii.ascii := Ascii.ascii_of_N (Z.to_N n).

(** A byte of the form 10xxxxxx continues a character; a byte from 240 on
    starts a character of four bytes, which JavaScript holds as a pair of
    code units. *)
Definition isContinuation (a : Ascii.ascii) : bool :=
  (128 <=? code a) && (code a <? 192).
Definition startsPair (a : Ascii.ascii) : bool := 240 <=? code a.

(** [s.length]. *)
Fixpoint unitLength (s : string) : nat :=
  match s with
  | EmptyString => 0
  | String a rest =>
      ((if isContinuation a then 0 else if startsPair a then 2 else 1)
       + unitLength rest)%nat
  end.

(** The first code unit of the pair of the four-byte character that starts
    with the bytes [a b c], written as the three bytes of that unit. *)
Definition firstHalf (a b c : Ascii.ascii) : string :=
  let point := Z.lor (Z.shiftl (Z.land (code a) 7) 18)
                 (Z.lor (Z.shiftl (Z.land (code b) 63) 12)
                        (Z.shiftl (Z.land (code c) 63) 6)) in
  let half := 55296 + Z.shiftr (point - 65536) 10 in
  String (byte 237)
    (String (byte (128 + Z.land (Z.shiftr half 6) 63))
       (String (byte (128 + Z.land half 63)) EmptyString)).

(** [s.slice(0, n)]: the first [n] code units.  A cut between the two units
    of a pair keeps the first of them. *)
Fixpoint sliceUnits (n : nat) (s : string) : string :=
  match s with
  | EmptyString => EmptyString
  | String a rest =>
      if isContinuation a then String a (sliceUnits n rest)
      else
        match n with
        | O => EmptyString
        | S n' =>
            if startsPair a then
              match n' with
              | O =>
                  match rest with
                  | String b (String c _) => firstHalf a b c
                  | _ => EmptyString
                  end
              | S n'' => String a (sliceUnits n'' rest)
              end
            else String a (sliceUnits n' rest)
        end
  end.

(** *** The conversion of text to a number, as far as [> 0] needs it *)

(** Tab, line feed, vertical tab, form feed, carriage return, space. *)
Definition isSpaceByte (a : Ascii.ascii) : bool :=
  ((9 <=? code a) && (code a <=? 13)) || (code a =? 32).

(** The text without the white space and line terminators it starts with;
    those of more than one byte are U+00A0, U+1680, U+2000 to U+200A,
    U+2028, U+2029, U+202F, U+205F, U+3000 and U+FEFF. *)
Fixpoint skipSpace (s : string) : string :=
  match s with
  | EmptyString => EmptyString
  | String a rest =>
      if isSpaceByte a then skipSpace rest
      else
        match rest with
        | String b rest1 =>
            if (code a =? 194) && (code b =? 160) then skipSpace rest1
            else
              match rest1 with
              | String c rest2 =>
                  if ((code a =? 225) && (code b =? 154) && (code c =? 128))
                     || ((code a =? 226) && (code b =? 128)
                         && (((128 <=? code c) && (code c <=? 138))
                             || (code c =? 168) || (code c =? 169)
                             || (code c =? 175)))
                     || ((code a =? 226) && (code b =? 129) && (code c =? 159))
                     || ((code a =? 227) && (code b =? 128) && (code c =? 128))
                     || ((code a =? 239) && (code b =? 187) && (code c =? 191))
                  then skipSpace rest2
                  else s
              | EmptyString => s
              end
        | EmptyString => s
        end
  end.

Definition onlySpace (s : string) : bool := String.eqb (skipSpace s) "".

(** The value of a digit in a radix up to 16. *)
Definition digitIn (radix : Z) (a : Ascii.ascii) : option Z :=
  let c := code a in
  let d := if (48 <=? c) && (c <=? 57) then c - 48
           else if (97 <=? c) && (c <=? 102) then c - 87
           else if (65 <=? c) && (c <=? 70) then c - 55
           else radix in
  if d <? radix then Some d else None.

(** The digits the text starts with: their value on top of [acc], their
    number on top of [count], and the text after them. *)
Fixpoint readDigits (radix : Z) (acc : Z) (count : nat) (s : string)
  : Z * nat * string :=
  match s with
  | EmptyString => (acc, count, s)
  | String a rest =>
      match digitIn radix a with
      | Some d => readDigits radix (acc * radix + d) (S count) rest
      | None => (acc, count, s)
      end
  end.

Definition dropPrefix (p s : string) : option string :=
  if String.prefix p s
  then Some (String.substring (String.length p)
               (String.length s - String.length p) s)
  else None.

(** An exponent part, when the text starts with one: [e] or [E], a sign or
    none, and at least one digit.  [None] when the digits are missing. *)
Definition readExponent (s : string) : option (Z * string) :=
  match s with
  | String a rest =>
      if (code a =? 101) || (code a =? 69) then
        let '(negative, rest1) :=
          match rest with
          | String b rest' =>
              if code b =? 45 then (true, rest')
              else if code b =? 43 then (false, rest')
              else (false, rest)
          | EmptyString => (false, rest)
          end in
        match readDigits 10 0 0 rest1 with
        | (_, O, _) => None
        | (x, S _, rest2) => Some (if negative then - x else x, rest2)
        end
      else Some (0, s)
  | EmptyString => Some (0, s)
  end.

(** [mantissa * 10 ^ exponent], rounded to the nearest number that a
    JavaScript number can hold, is above 0: what is at most 2 ^ -1075 is
    rounded to 0. *)
Definition roundsAboveZero (mantissa exponent : Z) : bool :=
  (0 <? mantissa)
  && (if 0 <=? exponent then true
      else if Z.log2 (mantissa * 2 ^ 1075) <? - exponent then false
      else 10 ^ (- exponent) <? mantissa * 2 ^ 1075).

(** A decimal literal without sign, followed by white space only, that
    stands for a number above 0. *)
Definition decimalPositive (s : string) : bool :=
  match dropPrefix "Infinity" s with
  | Some rest => onlySpace rest
  | None =>
      let '(whole, n1, rest1) := readDigits 10 0 0 s in
      let '(mantissa, n2, rest2) :=
        match rest1 with
        | String a rest' =>
            if code a =? 46 then readDigits 10 whole 0 rest'
            else (whole, O, rest1)
        | EmptyString => (whole, O, rest1)
        end in
      match (n1 + n2)%nat, readExponent rest2 with
      | S _, Some (x, rest3) =>
          onlySpace rest3 && roundsAboveZero mantissa (x - Z.of_nat n2)
      | _, _ => false
      end
  end.

(** The radix a letter after a leading 0 announces: x, o or b. *)
Definition radixOf (a : Ascii.ascii) : option Z :=
  let c := code a in
  if (c =? 120) || (c =? 88) then Some 16
  else if (c =? 111) || (c =? 79) then Some 8
  else if (c =? 98) || (c =? 66) then Some 2
  else None.

(** [s > 0] for a string [s]: the text is converted to a number, which is
    above 0 when the text, white space around it apart, is a decimal
    literal with a plus sign or none, or a hexadecimal, octal or binary
    literal without sign, that stands for a number above 0.  The empty text
    is 0 and any other text is not a number. *)
Definition textPositive (s : string) : bool :=
  match skipSpace s with
  | EmptyString => false
  | String a rest as t =>
      if code a =? 45 then false
      else if code a =? 43 then decimalPositive rest
      else
        match (if code a =? 48 then
                 match rest with
                 | String b rest' =>
                     match radixOf b with
                     | Some radix => Some (radix, rest')
                     | None => None
                     end
                 | EmptyString => None
                 end
               else None) with
        | Some (radix, rest') =>
            match readDigits radix 0 0 rest' with
            | (_, O, _) => false
            | (x, S _, rest'') => onlySpace rest'' && (0 <? x)
            end
        | None => decimalPositive t
        end
  end.

(** [v > 0] for a value that is compared through its text.  The text of an
    array is that of its elements joined by commas, so that only an array
    of one element can stand for a number above 0: the number or the string
    it holds, or such an array again. *)
Fixpoint viaTextPositive (v : json) : bool :=
  match v with
  | JNum n => 0 <? n
  | JStr s => textPositive s
  | JArr [x] => viaTextPositive x
  | _ => false
  end.

(** [x > 0]: [undefined] and the text of an object are not numbers, [null]
    is 0, [true] is 1 and [false] is 0. *)
Definition gtZero (x : option json) : bool :=
  match x with
  | None | Some JNull | Some (JObj _) => false
  | Some (JBool b) => b
  | Some (JNum n) => 0 <? n
  | Some (JStr s) => textPositive s
  | Some (JArr l) => viaTextPositive (JArr l)
  end.

(** [a + x] for a number [a], when the sum is a number: [null] adds 0,
    [true] 1 and [false] 0.  [None] stands for a sum that is not a number:
    with [undefined] it is NaN, and with a string, an array or an object it
    is a text. *)
Definition plus (a : Z) (x : option json) : option Z :=
  match x with
  | Some (JNum n) => Some (a + n)
  | Some JNull => Some a
  | Some (JBool b) => Some (a + if b then 1 else 0)
  | _ => None
  end.

(** [v.length] for a value that is not [null]: the number of elements of an
    array, the number of code units of a string, and for an object its own
    property of that name, whatever its value is. *)
Definition lengthOf (v : json) : option json :=
  match v with
  | JArr l => Some (JNum (Z.of_nat (length l)))
  | JStr s => Some (JNum (Z.of_nat (unitLength s)))
  | JObj m => m !! "length"
  | _ => None
  end.

(** [v.length > 0]. *)
Definition lengthPositive (v : json) : bool := gtZero (lengthOf v).

(** Object literal with a property whose value may be [undefined]. *)
Definition withProp (k : string) (v : option json) (m : gmap string json)
  : gmap string json :=
  match v with
  | Some x => <[k := x]> m
  | None => m
  end.

End Js.

(** ** Configuration constants *)

Definition DELAY_BETWEEN : Z := 1500.
Definition BATCH_REST_INTERVAL : Z := 50.
Definition BATCH_REST_DURATION : Z := 15000.
Definition IP_BLOCK_WAIT : Z := 3 * 60 * 1000.
Definition MAX_CONSECUTIVE_BLOCKS : nat := 5.

(** The phrase the site puts in its message when it blocks a client. *)
Definition BLOCK_PHRASE : string := "차단".
Definition NO_DATA_TEXT : string := "데이터 없음".
Definition NO_DATA_STATUS : Z := 550.

(** ** The request made inside the page: [scrapeDocuments] *)

(** Completion of a computation that may throw. *)
Inductive Completion (A : Type) : Type :=
  | Normal (a : A)
  | Throw (e : string).
Arguments Normal {A} a.
Arguments Throw {A} e.

(** What the network gives back to [fetch] and [res.text()]; [parsed] is
    the result of [JSON.parse] on the text, [None] when it throws. *)
Inductive HttpReply : Type :=
  | NetworkFailure (e : string)
  | HttpResponse (status : Z) (text : string) (parsed : option json).

Definition responseOk (status : Z) : bool := (200 <=? status) && (status <=? 299).

(** [json.data]: reading a property of [null] throws. *)
Definition readData (j : json) : Completion (option json) :=
  match j with
  | JNull => Throw "TypeError: Cannot read properties of null (reading 'data')"
  | _ => Normal (Js.prop j "data")
  end.

(** [json.message?.includes('차단')]: the optional chain stops on [null] and
    [undefined]; strings and arrays have an [includes] method; on any other
    value the call throws. *)
Definition messageIncludes (m : option json) : Completion bool :=
  match m with
  | None | Some JNull => Normal false
  | Some (JStr s) => Normal (Js.includes s BLOCK_PHRASE)
  | Some (JArr l) => Normal (existsb (Js.isStr BLOCK_PHRASE) l)
  | Some _ => Throw "TypeError: json.message?.includes is not a function"
  end.

Definition errorParse (status : Z) (text : string) : json :=
  JObj (<["__error" := JBool true]>
       (<["status" := JNum status]>
       (<["body" := JStr (Js.sliceUnits 200 text)]> ∅))).

Definition blockedResult (message : option json) : json :=
  JObj (<["__blocked" := JBool true]> (Js.withProp "message" message ∅)).

Definition nodataResult (message : option json) : json :=
  JObj (<["__nodata" := JBool true]>
       (<["message" := Js.orElse message (JStr NO_DATA_TEXT)]> ∅)).

Definition errorStatus (status : Z) (message : option json) : json :=
  JObj (<["__error" := JBool true]>
       (<["status" := JNum status]> (Js.withProp "message" message ∅))).

Definition errorThrown (e : string) : json :=
  JObj (<["__error" := JBool true]> (<["message" := JStr e]> ∅)).

(** [data?.ipcheck === false]. *)
Definition ipcheckIsFalse (data : json) : bool :=
  match Js.prop data "ipcheck" with
  | Some (JBool false) => true
  | _ => false
  end.

(** The statements of the inner [try] after the body has been parsed. *)
Definition classifyParsed (status : Z) (j : json) : Completion json :=
  match readData j with
  | Throw e => Throw e
  | Normal d =>
      let data := Js.orElse d j in
      match messageIncludes (Js.prop j "message") with
      | Throw e => Throw e
      | Normal inMessage =>
          if inMessage || ipcheckIsFalse data
          then Normal (blockedResult (Js.prop j "message"))
          else if status =? NO_DATA_STATUS
          then Normal (nodataResult (Js.prop j "message"))
          else if negb (responseOk status)
          then Normal (errorStatus status (Js.prop j "message"))
          else Normal data
      end
  end.

(** The function evaluated in the page: the outer [try]/[catch] turns every
    exception into an error result. *)
Definition pageFunction (r : HttpReply) : json :=
  match r with
  | NetworkFailure e => errorThrown e
  | HttpResponse status text None => errorParse status text
  | HttpResponse status text (Some j) =>
      match classifyParsed status j with
      | Normal v => v
      | Throw e => errorThrown e
      end
  end.

(** ** Data model *)

(** [DetailEntry]: four declared fields and an index signature. *)
Record DetailEntry : Type := {
  cortOfcCd : string;
  csNo : string;
  courtName : string;
  caseNumber : string;
  fields : gmap string json
}.

Record ProgressData : Type := {
  completed : list string;
  total : nat;
  startedAt : string;
  lastUpdated : string
}.

(** The parsed content of the details file: an array, or an object whose
    properties are listed in enumeration order. *)
Inductive RawStore : Type :=
  | StoreArray (l : list DetailEntry)
  | StoreObject (kvs : list (string * DetailEntry)).

(** The two files; [None] is a file that does not exist. *)
Record Disk : Type := {
  detailsFile : option RawStore;
  progressFile : option ProgressData
}.

Definition entryKey (d : DetailEntry) : string := cortOfcCd d +:+ csNo d.

(** The two codes a request is made with. *)
Definition entryIdent (d : DetailEntry) : string * string := (cortOfcCd d, csNo d).

(** [entry.k = v]. *)
Definition setField (k : string) (v : json) (d : DetailEntry) : DetailEntry :=
  {| cortOfcCd := cortOfcCd d; csNo := csNo d; courtName := courtName d;
     caseNumber := caseNumber d; fields := <[k := v]> (fields d) |}.

(** [d.deliveryRecords !== undefined]. *)
Definition hasDeliveryRecords (d : DetailEntry) : bool :=
  match fields d !! "deliveryRecords" with
  | Some _ => true
  | None => false
  end.

(** The predicate of the filter that selects the entries still to collect. *)
Definition isTarget (completedSet : gset string) (d : DetailEntry) : bool :=
  let key := entryKey d in
  if bool_decide (key ∈ completedSet) then false
  else if hasDeliveryRecords d then false
  else true.

(** [refs.filter(p)] on an array of references into [heap]. *)
Definition filterRefs (p : DetailEntry → bool) (heap : list DetailEntry)
    (refs : list nat) : list nat :=
  List.filter (λ r, match heap !! r with Some d => p d | None => false end) refs.

(** The array [details] as references: every position of the heap. *)
Definition allRefs (heap : list DetailEntry) : list nat := seq 0 (length heap).

(** The entries a list of references stands for. *)
Definition deref (heap : list DetailEntry) (refs : list nat) : list DetailEntry :=
  omap (λ r, heap !! r) refs.

(** [d.investigation?.dma_curstExmnMngInf]. *)
Definition investigationInfo (d : DetailEntry) : option json :=
  match fields d !! "investigation" with
  | Some inv => Js.prop inv "dma_curstExmnMngInf"
  | None => None
  end.

Definition isAdvanced (d : DetailEntry) : bool :=
  match investigationInfo d with
  | Some x => Js.truthyJ x && Js.hasKeys x
  | None => false
  end.

Definition isEarly (d : DetailEntry) : bool :=
  match investigationInfo d with
  | Some x => negb (Js.truthyJ x) || negb (Js.hasKeys x)
  | None => true
  end.

(** The list of targets: the filter, narrowed in test mode. *)
Definition selectTargets (TEST_MODE : bool) (completedSet : gset string)
    (heap : list DetailEntry) : list nat :=
  let targets := filterRefs (isTarget completedSet) heap (allRefs heap) in
  if TEST_MODE then
    let advanced := filterRefs isAdvanced heap targets in
    let early := filterRefs isEarly heap targets in
    take 3 advanced ++ take 2 early
  else targets.

(** [detailMap]: later entries replace earlier ones under the same key. *)
Definition buildDetailMap (heap : list DetailEntry) : gmap string nat :=
  foldl (λ m r, match heap !! r with
                | Some d => <[entryKey d := r]> m
                | None => m
                end) ∅ (allRefs heap).

(** What [saveDetails] serialises. *)
Definition encodeDetails (isArray : bool) (heap : list DetailEntry) : RawStore :=
  if isArray then StoreArray heap
  else StoreObject (imap (λ idx d, (pretty idx, d)) heap).

Definition decodeDetails (raw : RawStore) : list DetailEntry :=
  match raw with
  | StoreArray l => l
  | StoreObject kvs => kvs.*2
  end.

Definition rawIsArray (raw : RawStore) : bool :=
  match raw with
  | StoreArray _ => true
  | StoreObject _ => false
  end.

(** ** Environment, state and effects *)

Inductive EvalReply : Type :=
  | EvalFailure (e : string)
  | Evaluated (r : HttpReply).

Record Env : Type := {
  pageReply : nat → string → string → EvalReply;
  writeOk : nat → bool;
  gotoOk : nat → bool;
  clock : nat → string;
  wsReady : bool
}.

Inductive File : Type := DETAILS_FILE | PROGRESS_FILE.

Inductive Event : Type :=
  | EvWait (ms : Z)
  | EvGoto (ok : bool)
  | EvFetch (cortOfcCd csNo : string)
  | EvWrite (f : File) (ok : bool)
  | EvClose
  | EvExit (code : Z).

Record State : Type := {
  details : list DetailEntry;
  progress : ProgressData;
  success : nat;
  errors : nat;
  consecutiveBlocks : nat;
  deliveryItems : option Z;
  documentItems : option Z;
  i : Z;
  disk : Disk;
  trace : list Event;
  nfetch : nat;
  nwrite : nat;
  ngoto : nat;
  nclock : nat
}.

Definition withDetails (f : list DetailEntry → list DetailEntry) (s : State) : State :=
  {| details := f (details s); progress := progress s; success := success s;
     errors := errors s; consecutiveBlocks := consecutiveBlocks s;
     deliveryItems := deliveryItems s; documentItems := documentItems s;
     i := i s; disk := disk s; trace := trace s; nfetch := nfetch s;
     nwrite := nwrite s; ngoto := ngoto s; nclock := nclock s |}.

Definition withProgress (f : ProgressData → ProgressData) (s : State) : State :=
  {| details := details s; progress := f (progress s); success := success s;
     errors := errors s; consecutiveBlocks := consecutiveBlocks s;
     deliveryItems := deliveryItems s; documentItems := documentItems s;
     i := i s; disk := disk s; trace := trace s; nfetch := nfetch s;
     nwrite := nwrite s; ngoto := ngoto s; nclock := nclock s |}.

Definition withSuccess (f : nat → nat) (s : State) : State :=
  {| details := details s; progress := progress s; success := f (success s);
     errors := errors s; consecutiveBlocks := consecutiveBlocks s;
     deliveryItems := deliveryItems s; documentItems := documentItems s;
     i := i s; disk := disk s; trace := trace s; nfetch := nfetch s;
     nwrite := nwrite s; ngoto := ngoto s; nclock := nclock s |}.

Definition withErrors (f : nat → nat) (s : State) : State :=
  {| details := details s; progress := progress s; success := success s;
     errors := f (errors s); consecutiveBlocks := consecutiveBlocks s;
     deliveryItems := deliveryItems s; documentItems := documentItems s;
     i := i s; disk := disk s; trace := trace s; nfetch := nfetch s;
     nwrite := nwrite s; ngoto := ngoto s; nclock := nclock s |}.

Definition withBlocks (f : nat → nat) (s : State) : State :=
  {| details := details s; progress := progress s; success := success s;
     errors := errors s; consecutiveBlocks := f (consecutiveBlocks s);
     deliveryItems := deliveryItems s; documentItems := documentItems s;
     i := i s; disk := disk s; trace := trace s; nfetch := nfetch s;
     nwrite := nwrite s; ngoto := ngoto s; nclock := nclock s |}.

Definition withStats (fd fo : option Z → option Z) (s : State) : State :=
  {| details := details s; progress := progress s; success := success s;
     errors := errors s; consecutiveBlocks := consecutiveBlocks s;
     deliveryItems := fd (deliveryItems s); documentItems := fo (documentItems s);
     i := i s; disk := disk s; trace := trace s; nfetch := nfetch s;
     nwrite := nwrite s; ngoto := ngoto s; nclock := nclock s |}.

Definition withIndex (f : Z → Z) (s : State) : State :=
  {| details := details s; progress := progress s; success := success s;
     errors := errors s; consecutiveBlocks := consecutiveBlocks s;
     deliveryItems := deliveryItems s; documentItems := documentItems s;
     i := f (i s); disk := disk s; trace := trace s; nfetch := nfetch s;
     nwrite := nwrite s; ngoto := ngoto s; nclock := nclock s |}.

Definition withDisk (f : Disk → Disk) (s : State) : State :=
  {| details := details s; progress := progress s; success := success s;
     errors := errors s; consecutiveBlocks := consecutiveBlocks s;
     deliveryItems := deliveryItems s; documentItems := documentItems s;
     i := i s; disk := f (disk s); trace := trace s; nfetch := nfetch s;
     nwrite := nwrite s; ngoto := ngoto s; nclock := nclock s |}.

Definition withTrace (f : list Event → list Event) (s : State) : State :=
  {| details := details s; progress := progress s; success := success s;
     errors := errors s; consecutiveBlocks := consecutiveBlocks s;
     deliveryItems := deliveryItems s; documentItems := documentItems s;
     i := i s; disk := disk s; trace := f (trace s); nfetch := nfetch s;
     nwrite := nwrite s; ngoto := ngoto s; nclock := nclock s |}.

(** One more call of each oracle. *)
Definition tickFetch (s : State) : State :=
  {| details := details s; progress := progress s; success := success s;
     errors := errors s; consecutiveBlocks := consecutiveBlocks s;
     deliveryItems := deliveryItems s; documentItems := documentItems s;
     i := i s; disk := disk s; trace := trace s; nfetch := S (nfetch s);
     nwrite := nwrite s; ngoto := ngoto s; nclock := nclock s |}.

Definition tickWrite (s : State) : State :=
  {| details := details s; progress := progress s; success := success s;
     errors := errors s; consecutiveBlocks := consecutiveBlocks s;
     deliveryItems := deliveryItems s; documentItems := documentItems s;
     i := i s; disk := disk s; trace := trace s; nfetch := nfetch s;
     nwrite := S (nwrite s); ngoto := ngoto s; nclock := nclock s |}.

Definition tickGoto (s : State) : State :=
  {| details := details s; progress := progress s; success := success s;
     errors := errors s; consecutiveBlocks := consecutiveBlocks s;
     deliveryItems := deliveryItems s; documentItems := documentItems s;
     i := i s; disk := disk s; trace := trace s; nfetch := nfetch s;
     nwrite := nwrite s; ngoto := S (ngoto s); nclock := nclock s |}.

Definition tickClock (s : State) : State :=
  {| details := details s; progress := progress s; success := success s;
     errors := errors s; consecutiveBlocks := consecutiveBlocks s;
     deliveryItems := deliveryItems s; documentItems := documentItems s;
     i := i s; disk := disk s; trace := trace s; nfetch := nfetch s;
     nwrite := nwrite s; ngoto := ngoto s; nclock := S (nclock s) |}.

(** A statement either completes, throws, or ends the process. *)
Inductive Res (A : Type) : Type :=
  | Ret (a : A) (s : State)
  | Raise (e : string) (s : State)
  | Exit (code : Z) (s : State).
Arguments Ret {A} a s.
Arguments Raise {A} e s.
Arguments Exit {A} code s.

Definition M (A : Type) : Type := State → Res A.

Definition ret {A} (a : A) : M A := λ s, Ret a s.

Definition bind {A B} (f : A → M B) (m : M A) : M B :=
  λ s, match m s with
       | Ret a s' => f a s'
       | Raise e s' => Raise e s'
       | Exit c s' => Exit c s'
       end.

#[global] Instance M_ret : MRet M := @ret.
#[global] Instance M_bind : MBind M := @bind.

Definition raise {A} (e : string) : M A := λ s, Raise e s.
Definition processExit {A} (code : Z) : M A :=
  λ s, Exit code (withTrace (λ t, t ++ [EvExit code]) s).
Definition get : M State := λ s, Ret s s.
Definition modify (f : State → State) : M unit := λ s, Ret tt (f s).
Definition emit (e : Event) : M unit := modify (withTrace (λ t, t ++ [e])).
Definition when (b : bool) (m : M unit) : M unit := if b then m else ret tt.

(** [try { m } catch (e) { h e }]; leaving the process is not caught. *)
Definition tryCatch {A} (m : M A) (h : string → M A) : M A :=
  λ s, match m s with
       | Raise e s' => h e s'
       | r => r
       end.

Definition stateOf {A} (r : Res A) : State :=
  match r with
  | Ret _ s | Raise _ s | Exit _ s => s
  end.

(** ** The program *)

(** How a pass through the [try] block of the loop ends: by falling through
    to the pause that closes the iteration, or by [continue]. *)
Inductive Flow : Type := FallThrough | Continue.

(** [acc += v.length]; [None] once the counter is not a number any more,
    which it then stays. *)
Definition addLength (acc : option Z) (v : json) : option Z :=
  match acc with
  | Some a => Js.plus a (Js.lengthOf v)
  | None => None
  end.

Definition pushCompleted (key : string) (p : ProgressData) : ProgressData :=
  {| completed := completed p ++ [key]; total := total p;
     startedAt := startedAt p; lastUpdated := lastUpdated p |}.

Definition setLastUpdated (now : string) (p : ProgressData) : ProgressData :=
  {| completed := completed p; total := total p;
     startedAt := startedAt p; lastUpdated := now |}.

Definition setTotal (n : nat) (p : ProgressData) : ProgressData :=
  {| completed := completed p; total := n;
     startedAt := startedAt p; lastUpdated := lastUpdated p |}.

Definition putDetailsFile (raw : RawStore) (d : Disk) : Disk :=
  {| detailsFile := Some raw; progressFile := progressFile d |}.

Definition putProgressFile (p : ProgressData) (d : Disk) : Disk :=
  {| detailsFile := detailsFile d; progressFile := Some p |}.

Section Program.

Variable env : Env.
Variable TEST_MODE : bool.

(** [new Date().toISOString()]. *)
Definition now : M string :=
  s ← get;
  modify tickClock;;
  mret (clock env (nclock s)).

Definition waitForTimeout (ms : Z) : M unit := emit (EvWait ms).

(** [page.goto(SEARCH_PAGE, ...)]: throws when the navigation fails. *)
Definition gotoSearchPage : M unit :=
  s ← get;
  modify tickGoto;;
  emit (EvGoto (gotoOk env (ngoto s)));;
  if gotoOk env (ngoto s) then mret tt else raise "goto failed".

Definition closeBrowser : M unit := emit EvClose.

(** A file write; a write that fails throws and leaves the file as it was. *)
Definition writeFile (f : File) (update : State → Disk → Disk) : M unit :=
  s ← get;
  modify tickWrite;;
  emit (EvWrite f (writeOk env (nwrite s)));;
  if writeOk env (nwrite s)
  then modify (withDisk (update s))
  else raise "write failed".

Definition scrapeDocuments (cortOfcCd csNo : string) : M json :=
  s ← get;
  modify tickFetch;;
  emit (EvFetch cortOfcCd csNo);;
  match pageReply env (nfetch s) cortOfcCd csNo with
  | EvalFailure e => raise e
  | Evaluated r => mret (pageFunction r)
  end.

Definition loadProgress (RESUME : bool) (d : Disk) : M ProgressData :=
  match RESUME, progressFile d with
  | true, Some p => mret p
  | _, _ =>
      started ← now;
      updated ← now;
      mret {| completed := []; total := 0;
              startedAt := started; lastUpdated := updated |}
  end.

Definition saveProgress : M unit :=
  t ← now;
  modify (withProgress (setLastUpdated t));;
  writeFile PROGRESS_FILE (λ s, putProgressFile (progress s)).

Section Loop.

Variable isArray : bool.
Variable targets : list nat.
Variable detailMap : gmap string nat.

Definition saveDetails : M unit :=
  writeFile DETAILS_FILE (λ s, putDetailsFile (encodeDetails isArray (details s))).

(** [entry.k = v] on the entry object at position [r]. *)
Definition assign (r : nat) (k : string) (v : json) : M unit :=
  modify (withDetails (alter (setField k v) r)).

(** The blocked branch. *)
Definition onBlocked : M Flow :=
  modify (withBlocks S);;
  s ← get;
  when (MAX_CONSECUTIVE_BLOCKS <=? consecutiveBlocks s)%nat
    (saveDetails;; saveProgress;; closeBrowser;; processExit 1);;
  waitForTimeout IP_BLOCK_WAIT;;
  gotoSearchPage;;
  waitForTimeout 3000;;
  modify (withIndex Z.pred);;
  mret Continue.

(** The three branches that store an outcome in the entry. *)
Definition mergeResult (r : nat) (result : json) : M unit :=
  if Js.truthy (Js.prop result "__nodata") then
    assign r "deliveryRecords" (JArr []);;
    assign r "documentRecords" (JArr [])
  else if Js.truthyJ result && negb (Js.truthy (Js.prop result "__error")) then
    let deliveryList := Js.orElse (Js.prop result "dlt_dlvrDtsLst") (JArr []) in
    let documentList := Js.orElse (Js.prop result "dlt_ofdocDtsLst") (JArr []) in
    let mergerList := Js.orElse (Js.prop result "dlt_mrgDpcnSbxLst") (JArr []) in
    let priorCase := Js.orElse (Js.prop result "dma_trnscsBfCsInfo") JNull in
    assign r "deliveryRecords" deliveryList;;
    assign r "documentRecords" documentList;;
    when (Js.lengthPositive mergerList) (assign r "mergerRecords" mergerList);;
    when (Js.truthyJ priorCase && Js.hasKeys priorCase)
      (assign r "priorCaseInfo" priorCase);;
    modify (withStats (λ a, addLength a deliveryList) (λ a, addLength a documentList))
  else
    assign r "deliveryRecords" (JArr []);;
    assign r "documentRecords" (JArr []);;
    modify (withErrors S).

(** The body of the [try] block for the entry at position [r]. *)
Definition tryBlock (r : nat) (t : DetailEntry) (key : string) : M Flow :=
  result ← scrapeDocuments (cortOfcCd t) (csNo t);
  if Js.truthy (Js.prop result "__blocked") then onBlocked
  else
    modify (withBlocks (λ _, 0%nat));;
    mergeResult r result;;
    modify (withSuccess S);;
    modify (withProgress (pushCompleted key));;
    s ← get;
    when ((Z.rem (i s) 10 =? 0) || TEST_MODE) (saveProgress;; saveDetails);;
    mret FallThrough.

(** [targets[i]]: the entry object the [i]-th target refers to. *)
Definition target (s : State) : option DetailEntry :=
  r ← targets !! Z.to_nat (i s); details s !! r.

(** One pass of the [for] loop, with the increment that ends it. *)
Definition iteration : M unit :=
  s ← get;
  match target s with
  | None => raise "TypeError: Cannot read properties of undefined"
  | Some t =>
      let key := cortOfcCd t +:+ csNo t in
      when ((0 <? i s) && (Z.rem (i s) BATCH_REST_INTERVAL =? 0))
        (waitForTimeout BATCH_REST_DURATION);;
      flow ← match detailMap !! key with
             | None =>
                 modify (withErrors S);;
                 modify (withProgress (pushCompleted key));;
                 mret Continue
             | Some r =>
                 tryCatch (tryBlock r t key)
                          (λ _, modify (withErrors S);; mret FallThrough)
             end;
      match flow with
      | FallThrough => waitForTimeout DELAY_BETWEEN
      | Continue => mret tt
      end;;
      modify (withIndex Z.succ)
  end.

Definition inLoop (s : State) : bool := i s <? Z.of_nat (length targets).

(** The [for] loop; [None] when the fuel does not suffice. *)
Fixpoint forLoop (fuel : nat) (s : State) : option (Res unit) :=
  match fuel with
  | O => None
  | S fuel' =>
      if inLoop s then
        match iteration s with
        | Ret _ s' => forLoop fuel' s'
        | r => Some r
        end
      else Some (Ret tt s)
  end.

(** The state after [k] passes, when the loop makes that many. *)
Fixpoint passes (k : nat) (s : State) : option State :=
  match k with
  | O => Some s
  | S k' =>
      if inLoop s then
        match iteration s with
        | Ret _ s' => passes k' s'
        | _ => None
        end
      else None
  end.

(** Passes still possible from a state: each one either moves to the next
    target or adds a block to a streak shorter than the limit. *)
Definition budget (s : State) : nat :=
  (MAX_CONSECUTIVE_BLOCKS * Z.to_nat (Z.of_nat (length targets) - i s)
   + (MAX_CONSECUTIVE_BLOCKS - 1 - consecutiveBlocks s))%nat.

(** The loop and what follows it. *)
Definition collect (s : State) : option (Res unit) :=
  match forLoop (S (budget s)) s with
  | Some (Ret _ s') => Some ((saveDetails;; saveProgress;; closeBrowser) s')
  | other => other
  end.

End Loop.

Definition initialState (d : Disk) : State :=
  {| details := []; progress := {| completed := []; total := 0;
                                   startedAt := ""; lastUpdated := "" |};
     success := 0; errors := 0; consecutiveBlocks := 0;
     deliveryItems := Some 0; documentItems := Some 0; i := 0;
     disk := d; trace := []; nfetch := 0; nwrite := 0; ngoto := 0; nclock := 0 |}.

(** The statements of [main] before the loop: they end the run, or give the
    array flag, the targets and the map the loop works with. *)
Inductive Prepared : Type :=
  | Done
  | Ready (isArray : bool) (targets : list nat) (detailMap : gmap string nat).

Definition prepare (RESUME : bool) : M Prepared :=
  s ← get;
  match detailsFile (disk s) with
  | None => processExit 1
  | Some rawData =>
      modify (withDetails (λ _, decodeDetails rawData));;
      p ← loadProgress RESUME (disk s);
      modify (withProgress (λ _, p));;
      let completedSet : gset string := list_to_set (completed p) in
      let targets := selectTargets TEST_MODE completedSet (decodeDetails rawData) in
      if Nat.eqb (length targets) 0 then mret Done
      else
        modify (withProgress (setTotal (length (decodeDetails rawData))));;
        let detailMap := buildDetailMap (decodeDetails rawData) in
        gotoSearchPage;;
        waitForTimeout 3000;;
        (if wsReady env then mret tt else closeBrowser;; processExit 1);;
        mret (Ready (rawIsArray rawData) targets detailMap)
  end.

Definition main (RESUME : bool) (d : Disk) : option (Res unit) :=
  match prepare RESUME (initialState d) with
  | Ret Done s => Some (Ret tt s)
  | Ret (Ready isArray targets detailMap) s => collect isArray targets detailMap s
  | Raise e s => Some (Raise e s)
  | Exit c s => Some (Exit c s)
  end.

End Program.

(** ** Vocabulary of the statements *)

(** The four outcomes, as the loop tells them apart on a result: the test
    for a block comes first, the other three are the branches that store the
    result in the entry. *)
Inductive Outcome : Type := Blocked | NoData | Success | Error.

Definition settledAs (result : json) : Outcome :=
  if Js.truthy (Js.prop result "__nodata") then NoData
  else if Js.truthyJ result && negb (Js.truthy (Js.prop result "__error")) then Success
  else Error.

Definition classify (result : json) : Outcome :=
  if Js.truthy (Js.prop result "__blocked") then Blocked else settledAs result.

(** The message of a parsed body holds the block phrase: as part of a string,
    or as an element of an array. *)
Definition messageHasPhrase (j : json) : bool :=
  match Js.prop j "message" with
  | Some (JStr s) => Js.includes s BLOCK_PHRASE
  | Some (JArr l) => existsb (Js.isStr BLOCK_PHRASE) l
  | _ => false
  end.

(** The object the block flag is read from: [json.data || json]. *)
Definition payload (j : json) : json := Js.orElse (Js.prop j "data") j.

(** The block flag is present and false. *)
Definition blockFlagFalse (j : json) : bool := ipcheckIsFalse (payload j).

(** The message is absent, [null], a string or an array: the values on which
    the search for the phrase does not throw. *)
Definition messageSearchable (j : json) : bool :=
  match Js.prop j "message" with
  | None | Some JNull | Some (JStr _) | Some (JArr _) => true
  | Some _ => false
  end.

(** The four collections a successful result carries. *)
Definition deliveryListOf (result : json) : json :=
  Js.orElse (Js.prop result "dlt_dlvrDtsLst") (JArr []).
Definition documentListOf (result : json) : json :=
  Js.orElse (Js.prop result "dlt_ofdocDtsLst") (JArr []).
Definition mergerListOf (result : json) : json :=
  Js.orElse (Js.prop result "dlt_mrgDpcnSbxLst") (JArr []).
Definition priorCaseOf (result : json) : json :=
  Js.orElse (Js.prop result "dma_trnscsBfCsInfo") JNull.

Definition setFieldIf (b : bool) (k : string) (v : json) (e : DetailEntry) : DetailEntry :=
  if b then setField k v e else e.

(** The entry after a result has been stored in it. *)
Definition mergeEntry (result : json) (e : DetailEntry) : DetailEntry :=
  match settledAs result with
  | Success =>
      setFieldIf (Js.truthyJ (priorCaseOf result) && Js.hasKeys (priorCaseOf result))
        "priorCaseInfo" (priorCaseOf result)
        (setFieldIf (Js.lengthPositive (mergerListOf result))
           "mergerRecords" (mergerListOf result)
           (setField "documentRecords" (documentListOf result)
              (setField "deliveryRecords" (deliveryListOf result) e)))
  | _ => setField "documentRecords" (JArr []) (setField "deliveryRecords" (JArr []) e)
  end.

(** The state after a result has been stored in the entry at position [r]. *)
Definition mergeState (r : nat) (result : json) (s : State) : State :=
  match settledAs result with
  | Success =>
      withStats (λ a, addLength a (deliveryListOf result))
                (λ a, addLength a (documentListOf result))
                (withDetails (alter (mergeEntry result) r) s)
  | Error => withErrors S (withDetails (alter (mergeEntry result) r) s)
  | _ => withDetails (alter (mergeEntry result) r) s
  end.

(** The fields the merge may write. *)
Definition mergeFields : list string :=
  ["deliveryRecords"; "documentRecords"; "mergerRecords"; "priorCaseInfo"].

Definition b2n (b : bool) : nat := if b then 1%nat else 0%nat.

Definition isSuccess (o : Outcome) : bool :=
  match o with
  | Success => true
  | _ => false
  end.

Definition isError (o : Outcome) : bool :=
  match o with
  | Error => true
  | _ => false
  end.

(** The pause the loop takes before every fiftieth target. *)
Definition restEvents (s : State) : list Event :=
  if (0 <? i s) && (Z.rem (i s) BATCH_REST_INTERVAL =? 0)
  then [EvWait BATCH_REST_DURATION] else [].

(** The periodic flush is due in this pass. *)
Definition flushDue (TEST_MODE : bool) (s : State) : bool :=
  (Z.rem (i s) 10 =? 0) || TEST_MODE.

(** The periodic flush is due and one of its two writes fails. *)
Definition flushFails (env : Env) (TEST_MODE : bool) (s : State) : bool :=
  flushDue TEST_MODE s
  && negb (writeOk env (nwrite s) && writeOk env (S (nwrite s))).

(** What the periodic flush of a pass writes to the trace and to the disk,
    from the state [s] in which the pass starts: the progress file first,
    then the details file, the second only when the first write succeeds.
    [p] and [heap] are the progress and the entries at the time of the
    flush. *)
Definition flushEvents (env : Env) (TEST_MODE : bool) (s : State) : list Event :=
  if flushDue TEST_MODE s then
    if writeOk env (nwrite s)
    then [EvWrite PROGRESS_FILE true; EvWrite DETAILS_FILE (writeOk env (S (nwrite s)))]
    else [EvWrite PROGRESS_FILE false]
  else [].

Definition flushWrites (env : Env) (TEST_MODE : bool) (s : State) : nat :=
  if flushDue TEST_MODE s then
    if writeOk env (nwrite s) then 2%nat else 1%nat
  else 0%nat.

Definition flushDisk (env : Env) (TEST_MODE isArray : bool) (s : State)
    (p : ProgressData) (heap : list DetailEntry) : Disk :=
  if flushDue TEST_MODE s then
    if writeOk env (nwrite s) then
      if writeOk env (S (nwrite s))
      then putDetailsFile (encodeDetails isArray heap) (putProgressFile p (disk s))
      else putProgressFile p (disk s)
    else disk s
  else disk s.

(** The keys completed in this run lead to entries that hold both
    collections; [n0] keys were completed before the run. *)
Definition settledHave (detailMap : gmap string nat) (n0 : nat) (s : State) : Prop :=
  ∀ key, key ∈ drop n0 (completed (progress s)) →
    ∃ r e, detailMap !! key = Some r ∧ details s !! r = Some e
           ∧ is_Some (fields e !! "deliveryRecords")
           ∧ is_Some (fields e !! "documentRecords").

(** What the loop keeps true from pass to pass, for the entries [heap0] and
    the [n0] completed keys it starts with. *)
Record Inv (detailMap : gmap string nat) (heap0 : list DetailEntry) (n0 : nat)
    (s : State) : Prop := {
  inv_keys : entryIdent <$> details s = entryIdent <$> heap0;
  inv_index : 0 ≤ i s;
  inv_count : length (completed (progress s)) = (n0 + success s)%nat;
  inv_settled : settledHave detailMap n0 s
}.

(** The map knows the key of every entry and sends it to a position of the
    heap. *)
Definition covers (detailMap : gmap string nat) (heap0 : list DetailEntry) : Prop :=
  ∀ d, d ∈ heap0 →
    ∃ r, detailMap !! entryKey d = Some r ∧ (r < length heap0)%nat.

(** The requests of a trace, each with its two codes. *)
Definition fetchesOf (tr : list Event) : list (string * string) :=
  omap (λ e, match e with EvFetch c n => Some (c, n) | _ => None end) tr.

(** The request a pass makes: the one for its target, when the entry of the
    target is found. *)
Definition requestOf (targets : list nat) (detailMap : gmap string nat)
    (s : State) : list (string * string) :=
  match target targets s with
  | Some t =>
      match detailMap !! entryKey t with
      | Some _ => [entryIdent t]
      | None => []
      end
  | None => []
  end.

(** The completed keys the run starts with. *)
Definition loadedKeys (RESUME : bool) (d : Disk) : list string :=
  match RESUME, progressFile d with
  | true, Some p => completed p
  | _, _ => []
  end.

(** *** Vocabulary of the statements about whole runs *)

(** The targets of a run, from the files it starts with. *)
Definition pendingOf (TEST_MODE RESUME : bool) (d : Disk) (raw : RawStore) : list nat :=
  selectTargets TEST_MODE (list_to_set (loadedKeys RESUME d)) (decodeDetails raw).

(** The pacing of the requests, read off a trace: a request is in order
    when a pause of at least DELAY_BETWEEN has been taken since the request
    before it.  [ready] tells whether such a pause has been taken; the
    result is the readiness after the trace, [None] when a request comes too
    early. *)
Fixpoint pace (ready : bool) (tr : list Event) : option bool :=
  match tr with
  | [] => Some ready
  | EvFetch _ _ :: tr' => if ready then pace false tr' else None
  | EvWait ms :: tr' => pace (ready || (DELAY_BETWEEN <=? ms)) tr'
  | _ :: tr' => pace ready tr'
  end.

(** How a run ends before its loop starts. *)
Definition endsEarly (env : Env) (TEST_MODE RESUME : bool) (d : Disk)
    (r : Res unit) : Prop :=
  (∃ s, r = Exit 1 s ∧ detailsFile d = None ∧ trace s = [EvExit 1] ∧ disk s = d)
  ∨ (∃ raw s, r = Ret tt s ∧ detailsFile d = Some raw
       ∧ pendingOf TEST_MODE RESUME d raw = [] ∧ trace s = [] ∧ disk s = d)
  ∨ (∃ raw e s, r = Raise e s ∧ detailsFile d = Some raw
       ∧ pendingOf TEST_MODE RESUME d raw ≠ []
       ∧ gotoOk env 0 = false ∧ trace s = [EvGoto false] ∧ disk s = d)
  ∨ (∃ raw s, r = Exit 1 s ∧ detailsFile d = Some raw
       ∧ pendingOf TEST_MODE RESUME d raw ≠ []
       ∧ gotoOk env 0 = true ∧ wsReady env = false
       ∧ trace s = [EvGoto true; EvWait 3000; EvClose; EvExit 1] ∧ disk s = d).

(** How a run ends once its loop has started, after the passes that lead to
    the state [s]: with the flush after the loop, or in a pass that does not
    complete. *)
Definition endsFrom (env : Env) (TEST_MODE isArray : bool) (targets : list nat)
    (detailMap : gmap string nat) (s : State) (r : Res unit) : Prop :=
  (inLoop targets s = false
   ∧ r = (saveDetails env isArray;; saveProgress env;; closeBrowser) s)
  ∨ (inLoop targets s = true
     ∧ iteration env TEST_MODE isArray targets detailMap s = r
     ∧ ∀ s', r ≠ Ret tt s').

(** What bounds the requests made so far: MAX_CONSECUTIVE_BLOCKS for each
    target passed, and the blocks of the streak on the current one. *)
Definition withinBound (targets : list nat) (s : State) : Prop :=
  0 ≤ i s ≤ Z.of_nat (length targets)
  ∧ ∃ k : nat, (k ≤ consecutiveBlocks s)%nat ∧ (k < MAX_CONSECUTIVE_BLOCKS)%nat
      ∧ (i s = Z.of_nat (length targets) → k = 0%nat)
      ∧ Z.of_nat (length (fetchesOf (trace s)))
        ≤ Z.of_nat MAX_CONSECUTIVE_BLOCKS * i s + Z.of_nat k.

(** An entry is kept: its four declared fields and every field other than
    the four the merge writes are what they were, and no field is lost. *)
Definition keeps (e0 e : DetailEntry) : Prop :=
  cortOfcCd e = cortOfcCd e0 ∧ csNo e = csNo e0
  ∧ courtName e = courtName e0 ∧ caseNumber e = caseNumber e0
  ∧ (∀ k, k ∉ mergeFields → fields e !! k = fields e0 !! k)
  ∧ (∀ k, is_Some (fields e0 !! k) → is_Some (fields e !! k)).

(** The details file holds a store of the shape [isArray] whose entries are
    those of [heap0], kept. *)
Definition storeKept (isArray : bool) (heap0 : list DetailEntry) (d : Disk) : Prop :=
  ∃ saved, detailsFile d = Some saved
    ∧ rawIsArray saved = isArray
    ∧ Forall2 keeps heap0 (decodeDetails saved).

(** A checkpoint of a run that starts with the keys [keys0], the entries
    [heap0] and the targets [targets]: it lists the keys it started with and
    then keys of targets only, and it records the size of the store and the
    start of the run. *)
Definition checkpointOf (keys0 : list string) (heap0 : list DetailEntry)
    (targets : list nat) (started : string) (p : ProgressData) : Prop :=
  keys0 `prefix_of` completed p
  ∧ total p = length heap0
  ∧ startedAt p = started
  ∧ ∀ key, key ∈ drop (length keys0) (completed p) →
      ∃ pos e, pos ∈ targets ∧ heap0 !! pos = Some e ∧ entryKey e = key.

(** The progress file is the one the run found, or a checkpoint of the run
    that is not ahead of the one in memory. *)
Definition checkpointKept (keys0 : list string) (heap0 : list DetailEntry)
    (targets : list nat) (started : string) (file0 : option ProgressData)
    (s : State) : Prop :=
  progressFile (disk s) = file0
  ∨ ∃ p, progressFile (disk s) = Some p
      ∧ checkpointOf keys0 heap0 targets started p
      ∧ completed p `prefix_of` completed (progress s).

(** Nothing outside the program fails: every request is answered, every
    navigation and every write succeeds. *)
Definition neverFails (env : Env) : Prop :=
  (∀ n c k, ∃ reply, pageReply env n c k = Evaluated reply)
  ∧ (∀ n, gotoOk env n = true)
  ∧ (∀ n, writeOk env n = true).

(** The keys of the targets before the current one are completed. *)
Definition doneUpTo (targets : list nat) (heap0 : list DetailEntry) (s : State) : Prop :=
  ∀ j rt d0, (Z.of_nat j < i s) → targets !! j = Some rt → heap0 !! rt = Some d0 →
    entryKey d0 ∈ completed (progress s).

(** The two codes of the entries a list of references stands for. *)
Definition identsOf (heap : list DetailEntry) (refs : list nat) : list (string * string) :=
  entryIdent <$> deref heap refs.

(** The requests made so far are those of the targets passed, the j-th of
    them requested [counts !! j] times in a row, followed by the [k]
    requests of the streak on the current target. *)
Definition inOrder (targets : list nat) (heap0 : list DetailEntry) (s : State) : Prop :=
  0 ≤ i s ≤ Z.of_nat (length targets)
  ∧ ∃ (counts : list nat) (k : nat),
      length counts = Z.to_nat (i s)
      ∧ Forall (λ c, 1 ≤ c ≤ MAX_CONSECUTIVE_BLOCKS)%nat counts
      ∧ (k ≤ consecutiveBlocks s)%nat ∧ (k < MAX_CONSECUTIVE_BLOCKS)%nat
      ∧ (i s = Z.of_nat (length targets) → k = 0%nat)
      ∧ fetchesOf (trace s)
        = concat (zip_with replicate counts (identsOf heap0 targets))
          ++ replicate k (default ("", "") (identsOf heap0 targets !! Z.to_nat (i s))).

(** ** Sample data *)

Definition caseEntry (c n : string) : DetailEntry :=
  {| cortOfcCd := c; csNo := n; courtName := "court " +:+ c;
     caseNumber := "case " +:+ n; fields := ∅ |}.

Definition caseA : DetailEntry := caseEntry "A" "1".
Definition caseB : DetailEntry := caseEntry "B" "2".
Definition caseC : DetailEntry := caseEntry "C" "3".
Definition caseD : DetailEntry := caseEntry "D" "4".

Definition blockedBody : json := JObj (<["message" := JStr "IP 차단"]> ∅).

Definition numericMessageBody : json :=
  JObj (<["message" := JNum 1]> (<["ipcheck" := JBool false]> ∅)).

Definition emptyBody : json := JObj ∅.

Definition successBody : json :=
  JObj (<["data" :=
          JObj (<["dlt_dlvrDtsLst" := JArr [JStr "d1"; JStr "d2"]]>
               (<["dlt_mrgDpcnSbxLst" := JArr [JStr "m1"]]> ∅))]> ∅).

Definition blockedReply : HttpReply := HttpResponse 200 "" (Some blockedBody).
Definition numericMessageReply : HttpReply :=
  HttpResponse 200 "" (Some numericMessageBody).
Definition successReply : HttpReply := HttpResponse 200 "" (Some successBody).
Definition errorReply : HttpReply := HttpResponse 500 "" (Some emptyBody).
Definition nodataReply : HttpReply := HttpResponse 550 "" (Some emptyBody).

(** An environment that answers the [n]-th request with [replies n] and
    lets the [n]-th write succeed when [writes n]. *)
Definition scriptedEnv (replies : nat → HttpReply) (writes : nat → bool) : Env :=
  {| pageReply := λ n _ _, Evaluated (replies n);
     writeOk := writes;
     gotoOk := λ _, true;
     clock := λ n, "t" +:+ pretty n;
     wsReady := true |}.

Definition okEnv : Env := scriptedEnv (λ _, successReply) (λ _, true).
Definition blockedTwiceEnv : Env :=
  scriptedEnv (λ n, if (n <? 2)%nat then blockedReply else successReply) (λ _, true).
Definition alwaysBlockedEnv : Env := scriptedEnv (λ _, blockedReply) (λ _, true).
Definition errorEnv : Env := scriptedEnv (λ _, errorReply) (λ _, true).
Definition nodataEnv : Env := scriptedEnv (λ _, nodataReply) (λ _, true).
Definition blockedThenErrorEnv : Env :=
  scriptedEnv (λ n, if (n <? 1)%nat then blockedReply else errorReply) (λ _, true).
Definition failingDiskEnv : Env :=
  scriptedEnv (λ _, successReply) (λ n, negb (n =? 0)%nat).

(** Every request is blocked, and every write fails. *)
Definition blockedFailingDiskEnv : Env :=
  scriptedEnv (λ _, blockedReply) (λ _, false).

(** The first five requests are blocked and the first write fails. *)
Definition blockedFiveEnv : Env :=
  scriptedEnv (λ n, if (n <? 5)%nat then blockedReply else successReply)
    (λ n, negb (n =? 0)%nat).

(** Every request is answered with the block flag set and a number for the
    message. *)
Definition numericMessageEnv : Env :=
  scriptedEnv (λ _, numericMessageReply) (λ _, true).

(** The page evaluation fails on every request. *)
Definition throwingEnv : Env :=
  {| pageReply := λ _ _ _, EvalFailure "Execution context was destroyed";
     writeOk := λ _, true; gotoOk := λ _, true;
     clock := λ n, "t" +:+ pretty n; wsReady := true |}.

(** Every request is blocked, and only the first navigation succeeds. *)
Definition lostSessionEnv : Env :=
  {| pageReply := λ _ _ _, Evaluated blockedReply;
     writeOk := λ _, true; gotoOk := λ n, (n =? 0)%nat;
     clock := λ n, "t" +:+ pretty n; wsReady := true |}.

Definition arrayDisk : Disk :=
  {| detailsFile := Some (StoreArray [caseA; caseB]); progressFile := None |}.

Definition objectDisk : Disk :=
  {| detailsFile := Some (StoreObject [("A1", caseA); ("B2", caseB)]);
     progressFile := None |}.

Definition resumeDisk : Disk :=
  {| detailsFile := Some (StoreArray [caseA; caseB; caseC; caseD]);
     progressFile := Some {| completed := ["A1"; "B2"]; total := 4;
                             startedAt := "t0"; lastUpdated := "t1" |} |}.

(** The state in which the loop starts, and the state after [k] passes. *)
Definition startOf (env : Env) (TEST_MODE RESUME : bool) (d : Disk) : State :=
  stateOf (prepare env TEST_MODE RESUME (initialState d)).

Definition afterPasses (env : Env) (TEST_MODE isArray : bool) (targets : list nat)
    (detailMap : gmap string nat) (k : nat) (s0 : State) : State :=
  default s0 (passes env TEST_MODE isArray targets detailMap k s0).

(** The loop of the two-entry store. *)
Definition twoTargets : list nat := [0%nat; 1%nat].
Definition twoMap : gmap string nat := buildDetailMap [caseA; caseB].

(** No details file. *)
Definition noStoreDisk : Disk := {| detailsFile := None; progressFile := None |}.

(** A store without entries. *)
Definition emptyStoreDisk : Disk :=
  {| detailsFile := Some (StoreArray []); progressFile := None |}.

(** The search page cannot be loaded. *)
Definition offlineEnv : Env :=
  {| pageReply := λ _ _ _, Evaluated successReply;
     writeOk := λ _, true; gotoOk := λ _, false;
     clock := λ n, "t" +:+ pretty n; wsReady := true |}.

(** The search page loads without its framework. *)
Definition notReadyEnv : Env :=
  {| pageReply := λ _ _ _, Evaluated successReply;
     writeOk := λ _, true; gotoOk := λ _, true;
     clock := λ n, "t" +:+ pretty n; wsReady := false |}.

(** Only the first write succeeds. *)
Definition halfFlushEnv : Env :=
  scriptedEnv (λ _, successReply) (λ n, (n =? 0)%nat).

(** The result of a run; every run has one. *)
Definition resultOf (env : Env) (TEST_MODE RESUME : bool) (d : Disk) : Res unit :=
  default (Ret tt (initialState d)) (main env TEST_MODE RESUME d).

(** ** The classifier *)

Lemma classify_blockedResult m : classify (blockedResult m) = Blocked.
Proof.
  unfold classify, blockedResult. cbn [Js.prop].
  by rewrite lookup_insert_eq.
Qed.

Lemma messageIncludes_searchable j :
  messageSearchable j = true →
  messageIncludes (Js.prop j "message") = Normal (messageHasPhrase j).
Proof.
  unfold messageSearchable, messageIncludes, messageHasPhrase.
  destruct (Js.prop j "message") as [[]|]; done.
Qed.

Lemma readData_not_null j :
  j ≠ JNull → readData j = Normal (Js.prop j "data").
Proof. by destruct j. Qed.

Lemma no_indicator_in_null :
  messageHasPhrase JNull || blockFlagFalse JNull = false.
Proof. reflexivity. Qed.

(** Where the search for the phrase does not throw (the message is absent,
    null, a string or an array), a block indicator makes the result the
    blocked one, whatever the status is, the no-data status and the failure
    statuses included; the loop then takes that result for a blocked one. *)
Theorem block_detection_wins (status : Z) (text : string) (j : json) :
  messageSearchable j = true →
  messageHasPhrase j || blockFlagFalse j = true →
  pageFunction (HttpResponse status text (Some j))
    = blockedResult (Js.prop j "message")
  ∧ classify (pageFunction (HttpResponse status text (Some j))) = Blocked.
Proof.
  intros Hs Hb.
  assert (Hj : j ≠ JNull).
  { intros ->. by rewrite no_indicator_in_null in Hb. }
  assert (Heq : pageFunction (HttpResponse status text (Some j))
                = blockedResult (Js.prop j "message")).
  { unfold pageFunction, classifyParsed.
    rewrite (readData_not_null j Hj), (messageIncludes_searchable j Hs).
    fold (payload j). fold (blockFlagFalse j). by rewrite Hb. }
  split; [exact Heq|]. rewrite Heq. apply classify_blockedResult.
Qed.

Lemma block_detection_wins_witness :
  (pageFunction (HttpResponse 500 "" (Some blockedBody))
     = blockedResult (Js.prop blockedBody "message")
   ∧ classify (pageFunction (HttpResponse 500 "" (Some blockedBody))) = Blocked)
  ∧ (pageFunction (HttpResponse 550 "" (Some blockedBody))
       = blockedResult (Js.prop blockedBody "message")
     ∧ classify (pageFunction (HttpResponse 550 "" (Some blockedBody))) = Blocked).
Proof.
  split.
  - apply (block_detection_wins 500 "" blockedBody); reflexivity.
  - apply (block_detection_wins 550 "" blockedBody); reflexivity.
Defined.

(** C3, at the failing input: the body [{"message": 1, "ipcheck": false}]
    carries the block flag, present and false, in the object the flag is read
    from.  The test of the flag is written in the code, after the search of
    the message; the search throws on a number, so the flag is never read
    and the result is the error one.  The loop takes it for an error: in a
    run whose requests are all answered that way, every target is completed
    with empty collections and counted as an error, no cooldown is taken and
    the streak of blocks stays at 0. *)
Lemma block_flag_lost_on_numeric_message :
  Js.prop numericMessageBody "data" = None
  ∧ Js.prop numericMessageBody "ipcheck" = Some (JBool false)
  ∧ blockFlagFalse numericMessageBody = true
  ∧ pageFunction numericMessageReply
    = errorThrown "TypeError: json.message?.includes is not a function"
  ∧ classify (pageFunction numericMessageReply) = Error
  ∧ ∃ sf, main numericMessageEnv false false arrayDisk = Some (Ret tt sf)
      ∧ trace sf = [EvGoto true; EvWait 3000;
                    EvFetch "A" "1"; EvWrite PROGRESS_FILE true;
                    EvWrite DETAILS_FILE true; EvWait DELAY_BETWEEN;
                    EvFetch "B" "2"; EvWait DELAY_BETWEEN;
                    EvWrite DETAILS_FILE true; EvWrite PROGRESS_FILE true; EvClose]
      ∧ completed (progress sf) = ["A1"; "B2"]
      ∧ (fields <$> details sf)
        = [ {[ "deliveryRecords" := JArr []; "documentRecords" := JArr [] ]};
            {[ "deliveryRecords" := JArr []; "documentRecords" := JArr [] ]} ]
      ∧ errors sf = 2%nat
      ∧ consecutiveBlocks sf = 0%nat.
Proof.
  do 5 (split; [vm_compute; reflexivity|]).
  eexists. split; [vm_compute; reflexivity|].
  repeat split; vm_compute; reflexivity.
Qed.

(** *** The four results of the classifier *)

Lemma classify_nodataResult m : classify (nodataResult m) = NoData.
Proof. reflexivity. Qed.

Lemma classify_errorStatus status m : classify (errorStatus status m) = Error.
Proof. destruct m; reflexivity. Qed.

Lemma classify_errorThrown e : classify (errorThrown e) = Error.
Proof. reflexivity. Qed.

Lemma classify_errorParse status text : classify (errorParse status text) = Error.
Proof. reflexivity. Qed.

(** The result for a body that parses, is not [null] and has a message the
    search does not throw on: the four cases, in the order of the code. *)
Lemma pageFunction_parsed status text j :
  messageSearchable j = true → j ≠ JNull →
  pageFunction (HttpResponse status text (Some j))
  = if messageHasPhrase j || blockFlagFalse j
    then blockedResult (Js.prop j "message")
    else if status =? NO_DATA_STATUS
    then nodataResult (Js.prop j "message")
    else if negb (responseOk status)
    then errorStatus status (Js.prop j "message")
    else payload j.
Proof.
  intros Hs Hj. unfold pageFunction, classifyParsed.
  rewrite (readData_not_null j Hj), (messageIncludes_searchable j Hs).
  cbv zeta. fold (payload j). fold (blockFlagFalse j).
  destruct (messageHasPhrase j || blockFlagFalse j); [done|].
  destruct (status =? NO_DATA_STATUS); [done|].
  by destruct (responseOk status).
Qed.

(** A message that is a number, a boolean or an object makes the search
    for the phrase throw: the result is the one of the outer [catch]. *)
Lemma pageFunction_unsearchable status text j :
  messageSearchable j = false →
  ∃ e, pageFunction (HttpResponse status text (Some j)) = errorThrown e.
Proof.
  intros Hs. unfold pageFunction, classifyParsed.
  destruct j; try (unfold messageSearchable in Hs; cbn in Hs; done).
  cbn [readData]. unfold messageSearchable in Hs. unfold messageIncludes.
  destruct (Js.prop (JObj m) "message") as [[]|]; try done; by eexists.
Qed.

(** X6: the loop takes a reply for a block exactly when its body parses,
    the search for the phrase in its message does not throw, and either the
    body carries a block indicator (the phrase in the message, or the flag
    ipcheck present and false in [json.data || json]), or the status is a
    success status and the data returned themselves hold a truthy
    [__blocked] property.  A network failure, a body that does not parse and
    a failure status without indicator are never taken for a block. *)
Theorem blocked_only_on_indicator (r : HttpReply) :
  classify (pageFunction r) = Blocked ↔
  ∃ status text j, r = HttpResponse status text (Some j)
    ∧ messageSearchable j = true
    ∧ (messageHasPhrase j || blockFlagFalse j = true
       ∨ (responseOk status = true
          ∧ Js.truthy (Js.prop (payload j) "__blocked") = true)).
Proof.
  split.
  - destruct r as [e|status text [j|]]; [done| |done].
    intros Hc. exists status, text, j. split; [done|].
    destruct (messageSearchable j) eqn:Hs.
    2:{ destruct (pageFunction_unsearchable status text j Hs) as [e He].
        by rewrite He in Hc. }
    split; [done|].
    assert (Hj : j ≠ JNull) by (intros ->; done).
    rewrite (pageFunction_parsed status text j Hs Hj) in Hc.
    destruct (messageHasPhrase j || blockFlagFalse j); [by left|].
    destruct (status =? NO_DATA_STATUS); [done|].
    destruct (responseOk status); cbn [negb] in Hc.
    + right. split; [done|]. unfold classify in Hc.
      destruct (Js.truthy (Js.prop (payload j) "__blocked")); [done|].
      unfold settledAs in Hc. by repeat case_match.
    + by rewrite classify_errorStatus in Hc.
  - intros (status & text & j & -> & Hs & Hor).
    assert (Hj : j ≠ JNull).
    { intros ->. destruct Hor as [H|[_ H]]; done. }
    rewrite (pageFunction_parsed status text j Hs Hj).
    destruct (messageHasPhrase j || blockFlagFalse j) eqn:Hb;
      [apply classify_blockedResult|].
    destruct Hor as [H|[Hok Hin]]; [done|].
    assert (Hne : (status =? NO_DATA_STATUS) = false).
    { apply Z.eqb_neq. intros ->. done. }
    rewrite Hne, Hok. cbn [negb]. unfold classify. by rewrite Hin.
Qed.

(** X7: without a block indicator the status decides.  The no-data status
    550 gives the no-data result, although it is a failure status, with the
    default text when the body has no message; any other status outside
    200..299 gives an error result; a success status gives [json.data ||
    json], which the loop takes for a success when it is an object without
    the three marker properties. *)
Theorem status_decides_without_indicator status text j :
  messageSearchable j = true → j ≠ JNull →
  messageHasPhrase j || blockFlagFalse j = false →
  (status = NO_DATA_STATUS →
     pageFunction (HttpResponse status text (Some j)) = nodataResult (Js.prop j "message")
     ∧ classify (pageFunction (HttpResponse status text (Some j))) = NoData
     ∧ (Js.truthy (Js.prop j "message") = false →
          Js.prop (pageFunction (HttpResponse status text (Some j))) "message"
          = Some (JStr NO_DATA_TEXT)))
  ∧ (status ≠ NO_DATA_STATUS → responseOk status = false →
       pageFunction (HttpResponse status text (Some j))
       = errorStatus status (Js.prop j "message")
       ∧ classify (pageFunction (HttpResponse status text (Some j))) = Error)
  ∧ (responseOk status = true →
       pageFunction (HttpResponse status text (Some j)) = payload j
       ∧ ∀ m, payload j = JObj m →
           m !! "__blocked" = None → m !! "__nodata" = None → m !! "__error" = None →
           classify (pageFunction (HttpResponse status text (Some j))) = Success).
Proof.
  intros Hs Hj Hb. rewrite (pageFunction_parsed status text j Hs Hj), Hb.
  split; [|split].
  - intros ->. cbn [Z.eqb NO_DATA_STATUS Pos.eqb]. split; [done|]. split; [done|].
    intros Hm. unfold nodataResult. cbn [Js.prop].
    rewrite lookup_insert_ne by done. rewrite lookup_insert_eq.
    unfold Js.orElse, Js.truthy in *. destruct (Js.prop j "message"); [|done].
    by rewrite Hm.
  - intros Hne Hok. apply Z.eqb_neq in Hne. rewrite Hne, Hok. cbn [negb].
    split; [done|apply classify_errorStatus].
  - intros Hok.
    assert (Hne : (status =? NO_DATA_STATUS) = false).
    { apply Z.eqb_neq. intros ->. done. }
    rewrite Hne, Hok. cbn [negb]. split; [done|].
    intros m -> H1 H2 H3. unfold classify, settledAs. cbn [Js.prop Js.truthyJ].
    by rewrite H1, H2, H3.
Qed.

(** X8: a network failure, a body that is not JSON (an HTML page, say), the
    body [null] and a body whose message is a number, a boolean or an object
    all end in the error result: it has [__error] and no [__blocked], so the
    loop does not back off on it and settles the target as an error. *)
Theorem unreadable_reply_is_error (r : HttpReply) :
  (∃ e, r = NetworkFailure e)
  ∨ (∃ status text, r = HttpResponse status text None)
  ∨ (∃ status text, r = HttpResponse status text (Some JNull))
  ∨ (∃ status text j, r = HttpResponse status text (Some j)
                      ∧ messageSearchable j = false) →
  classify (pageFunction r) = Error
  ∧ Js.prop (pageFunction r) "__error" = Some (JBool true)
  ∧ Js.prop (pageFunction r) "__blocked" = None.
Proof.
  intros [(e & ->)|[(status & text & ->)|[(status & text & ->)|(status & text & j & -> & Hs)]]];
    try done.
  destruct (pageFunction_unsearchable status text j Hs) as [e ->]. done.
Qed.

(** The result depends on the body only through [json.data || json] and
    the message. *)
Lemma pageFunction_payload status t1 t2 j1 j2 :
  j1 ≠ JNull → j2 ≠ JNull →
  payload j1 = payload j2 →
  Js.prop j1 "message" = Js.prop j2 "message" →
  pageFunction (HttpResponse status t1 (Some j1))
  = pageFunction (HttpResponse status t2 (Some j2)).
Proof.
  intros H1 H2 Hp Hm. unfold pageFunction, classifyParsed.
  rewrite (readData_not_null j1 H1), (readData_not_null j2 H2).
  cbv zeta. fold (payload j1) (payload j2). by rewrite Hp, Hm.
Qed.

(** X9: an answer wrapped as [{data: answer, ...}] gives the same result
    as the bare answer, for every status, when the wrapper and the answer
    have the same message (or both none) and the answer has no [data]
    property of its own. *)
Theorem wrapped_answer_is_read_as_bare status t1 t2
    (inner wrapper : gmap string json) :
  inner !! "data" = None →
  wrapper !! "message" = inner !! "message" →
  pageFunction (HttpResponse status t1 (Some (JObj (<["data" := JObj inner]> wrapper))))
  = pageFunction (HttpResponse status t2 (Some (JObj inner))).
Proof.
  intros Hd Hm. apply pageFunction_payload; try done.
  - unfold payload. cbn [Js.prop]. by rewrite lookup_insert_eq, Hd.
  - cbn [Js.prop]. by rewrite lookup_insert_ne.
Qed.

(** ** The pending list *)

Lemma filterRefs_suffix (p : DetailEntry → bool) (pre l : list DetailEntry) :
  deref (pre ++ l) (filterRefs p (pre ++ l) (seq (length pre) (length l)))
  = List.filter p l.
Proof.
  revert pre. induction l as [|x l IH]; intros pre; [done|].
  cbn [length seq filterRefs List.filter].
  assert (Hx : (pre ++ x :: l) !! length pre = Some x)
    by (by rewrite lookup_app_r, Nat.sub_diag by lia).
  rewrite Hx.
  specialize (IH (pre ++ [x])).
  rewrite <- app_assoc, length_app in IH. cbn in IH.
  rewrite Nat.add_1_r in IH. unfold filterRefs in IH.
  destruct (p x); unfold deref in *; cbn [omap list_omap]; rewrite ?Hx; by rewrite IH.
Qed.

Lemma filterRefs_all p heap :
  deref heap (filterRefs p heap (allRefs heap)) = List.filter p heap.
Proof. apply (filterRefs_suffix p [] heap). Qed.

Lemma sorted_seq a n : StronglySorted lt (seq a n).
Proof.
  revert a. induction n as [|n IH]; intros a; cbn; constructor; [apply IH|].
  apply Forall_forall. intros x Hx%elem_of_seq. lia.
Qed.

Lemma sorted_filter {A} (R : A → A → Prop) (p : A → bool) l :
  StronglySorted R l → StronglySorted R (List.filter p l).
Proof.
  induction 1 as [|x l Hs IH Hx]; cbn; [constructor|].
  destruct (p x); [|done]. constructor; [done|].
  apply Forall_forall. intros y Hy%list_elem_of_In%filter_In.
  rewrite Forall_forall in Hx. apply Hx, list_elem_of_In, Hy.
Qed.

Lemma filterRefs_elem p (heap : list DetailEntry) refs r :
  r ∈ filterRefs p heap refs ↔ r ∈ refs ∧ ∃ d, heap !! r = Some d ∧ p d = true.
Proof.
  unfold filterRefs. rewrite list_elem_of_In, filter_In, <- list_elem_of_In.
  split; intros [Hr Hp]; (split; [done|]).
  - destruct (heap !! r) as [d|]; [by exists d|done].
  - by destruct Hp as (d & -> & Hp).
Qed.

Lemma isTarget_spec completedSet d :
  isTarget completedSet d = true
  ↔ (entryKey d ∉ completedSet) ∧ fields d !! "deliveryRecords" = None.
Proof.
  unfold isTarget, hasDeliveryRecords.
  case_bool_decide; destruct (fields d !! "deliveryRecords"); naive_solver.
Qed.

(** Every target of either mode passes the filter. *)
Lemma selectTargets_elem TEST_MODE completedSet (heap : list DetailEntry) r :
  r ∈ selectTargets TEST_MODE completedSet heap →
  (r < length heap)%nat ∧ ∃ d, heap !! r = Some d ∧ isTarget completedSet d = true.
Proof.
  assert (Hf : ∀ r, r ∈ filterRefs (isTarget completedSet) heap (allRefs heap) →
    (r < length heap)%nat ∧ ∃ d, heap !! r = Some d ∧ isTarget completedSet d = true).
  { intros r' [Hr' Hd]%filterRefs_elem. split; [|done].
    unfold allRefs in Hr'. apply elem_of_seq in Hr'. lia. }
  unfold selectTargets. destruct TEST_MODE; [|apply Hf].
  rewrite elem_of_app.
  intros [H%elem_of_take|H%elem_of_take];
    destruct H as (? & H%list_elem_of_lookup_2 & _);
    apply filterRefs_elem in H as [H _]; by apply Hf.
Qed.

(** C5: without the narrowing of the test mode, the targets are exactly the
    entries of the store whose key is not among the completed keys and that
    have no deliveryRecords field, in the order of the store; an entry that
    has the field, even with an empty value, is no target in either mode.
    With the keys of the first two of four entries completed, the targets
    are the last two, and the run requests these two, in that order. *)
Theorem pending_list_is_the_filter (completedSet : gset string)
    (heap : list DetailEntry) :
  deref heap (selectTargets false completedSet heap)
    = List.filter (isTarget completedSet) heap
  ∧ (∀ d, d ∈ deref heap (selectTargets false completedSet heap)
          ↔ d ∈ heap ∧ (entryKey d ∉ completedSet)
            ∧ fields d !! "deliveryRecords" = None)
  ∧ StronglySorted lt (selectTargets false completedSet heap)
  ∧ (∀ TEST_MODE r d v,
       heap !! r = Some d → fields d !! "deliveryRecords" = Some v →
       r ∉ selectTargets TEST_MODE completedSet heap)
  ∧ (∀ TEST_MODE r d,
       heap !! r = Some d → entryKey d ∈ completedSet →
       r ∉ selectTargets TEST_MODE completedSet heap)
  ∧ (∀ a b c d,
       heap = [a; b; c; d] → completedSet = {[entryKey a; entryKey b]} →
       entryKey c ∉ completedSet → entryKey d ∉ completedSet →
       fields c !! "deliveryRecords" = None → fields d !! "deliveryRecords" = None →
       selectTargets false completedSet heap = [2%nat; 3%nat]
       ∧ deref heap (selectTargets false completedSet heap) = [c; d])
  ∧ (∃ sf, main okEnv false true resumeDisk = Some (Ret tt sf)
       ∧ fetchesOf (trace sf) = [("C", "3"); ("D", "4")]
       ∧ completed (progress sf) = ["A1"; "B2"; "C3"; "D4"]).
Proof.
  split; [apply filterRefs_all|].
  split.
  { intros d. cbn [selectTargets]. rewrite filterRefs_all.
    rewrite list_elem_of_In, filter_In, <- list_elem_of_In, isTarget_spec. done. }
  split.
  { cbn [selectTargets]. unfold filterRefs, allRefs. apply sorted_filter, sorted_seq. }
  split.
  { intros TEST_MODE r d v Hr Hv [_ (d' & Hd' & Ht)]%selectTargets_elem.
    apply isTarget_spec in Ht as [_ Hn]. congruence. }
  split.
  { intros TEST_MODE r d Hr Hk [_ (d' & Hd' & Ht)]%selectTargets_elem.
    apply isTarget_spec in Ht as [Hn _]. congruence. }
  split.
  { intros a b c d -> -> Hc Hd Hfc Hfd.
    assert (Ha : isTarget {[entryKey a; entryKey b]} a = false).
    { unfold isTarget. rewrite bool_decide_eq_true_2; [done|set_solver]. }
    assert (Hb : isTarget {[entryKey a; entryKey b]} b = false).
    { unfold isTarget. rewrite bool_decide_eq_true_2; [done|set_solver]. }
    assert (Hc' : isTarget {[entryKey a; entryKey b]} c = true) by (by apply isTarget_spec).
    assert (Hd' : isTarget {[entryKey a; entryKey b]} d = true) by (by apply isTarget_spec).
    assert (Hsel : selectTargets false {[entryKey a; entryKey b]} [a; b; c; d]
                   = [2%nat; 3%nat]).
    { cbn [selectTargets allRefs length seq filterRefs List.filter lookup list_lookup].
      by rewrite Ha, Hb, Hc', Hd'. }
    by rewrite Hsel. }
  eexists. vm_compute. repeat split; reflexivity.
Qed.

(** *** The narrowing of the test mode *)

Lemma isEarly_not_advanced d : isEarly d = negb (isAdvanced d).
Proof.
  unfold isEarly, isAdvanced. destruct (investigationInfo d); [|done].
  by destruct (Js.truthyJ j), (Js.hasKeys j).
Qed.

Lemma sorted_take {A} (R : A → A → Prop) n (l : list A) :
  StronglySorted R l → StronglySorted R (take n l).
Proof.
  intros Hs. revert n. induction Hs as [|x l Hs IH Hx]; intros [|n]; cbn; try constructor.
  - apply IH.
  - eapply Forall_forall. intros y Hy. rewrite Forall_forall in Hx. apply Hx.
    apply elem_of_take in Hy as (j & Hj & _). by eapply list_elem_of_lookup_2.
Qed.

Lemma sorted_NoDup (l : list nat) : StronglySorted lt l → NoDup l.
Proof.
  induction 1 as [|x l Hs IH Hx]; constructor; [|done].
  intros Hin. rewrite Forall_forall in Hx. specialize (Hx x Hin). lia.
Qed.

Lemma sorted_filterRefs p (heap : list DetailEntry) refs :
  StronglySorted lt refs → StronglySorted lt (filterRefs p heap refs).
Proof. apply sorted_filter. Qed.

Lemma sorted_pending completedSet (heap : list DetailEntry) :
  StronglySorted lt (selectTargets false completedSet heap).
Proof. cbn [selectTargets]. apply sorted_filterRefs, sorted_seq. Qed.

Lemma selectTargets_test_length completedSet (heap : list DetailEntry) :
  (length (selectTargets true completedSet heap) ≤ 5)%nat.
Proof.
  unfold selectTargets. rewrite length_app, !length_take. lia.
Qed.

(** X10: in test mode the targets are the first three pending entries
    that have a non-empty investigation record, followed by the first two
    pending entries that have none: the two filters of the code are
    complementary.  So there are at most five targets, exactly min(3, .) +
    min(2, .) of them, each is a pending entry, none occurs twice, and each
    group is in the order of the store. *)
Theorem test_mode_takes_at_most_five completedSet (heap : list DetailEntry) :
  let pending := selectTargets false completedSet heap in
  let advanced := filterRefs isAdvanced heap pending in
  let early := filterRefs (λ d, negb (isAdvanced d)) heap pending in
  selectTargets true completedSet heap = take 3 advanced ++ take 2 early
  ∧ length (selectTargets true completedSet heap)
    = (length advanced `min` 3 + length early `min` 2)%nat
  ∧ (length (selectTargets true completedSet heap) ≤ 5)%nat
  ∧ NoDup (selectTargets true completedSet heap)
  ∧ (∀ r, r ∈ selectTargets true completedSet heap → r ∈ pending)
  ∧ StronglySorted lt (take 3 advanced) ∧ StronglySorted lt (take 2 early).
Proof.
  intros pending advanced early.
  assert (Heq : selectTargets true completedSet heap = take 3 advanced ++ take 2 early).
  { unfold selectTargets. fold (selectTargets false completedSet heap). fold pending.
    f_equal. f_equal. unfold early, filterRefs. apply filter_ext.
    intros r. destruct (heap !! r); [apply isEarly_not_advanced|done]. }
  assert (Hsa : StronglySorted lt (take 3 advanced))
    by apply sorted_take, sorted_filterRefs, sorted_pending.
  assert (Hse : StronglySorted lt (take 2 early))
    by apply sorted_take, sorted_filterRefs, sorted_pending.
  split; [done|]. rewrite Heq.
  split; [rewrite length_app, !length_take; lia|].
  split; [rewrite length_app, !length_take; lia|].
  split; [|split; [|done]].
  - apply NoDup_app. split; [by apply sorted_NoDup|]. split; [|by apply sorted_NoDup].
    intros r [j [Ha _]]%elem_of_take [j' [He _]]%elem_of_take.
    apply list_elem_of_lookup_2, filterRefs_elem in Ha as [_ (d & Hd & Hadv)].
    apply list_elem_of_lookup_2, filterRefs_elem in He as [_ (d' & Hd' & Hear)].
    simplify_eq. rewrite Hadv in Hear. done.
  - intros r [[j [H _]]%elem_of_take|[j [H _]]%elem_of_take]%elem_of_app;
      by apply list_elem_of_lookup_2, filterRefs_elem in H as [H _].
Qed.

(** ** The map from keys to entries *)

Lemma detailMap_fold (heap : list DetailEntry) refs (m : gmap string nat) :
  let step := λ (m : gmap string nat) r,
                match heap !! r with
                | Some d => <[entryKey d := r]> m
                | None => m
                end in
  (∀ k v, m !! k = Some v → ∃ v', foldl step m refs !! k = Some v' ∧ (v' = v ∨ v' ∈ refs))
  ∧ (∀ r d, r ∈ refs → heap !! r = Some d →
       ∃ v', foldl step m refs !! entryKey d = Some v' ∧ v' ∈ refs).
Proof.
  intros step. revert m. induction refs as [|r0 refs IH]; intros m.
  { split; [naive_solver|]. intros r d Hr. by apply elem_of_nil in Hr. }
  cbn [foldl]. destruct (IH (step m r0)) as [IH1 IH2]. split.
  - intros k v Hkv.
    assert (∃ v0, step m r0 !! k = Some v0 ∧ (v0 = v ∨ v0 = r0)) as (v0 & Hv0 & Hor).
    { unfold step. destruct (heap !! r0) as [d|]; [|naive_solver].
      destruct (decide (entryKey d = k)) as [<-|Hne].
      - rewrite lookup_insert_eq. naive_solver.
      - rewrite lookup_insert_ne by done. naive_solver. }
    destruct (IH1 k v0 Hv0) as (v' & Hv' & Hor').
    exists v'. split; [done|]. set_solver.
  - intros r d Hr Hd. apply elem_of_cons in Hr as [->|Hr].
    + assert (Hs : step m r0 !! entryKey d = Some r0).
      { unfold step. rewrite Hd. apply lookup_insert_eq. }
      destruct (IH1 _ _ Hs) as (v' & Hv' & Hor'). exists v'. set_solver.
    + destruct (IH2 r d Hr Hd) as (v' & Hv' & Hin). exists v'. set_solver.
Qed.

Lemma buildDetailMap_covers heap : covers (buildDetailMap heap) heap.
Proof.
  intros d Hd. apply list_elem_of_lookup in Hd as [r Hr].
  destruct (detailMap_fold heap (allRefs heap) ∅) as [_ H].
  destruct (H r d) as (v' & Hv' & Hin); [|done|].
  { apply elem_of_seq. apply lookup_lt_Some in Hr. lia. }
  exists v'. split; [done|]. apply elem_of_seq in Hin. lia.
Qed.

Lemma buildDetailMap_snoc (heap : list DetailEntry) d :
  buildDetailMap (heap ++ [d]) = <[entryKey d := length heap]> (buildDetailMap heap).
Proof.
  unfold buildDetailMap, allRefs. rewrite length_app. cbn [length].
  rewrite Nat.add_1_r, seq_S, foldl_app. cbn [foldl Nat.add].
  rewrite lookup_app_r, Nat.sub_diag by lia. cbn. f_equal.
  assert (H : ∀ (refs : list nat) (m : gmap string nat),
    Forall (λ r, r < length heap)%nat refs →
    foldl (λ m r, match (heap ++ [d]) !! r with
                  | Some d => <[entryKey d := r]> m | None => m end) m refs
    = foldl (λ m r, match heap !! r with
                    | Some d => <[entryKey d := r]> m | None => m end) m refs).
  { induction refs as [|r refs IH]; intros m Hall; [done|].
    apply Forall_cons in Hall as [Hr Hall]. cbn [foldl].
    rewrite lookup_app_l by done. by apply IH. }
  apply H. apply Forall_forall. intros r Hr%elem_of_seq. lia.
Qed.

(** The map sends a key to the last position of the store that holds an
    entry with that key. *)
Lemma buildDetailMap_lookup (heap : list DetailEntry) k r :
  buildDetailMap heap !! k = Some r
  ↔ (∃ d, heap !! r = Some d ∧ entryKey d = k)
    ∧ ∀ r' d', heap !! r' = Some d' → entryKey d' = k → (r' ≤ r)%nat.
Proof.
  revert k r. induction heap as [|d heap IH] using rev_ind; intros k r.
  { unfold buildDetailMap. cbn. rewrite lookup_empty. split; [done|].
    intros [(d & Hd & _) _]. done. }
  rewrite buildDetailMap_snoc.
  destruct (decide (entryKey d = k)) as [<-|Hne].
  - rewrite lookup_insert_eq. split.
    + intros [= <-]. split.
      * exists d. by rewrite lookup_app_r, Nat.sub_diag by lia.
      * intros r' d' Hr' _. apply lookup_lt_Some in Hr'.
        rewrite length_app in Hr'. cbn in Hr'. lia.
    + intros [(d0 & Hd0 & _) Hmax]. f_equal.
      specialize (Hmax (length heap) d).
      rewrite lookup_app_r, Nat.sub_diag in Hmax by lia.
      specialize (Hmax eq_refl eq_refl).
      apply lookup_lt_Some in Hd0. rewrite length_app in Hd0. cbn in Hd0. lia.
  - rewrite lookup_insert_ne by done. rewrite IH. split.
    + intros [(d0 & Hd0 & Hk) Hmax]. split.
      * exists d0. split; [|done]. rewrite lookup_app_l; [done|].
        by apply lookup_lt_Some in Hd0.
      * intros r' d' Hr' Hk'.
        destruct (decide (r' < length heap)%nat) as [Hlt|Hge].
        -- rewrite lookup_app_l in Hr' by done. by eapply Hmax.
        -- rewrite lookup_app_r in Hr' by lia.
           destruct (r' - length heap)%nat; cbn in Hr'; [|done]. congruence.
    + intros [(d0 & Hd0 & Hk) Hmax].
      assert (Hlt : (r < length heap)%nat).
      { apply lookup_lt_Some in Hd0 as Hl. rewrite length_app in Hl. cbn in Hl.
        destruct (decide (r = length heap)) as [->|]; [|lia].
        rewrite lookup_app_r, Nat.sub_diag in Hd0 by lia. cbn in Hd0. congruence. }
      rewrite lookup_app_l in Hd0 by done. split; [by exists d0|].
      intros r' d' Hr' Hk'. apply (Hmax r' d'); [|done].
      rewrite lookup_app_l; [done|]. by apply lookup_lt_Some in Hr'.
Qed.

(** X11: [detailMap] sends a key to the last entry of the store that has
    this key (a later [set] replaces an earlier one), and to nothing exactly
    when no entry has it.  When the keys of the store are pairwise distinct,
    every entry is found under its own key. *)
Theorem detailMap_holds_last_entry_of_key (heap : list DetailEntry) :
  (∀ k r, buildDetailMap heap !! k = Some r
     ↔ (∃ d, heap !! r = Some d ∧ entryKey d = k)
       ∧ ∀ r' d', heap !! r' = Some d' → entryKey d' = k → (r' ≤ r)%nat)
  ∧ (∀ k, buildDetailMap heap !! k = None ↔ ∀ d, d ∈ heap → entryKey d ≠ k)
  ∧ (NoDup (entryKey <$> heap) →
     ∀ r d, heap !! r = Some d → buildDetailMap heap !! entryKey d = Some r).
Proof.
  split; [apply buildDetailMap_lookup|]. split.
  - intros k. split.
    + intros Hnone d [r Hr]%list_elem_of_lookup Hk.
      destruct (buildDetailMap_covers heap d) as (r' & Hr' & _);
        [by eapply list_elem_of_lookup_2|]. congruence.
    + intros Hno. destruct (buildDetailMap heap !! k) as [r|] eqn:Hr; [|done].
      apply buildDetailMap_lookup in Hr as [(d & Hd & Hk) _].
      exfalso. apply (Hno d); [by eapply list_elem_of_lookup_2|done].
  - intros Hnd r d Hr. apply buildDetailMap_lookup. split; [by exists d|].
    intros r' d' Hr' Hk'.
    assert (r' = r); [|lia].
    eapply (NoDup_lookup (entryKey <$> heap)); [done| |].
    + by rewrite list_lookup_fmap, Hr'.
    + by rewrite list_lookup_fmap, Hr, Hk'.
Qed.

(** ** Running the statements *)

Lemma alter_twice {A} (f g : A → A) (r : nat) (l : list A) :
  alter f r (alter g r l) = alter (f ∘ g) r l.
Proof. apply list_alter_alter_eq. Qed.

Lemma withDetails_alter_twice (f g : DetailEntry → DetailEntry) r s :
  withDetails (alter f r) (withDetails (alter g r) s)
  = withDetails (alter (f ∘ g) r) s.
Proof.
  unfold withDetails; cbn. by rewrite alter_twice.
Qed.

Ltac exec :=
  cbv [iteration tryBlock onBlocked saveProgress saveDetails writeFile
       gotoSearchPage scrapeDocuments now waitForTimeout closeBrowser
       processExit raise mbind M_bind bind mret M_ret ret get modify emit
       when tryCatch].

Lemma mergeResult_run r result s :
  mergeResult r result s = Ret tt (mergeState r result s).
Proof.
  unfold mergeResult, mergeState, mergeEntry, settledAs, assign.
  fold (deliveryListOf result) (documentListOf result)
       (mergerListOf result) (priorCaseOf result).
  destruct (Js.truthy (Js.prop result "__nodata")).
  { exec. by rewrite withDetails_alter_twice. }
  destruct (Js.truthyJ result && negb (Js.truthy (Js.prop result "__error"))).
  - unfold setFieldIf.
    destruct (Js.lengthPositive _), (Js.truthyJ (priorCaseOf result) && _);
      exec; rewrite ?withDetails_alter_twice; reflexivity.
  - exec. by rewrite withDetails_alter_twice.
Qed.

(** *** The merge on one entry *)

Lemma fields_setField k v e k' :
  fields (setField k v e) !! k' = if decide (k = k') then Some v else fields e !! k'.
Proof. unfold setField; cbn. apply lookup_insert. Qed.

Lemma fields_setFieldIf b k v e k' :
  fields (setFieldIf b k v e) !! k'
  = if b && bool_decide (k = k') then Some v else fields e !! k'.
Proof.
  unfold setFieldIf. destruct b; cbn [andb]; [|done].
  rewrite fields_setField. by destruct (decide (k = k')); simplify_eq;
    [rewrite bool_decide_eq_true_2|rewrite bool_decide_eq_false_2].
Qed.

Lemma mergeEntry_declared result e :
  cortOfcCd (mergeEntry result e) = cortOfcCd e
  ∧ csNo (mergeEntry result e) = csNo e
  ∧ courtName (mergeEntry result e) = courtName e
  ∧ caseNumber (mergeEntry result e) = caseNumber e.
Proof.
  unfold mergeEntry, setFieldIf.
  destruct (settledAs result); try done.
  by destruct (Js.truthyJ _ && _), (Js.lengthPositive _).
Qed.

Lemma mergeEntry_frame result e k :
  k ∉ mergeFields → fields (mergeEntry result e) !! k = fields e !! k.
Proof.
  unfold mergeFields. intros Hk.
  assert (k ≠ "deliveryRecords" ∧ k ≠ "documentRecords"
          ∧ k ≠ "mergerRecords" ∧ k ≠ "priorCaseInfo") as (H1 & H2 & H3 & H4).
  { repeat split; intros ->; apply Hk; set_solver. }
  unfold mergeEntry.
  destruct (settledAs result);
    rewrite ?fields_setFieldIf, ?fields_setField;
    repeat (case_decide; simplify_eq);
    rewrite ?bool_decide_eq_false_2, ?andb_false_r by done; done.
Qed.

Lemma mergeEntry_keeps result e k :
  is_Some (fields e !! k) → is_Some (fields (mergeEntry result e) !! k).
Proof.
  intros Hk. unfold mergeEntry.
  destruct (settledAs result);
    rewrite ?fields_setFieldIf, ?fields_setField;
    repeat (case_decide || case_match); done.
Qed.

Lemma mergeEntry_primary result e :
  fields (mergeEntry result e) !! "deliveryRecords"
  = Some (if isSuccess (settledAs result)
          then deliveryListOf result else JArr [])
  ∧ fields (mergeEntry result e) !! "documentRecords"
    = Some (if isSuccess (settledAs result)
            then documentListOf result else JArr []).
Proof.
  unfold mergeEntry.
  destruct (settledAs result);
    rewrite ?fields_setFieldIf, ?fields_setField; cbn;
    rewrite ?andb_false_r; done.
Qed.

Lemma mergeEntry_optional result e :
  fields (mergeEntry result e) !! "mergerRecords"
  = (if isSuccess (settledAs result)
     then if Js.lengthPositive (mergerListOf result)
          then Some (mergerListOf result) else fields e !! "mergerRecords"
     else fields e !! "mergerRecords")
  ∧ fields (mergeEntry result e) !! "priorCaseInfo"
    = (if isSuccess (settledAs result)
       then if Js.truthyJ (priorCaseOf result) && Js.hasKeys (priorCaseOf result)
            then Some (priorCaseOf result) else fields e !! "priorCaseInfo"
       else fields e !! "priorCaseInfo").
Proof.
  unfold mergeEntry.
  destruct (settledAs result);
    rewrite ?fields_setFieldIf, ?fields_setField; cbn;
    rewrite ?andb_false_r, ?andb_true_r; done.
Qed.

Lemma mergeEntry_done result e :
  is_Some (fields (mergeEntry result e) !! "deliveryRecords")
  ∧ is_Some (fields (mergeEntry result e) !! "documentRecords").
Proof. destruct (mergeEntry_primary result e) as [-> ->]. by split. Qed.

(** *** The merge on the state *)

Lemma details_mergeState r result s :
  details (mergeState r result s) = alter (mergeEntry result) r (details s).
Proof. unfold mergeState. by destruct (settledAs result). Qed.

Lemma errors_mergeState r result s :
  errors (mergeState r result s) = (errors s + b2n (isError (settledAs result)))%nat.
Proof. unfold mergeState. destruct (settledAs result); cbn; lia. Qed.

Lemma frame_mergeState r result s :
  progress (mergeState r result s) = progress s
  ∧ success (mergeState r result s) = success s
  ∧ consecutiveBlocks (mergeState r result s) = consecutiveBlocks s
  ∧ i (mergeState r result s) = i s
  ∧ disk (mergeState r result s) = disk s
  ∧ trace (mergeState r result s) = trace s
  ∧ nfetch (mergeState r result s) = nfetch s
  ∧ nwrite (mergeState r result s) = nwrite s
  ∧ ngoto (mergeState r result s) = ngoto s
  ∧ nclock (mergeState r result s) = nclock s.
Proof. unfold mergeState. by destruct (settledAs result). Qed.

Lemma progress_mergeState r result s : progress (mergeState r result s) = progress s.
Proof. apply frame_mergeState. Qed.
Lemma success_mergeState r result s : success (mergeState r result s) = success s.
Proof. apply frame_mergeState. Qed.
Lemma blocks_mergeState r result s :
  consecutiveBlocks (mergeState r result s) = consecutiveBlocks s.
Proof. apply frame_mergeState. Qed.
Lemma index_mergeState r result s : i (mergeState r result s) = i s.
Proof. apply frame_mergeState. Qed.
Lemma disk_mergeState r result s : disk (mergeState r result s) = disk s.
Proof. apply frame_mergeState. Qed.
Lemma trace_mergeState r result s : trace (mergeState r result s) = trace s.
Proof. apply frame_mergeState. Qed.
Lemma nfetch_mergeState r result s : nfetch (mergeState r result s) = nfetch s.
Proof. apply frame_mergeState. Qed.
Lemma nwrite_mergeState r result s : nwrite (mergeState r result s) = nwrite s.
Proof. apply frame_mergeState. Qed.
Lemma ngoto_mergeState r result s : ngoto (mergeState r result s) = ngoto s.
Proof. apply frame_mergeState. Qed.
Lemma nclock_mergeState r result s : nclock (mergeState r result s) = nclock s.
Proof. apply frame_mergeState. Qed.

Create Rewrite HintDb merged.
#[export] Hint Rewrite details_mergeState errors_mergeState progress_mergeState
  success_mergeState blocks_mergeState index_mergeState disk_mergeState
  trace_mergeState nfetch_mergeState nwrite_mergeState ngoto_mergeState
  nclock_mergeState : merged.

(** Projections of a state built by the steps of the program. *)
Ltac project :=
  cbn [details progress success errors consecutiveBlocks deliveryItems
       documentItems i disk trace nfetch nwrite ngoto nclock
       withDetails withProgress withSuccess withErrors withBlocks withStats
       withIndex withDisk withTrace tickFetch tickWrite tickGoto tickClock
       completed total startedAt lastUpdated pushCompleted setLastUpdated
       setTotal detailsFile progressFile putDetailsFile putProgressFile
       stateOf] in *;
  autorewrite with merged in *;
  cbn [details progress success errors consecutiveBlocks deliveryItems
       documentItems i disk trace nfetch nwrite ngoto nclock
       withDetails withProgress withSuccess withErrors withBlocks withStats
       withIndex withDisk withTrace tickFetch tickWrite tickGoto tickClock
       completed total startedAt lastUpdated pushCompleted setLastUpdated
       setTotal detailsFile progressFile putDetailsFile putProgressFile
       stateOf] in *.

Ltac settle := cbv beta iota; project.

(** Two readings of the same oracle or table agree. *)
Ltac agree :=
  simplify_eq;
  repeat (match goal with
          | H1 : ?x = _, H2 : ?x = _ |- _ => rewrite H1 in H2
          end; simplify_eq).

Lemma target_eq targets s :
  target targets s = (r ← targets !! Z.to_nat (i s); details s !! r).
Proof. reflexivity. Qed.

(** *** The counters of the summary *)

Lemma addLength_empty a : addLength a (JArr []) = a.
Proof. destruct a as [a|]; [|done]. cbn. f_equal. lia. Qed.

Lemma delivery_mergeState r result s :
  deliveryItems (mergeState r result s)
  = addLength (deliveryItems s)
      (if isSuccess (settledAs result) then deliveryListOf result else JArr []).
Proof.
  unfold mergeState. destruct (settledAs result); cbn [isSuccess];
    rewrite ?addLength_empty; done.
Qed.

Lemma document_mergeState r result s :
  documentItems (mergeState r result s)
  = addLength (documentItems s)
      (if isSuccess (settledAs result) then documentListOf result else JArr []).
Proof.
  unfold mergeState. destruct (settledAs result); cbn [isSuccess];
    rewrite ?addLength_empty; done.
Qed.

Section Steps.

Variable env : Env.
Variable TEST_MODE : bool.
Variable isArray : bool.
Variable targets : list nat.
Variable detailMap : gmap string nat.

Abbreviation iteration := (iteration env TEST_MODE isArray targets detailMap).
Abbreviation forLoop := (forLoop env TEST_MODE isArray targets detailMap).
Abbreviation passes := (passes env TEST_MODE isArray targets detailMap).
Abbreviation collect := (collect env TEST_MODE isArray targets detailMap).
Abbreviation target := (target targets).
Abbreviation inLoop := (inLoop targets).
Abbreviation budget := (budget targets).

Ltac case_write1 :=
  match goal with
  | |- context [writeOk env ?n] => destruct (writeOk env n) eqn:Hw1_
  end.

Ltac case_write2 :=
  match goal with
  | |- context [writeOk env ?n] => destruct (writeOk env n) eqn:Hw2_
  end.

Ltac case_target :=
  match goal with
  | |- context [target ?x] => destruct (target x) as [t_|] eqn:Ht_
  end.

Ltac case_rest :=
  match goal with
  | |- context [(0 <? ?x) && ?y] => destruct ((0 <? x) && y) eqn:Hrest_
  end.

Ltac case_map :=
  match goal with
  | |- context [detailMap !! ?k] => destruct (detailMap !! k) as [r_|] eqn:Hmap_
  end.

Ltac case_reply :=
  match goal with
  | |- context [pageReply env ?n ?a ?b] =>
      destruct (pageReply env n a b) as [e_|reply_] eqn:Hreply_
  end.

Ltac case_blocked :=
  match goal with
  | |- context [Js.truthy (Js.prop ?x "__blocked")] =>
      destruct (Js.truthy (Js.prop x "__blocked")) eqn:Hblk_
  end.

Ltac case_limit :=
  match goal with
  | |- context [(?a <=? ?b)%nat] => destruct (a <=? b)%nat eqn:Hmax_
  end.

Ltac case_goto :=
  match goal with
  | |- context [gotoOk env ?n] => destruct (gotoOk env n) eqn:Hgo_
  end.

Ltac case_due :=
  match goal with
  | |- context [(?a =? 0) || TEST_MODE] => destruct ((a =? 0) || TEST_MODE) eqn:Hdue_
  end.

(** Every way through one pass of the loop. *)
Ltac walk :=
  exec;
  case_target; settle;
  [ case_rest; settle;
    (case_map; settle;
     [ case_reply; settle;
       [ | case_blocked; settle;
           [ case_limit; settle;
             [ case_write1; settle; [ case_write2; settle | ]
             | case_goto; settle ]
           | rewrite mergeResult_run; settle;
             case_due; settle;
             [ case_write1; settle; [ case_write2; settle | ]
             | ] ] ]
     | ])
  | ].

(** What a pass does to the index and to the streak of blocks. *)
Lemma iteration_cases s :
  match iteration s with
  | Ret _ s' =>
      i s' = i s + 1
      ∨ (i s' = i s ∧ consecutiveBlocks s' = S (consecutiveBlocks s)
         ∧ (S (consecutiveBlocks s) < MAX_CONSECUTIVE_BLOCKS)%nat)
  | Raise _ _ => target s = None
  | Exit c s' =>
      c = 1 ∧ (MAX_CONSECUTIVE_BLOCKS ≤ consecutiveBlocks s')%nat
      ∧ consecutiveBlocks s' = S (consecutiveBlocks s)
  end.
Proof.
  walk; try (left; lia); try done.
  - apply Nat.leb_le in Hmax_. done.
  - apply Nat.leb_gt in Hmax_. right. repeat split; lia.
  - apply Nat.leb_le in Hmax_. done.
  - apply Nat.leb_gt in Hmax_. right. repeat split; lia.
Qed.

(** A pass that completes uses up some of the budget. *)
Lemma iteration_budget s s' :
  inLoop s = true → iteration s = Ret tt s' → (budget s' < budget s)%nat.
Proof.
  intros Hin Hit. pose proof (iteration_cases s) as Hc. rewrite Hit in Hc.
  unfold inLoop in Hin. apply Z.ltb_lt in Hin.
  unfold budget, MAX_CONSECUTIVE_BLOCKS in *.
  destruct Hc as [Hi|(Hi & Hb & Hlt)]; rewrite Hi; [|rewrite Hb]; lia.
Qed.

(** The loop ends: fuel above the budget is enough. *)
Lemma forLoop_total fuel s :
  (budget s < fuel)%nat → ∃ r, forLoop fuel s = Some r.
Proof.
  revert s. induction fuel as [|fuel IH]; intros s Hb; [lia|].
  simpl. destruct (inLoop s) eqn:Hin; [|by eexists].
  destruct (iteration s) as [[] s'| |] eqn:Hit; [|by eexists..].
  apply IH. pose proof (iteration_budget s s' Hin Hit). lia.
Qed.

(** Passes already made can be skipped. *)
Lemma forLoop_passes k s0 s fuel :
  passes k s0 = Some s → (budget s0 < fuel)%nat →
  (budget s + k ≤ budget s0)%nat ∧ forLoop fuel s0 = forLoop (fuel - k) s.
Proof.
  revert s0 fuel. induction k as [|k IH]; intros s0 fuel Hp Hb.
  - cbn in Hp. simplify_eq. split; [lia|]. by rewrite Nat.sub_0_r.
  - simpl in Hp. destruct (inLoop s0) eqn:Hin; [|done].
    destruct (iteration s0) as [[] s1| |] eqn:Hit; [|done..].
    pose proof (iteration_budget s0 s1 Hin Hit) as Hlt.
    destruct fuel as [|fuel]; [lia|].
    destruct (IH s1 fuel Hp ltac:(lia)) as [Hle Heq].
    split; [lia|]. simpl. by rewrite Hin, Hit, Heq.
Qed.

(** Every pass that finds its entry starts with the request for its target. *)
Lemma iteration_fetches s t r :
  target s = Some t →
  detailMap !! entryKey t = Some r →
  ∃ post, trace (stateOf (iteration s))
          = trace s ++ restEvents s ++ EvFetch (cortOfcCd t) (csNo t) :: post.
Proof.
  intros Ht0 Hm0. unfold entryKey in Hm0. unfold restEvents.
  walk; agree; rewrite <- ?app_assoc; cbn [app]; eexists; reflexivity.
Qed.

(** X26: when a request is classified as blocked, the streak of blocks is
    still under the limit once this block is counted, and the navigation
    that follows the cooldown succeeds, the loop waits the cooldown, loads
    the search page again, pauses, and leaves the index where it was: the
    next pass requests the same target.  The completed keys, the entries and
    the files are untouched; only the streak grows. *)
Theorem blocked_retry_same_item s t r reply :
  target s = Some t →
  detailMap !! entryKey t = Some r →
  pageReply env (nfetch s) (cortOfcCd t) (csNo t) = Evaluated reply →
  classify (pageFunction reply) = Blocked →
  (S (consecutiveBlocks s) < MAX_CONSECUTIVE_BLOCKS)%nat →
  gotoOk env (ngoto s) = true →
  ∃ s', iteration s = Ret tt s'
    ∧ trace s' = trace s ++ restEvents s
                 ++ [EvFetch (cortOfcCd t) (csNo t); EvWait IP_BLOCK_WAIT;
                     EvGoto true; EvWait 3000]
    ∧ i s' = i s
    ∧ target s' = Some t
    ∧ progress s' = progress s
    ∧ details s' = details s
    ∧ disk s' = disk s
    ∧ consecutiveBlocks s' = S (consecutiveBlocks s)
    ∧ success s' = success s
    ∧ errors s' = errors s
    ∧ ∃ post, trace (stateOf (iteration s'))
              = trace s' ++ restEvents s' ++ EvFetch (cortOfcCd t) (csNo t) :: post.
Proof.
  intros Ht0 Hm0 Hr0 Hc Hlt Hg.
  assert (Hb : Js.truthy (Js.prop (pageFunction reply) "__blocked") = true).
  { unfold classify in Hc. destruct (Js.truthy _); [done|].
    unfold settledAs in Hc. repeat case_match; done. }
  assert (Hnot : (MAX_CONSECUTIVE_BLOCKS <=? S (consecutiveBlocks s))%nat = false)
    by (apply Nat.leb_gt; lia).
  assert (Hrun : ∃ s', iteration s = Ret tt s'
    ∧ trace s' = trace s ++ restEvents s
                 ++ [EvFetch (cortOfcCd t) (csNo t); EvWait IP_BLOCK_WAIT;
                     EvGoto true; EvWait 3000]
    ∧ i s' = i s ∧ progress s' = progress s ∧ details s' = details s
    ∧ disk s' = disk s ∧ consecutiveBlocks s' = S (consecutiveBlocks s)
    ∧ success s' = success s ∧ errors s' = errors s).
  { unfold entryKey in Hm0. unfold restEvents.
    walk; agree; try congruence;
      (eexists; split; [reflexivity|]); project;
      rewrite <- ?app_assoc; cbn [app];
      repeat split; try reflexivity; lia. }
  destruct Hrun as (s' & Hit & Htr & Hi & Hp & Hd & Hdk & Hcb & Hs & He).
  assert (Ht' : target s' = Some t).
  { rewrite target_eq in *. by rewrite Hi, Hd. }
  exists s'. repeat split; try done.
  by apply (iteration_fetches s' t r).
Qed.

(** A request that is answered and not classified as blocked settles its
    target. *)
Lemma iteration_settles s t r reply :
  target s = Some t →
  detailMap !! entryKey t = Some r →
  pageReply env (nfetch s) (cortOfcCd t) (csNo t) = Evaluated reply →
  classify (pageFunction reply) ≠ Blocked →
  ∃ s', iteration s = Ret tt s'
    ∧ i s' = i s + 1
    ∧ consecutiveBlocks s' = 0%nat
    ∧ success s' = S (success s)
    ∧ completed (progress s') = completed (progress s) ++ [entryKey t]
    ∧ details s' = alter (mergeEntry (pageFunction reply)) r (details s)
    ∧ errors s' = (errors s + b2n (isError (classify (pageFunction reply)))
                   + b2n (flushFails env TEST_MODE s))%nat
    ∧ nwrite s' = (nwrite s + flushWrites env TEST_MODE s)%nat
    ∧ trace s' = trace s ++ restEvents s ++ [EvFetch (cortOfcCd t) (csNo t)]
                 ++ flushEvents env TEST_MODE s ++ [EvWait DELAY_BETWEEN]
    ∧ disk s' = flushDisk env TEST_MODE isArray s (progress s') (details s').
Proof.
  intros Ht0 Hm0 Hr0 Hc.
  assert (Hb : Js.truthy (Js.prop (pageFunction reply) "__blocked") = false).
  { unfold classify in Hc. by destruct (Js.truthy _). }
  assert (Hcl : classify (pageFunction reply) = settledAs (pageFunction reply)).
  { unfold classify. by rewrite Hb. }
  rewrite Hcl. clear Hc Hcl.
  unfold entryKey in *. unfold restEvents, flushEvents, flushWrites, flushDisk,
    flushFails, flushDue.
  walk; agree; try congruence;
    (eexists; split; [reflexivity|]); project;
    rewrite ?Hrest_, ?Hdue_, ?Hw1_, ?Hw2_; cbn [negb andb b2n];
    rewrite <- ?app_assoc; cbn [app];
    repeat split; try reflexivity; try lia.
Qed.



(** A write that fails in the flush at the limit of blocks is caught by the
    loop like any other exception of the pass: the process is not ended. *)
Lemma iteration_abort_flush_fails s t r reply :
  target s = Some t →
  detailMap !! entryKey t = Some r →
  pageReply env (nfetch s) (cortOfcCd t) (csNo t) = Evaluated reply →
  classify (pageFunction reply) = Blocked →
  (MAX_CONSECUTIVE_BLOCKS ≤ S (consecutiveBlocks s))%nat →
  writeOk env (nwrite s) && writeOk env (S (nwrite s)) = false →
  ∃ s', iteration s = Ret tt s'
    ∧ i s' = i s + 1
    ∧ nwrite s' = (nwrite s + if writeOk env (nwrite s) then 2 else 1)%nat
    ∧ errors s' = S (errors s)
    ∧ trace s' = trace s ++ restEvents s ++ [EvFetch (cortOfcCd t) (csNo t)]
                 ++ (if writeOk env (nwrite s)
                     then [EvWrite DETAILS_FILE true; EvWrite PROGRESS_FILE false]
                     else [EvWrite DETAILS_FILE false])
                 ++ [EvWait DELAY_BETWEEN]
    ∧ completed (progress s') = completed (progress s).
Proof.
  intros Ht0 Hm0 Hr0 Hc Hmax Hw.
  assert (Hb : Js.truthy (Js.prop (pageFunction reply) "__blocked") = true).
  { unfold classify in Hc. destruct (Js.truthy _); [done|].
    unfold settledAs in Hc. repeat case_match; done. }
  apply Nat.leb_le in Hmax. unfold entryKey in Hm0. unfold restEvents.
  walk; agree; try congruence;
    (eexists; split; [reflexivity|]); project;
    rewrite ?Hw1_, ?Hw2_; rewrite <- ?app_assoc; cbn [app];
    repeat split; try reflexivity; try lia.
Qed.


(** A block that brings the streak to the limit, with both writes of the
    flush succeeding, ends the process. *)
Lemma iteration_aborts s t r reply :
  target s = Some t →
  detailMap !! entryKey t = Some r →
  pageReply env (nfetch s) (cortOfcCd t) (csNo t) = Evaluated reply →
  classify (pageFunction reply) = Blocked →
  (MAX_CONSECUTIVE_BLOCKS ≤ S (consecutiveBlocks s))%nat →
  writeOk env (nwrite s) = true →
  writeOk env (S (nwrite s)) = true →
  ∃ s', iteration s = Exit 1 s'
    ∧ trace s' = trace s ++ restEvents s
                 ++ [EvFetch (cortOfcCd t) (csNo t); EvWrite DETAILS_FILE true;
                     EvWrite PROGRESS_FILE true; EvClose; EvExit 1]
    ∧ details s' = details s
    ∧ progress s' = setLastUpdated (clock env (nclock s)) (progress s)
    ∧ disk s' = putProgressFile (progress s')
                  (putDetailsFile (encodeDetails isArray (details s)) (disk s))
    ∧ success s' = success s
    ∧ errors s' = errors s.
Proof.
  intros Ht0 Hm0 Hr0 Hc Hmax Hw1 Hw2.
  assert (Hb : Js.truthy (Js.prop (pageFunction reply) "__blocked") = true).
  { unfold classify in Hc. destruct (Js.truthy _); [done|].
    unfold settledAs in Hc. repeat case_match; done. }
  apply Nat.leb_le in Hmax. unfold entryKey in Hm0. unfold restEvents.
  walk; agree; try congruence;
    (eexists; split; [reflexivity|]); project;
    rewrite <- ?app_assoc; cbn [app]; repeat split; reflexivity.
Qed.

(** X2: when the request itself throws, the loop counts an error and moves on:
    the target is neither settled nor completed, and the streak is kept. *)
Lemma thrown_request_skips_target s t r e :
  target s = Some t →
  detailMap !! entryKey t = Some r →
  pageReply env (nfetch s) (cortOfcCd t) (csNo t) = EvalFailure e →
  ∃ s', iteration s = Ret tt s'
    ∧ i s' = i s + 1
    ∧ errors s' = S (errors s)
    ∧ success s' = success s
    ∧ consecutiveBlocks s' = consecutiveBlocks s
    ∧ progress s' = progress s
    ∧ details s' = details s
    ∧ trace s' = trace s ++ restEvents s
                 ++ [EvFetch (cortOfcCd t) (csNo t); EvWait DELAY_BETWEEN].
Proof.
  intros Ht0 Hm0 Hr0. unfold entryKey in Hm0. unfold restEvents.
  walk; agree; try congruence;
    (eexists; split; [reflexivity|]); project;
    rewrite <- ?app_assoc; cbn [app]; repeat split; try reflexivity; lia.
Qed.

(** X3: when the navigation after a block fails, the loop counts an error and
    moves on to the next target, which is neither retried nor completed. *)
Lemma failed_navigation_skips_target s t r reply :
  target s = Some t →
  detailMap !! entryKey t = Some r →
  pageReply env (nfetch s) (cortOfcCd t) (csNo t) = Evaluated reply →
  classify (pageFunction reply) = Blocked →
  (S (consecutiveBlocks s) < MAX_CONSECUTIVE_BLOCKS)%nat →
  gotoOk env (ngoto s) = false →
  ∃ s', iteration s = Ret tt s'
    ∧ i s' = i s + 1
    ∧ errors s' = S (errors s)
    ∧ consecutiveBlocks s' = S (consecutiveBlocks s)
    ∧ progress s' = progress s
    ∧ details s' = details s
    ∧ trace s' = trace s ++ restEvents s
                 ++ [EvFetch (cortOfcCd t) (csNo t); EvWait IP_BLOCK_WAIT;
                     EvGoto false; EvWait DELAY_BETWEEN].
Proof.
  intros Ht0 Hm0 Hr0 Hc Hlt Hg.
  assert (Hb : Js.truthy (Js.prop (pageFunction reply) "__blocked") = true).
  { unfold classify in Hc. destruct (Js.truthy _); [done|].
    unfold settledAs in Hc. repeat case_match; done. }
  assert (Hnot : (MAX_CONSECUTIVE_BLOCKS <=? S (consecutiveBlocks s))%nat = false)
    by (apply Nat.leb_gt; lia).
  unfold entryKey in Hm0. unfold restEvents.
  walk; agree; try congruence;
    (eexists; split; [reflexivity|]); project;
    rewrite <- ?app_assoc; cbn [app]; repeat split; try reflexivity; lia.
Qed.

(** The three shapes of a pass: it settles nothing, it settles its target,
    or it does not find the entry of its target. *)
Lemma iteration_shape s :
  (details (stateOf (iteration s)) = details s
   ∧ completed (progress (stateOf (iteration s))) = completed (progress s)
   ∧ success (stateOf (iteration s)) = success s
   ∧ i s ≤ i (stateOf (iteration s)))
  ∨ (∃ t r reply,
       target s = Some t ∧ detailMap !! entryKey t = Some r
       ∧ details (stateOf (iteration s))
         = alter (mergeEntry (pageFunction reply)) r (details s)
       ∧ completed (progress (stateOf (iteration s)))
         = completed (progress s) ++ [entryKey t]
       ∧ success (stateOf (iteration s)) = S (success s)
       ∧ i (stateOf (iteration s)) = i s + 1)
  ∨ (∃ t, target s = Some t ∧ detailMap !! entryKey t = None).
Proof.
  unfold entryKey.
  walk; try (left; repeat split; (reflexivity || lia));
    try (right; left; exists t_, r_, reply_; repeat split; first [done | lia]).
  all: right; right; by exists t_.
Qed.

Lemma target_in_heap heap0 s t :
  entryIdent <$> details s = entryIdent <$> heap0 →
  target s = Some t →
  ∃ d, d ∈ heap0 ∧ entryKey d = entryKey t
       ∧ ∃ rt, rt ∈ targets ∧ heap0 !! rt = Some d ∧ entryIdent d = entryIdent t.
Proof.
  intros Hk Ht. rewrite target_eq in Ht.
  destruct (targets !! Z.to_nat (i s)) as [rt|] eqn:Hrt; [|done]. cbn in Ht.
  assert (Hl : (entryIdent <$> details s) !! rt = Some (entryIdent t))
    by (by rewrite list_lookup_fmap, Ht).
  rewrite Hk, list_lookup_fmap in Hl.
  destruct (heap0 !! rt) as [d|] eqn:Hd; [|done].
  assert (Hid : entryIdent d = entryIdent t) by (cbn in Hl; congruence).
  exists d. split; [by eapply list_elem_of_lookup_2|]. split.
  - unfold entryIdent in Hid. unfold entryKey. congruence.
  - exists rt. split; [by eapply list_elem_of_lookup_2|done].
Qed.

Lemma target_inLoop s t : 0 ≤ i s → target s = Some t → inLoop s = true.
Proof.
  intros Hi Ht. rewrite target_eq in Ht.
  destruct (targets !! Z.to_nat (i s)) as [rt|] eqn:Hrt; [|done].
  apply lookup_lt_Some in Hrt. apply Z.ltb_lt. lia.
Qed.

Lemma fmap_ident_alter result r (l : list DetailEntry) :
  entryIdent <$> alter (mergeEntry result) r l = entryIdent <$> l.
Proof.
  rewrite (list_fmap_alter entryIdent (mergeEntry result) (λ k, k)).
  - apply list_alter_id. done.
  - apply Forall_forall. intros e _. unfold entryIdent.
    by destruct (mergeEntry_declared result e) as (-> & -> & _).
Qed.

(** A pass that completes keeps the invariant. *)
Lemma iteration_Inv heap0 n0 s s' :
  covers detailMap heap0 →
  Inv detailMap heap0 n0 s →
  iteration s = Ret tt s' →
  Inv detailMap heap0 n0 s'.
Proof.
  intros Hcov [Hk Hi Hn Hs] Hit.
  pose proof (iteration_shape s) as Hsh. rewrite Hit in Hsh. cbn [stateOf] in Hsh.
  destruct Hsh as [(Hd & Hc & Hsu & Hle)|[(t & r & reply & Ht & Hm & Hd & Hc & Hsu & Hi')|(t & Ht & Hm)]].
  - split; [by rewrite Hd|lia|by rewrite Hc, Hsu|].
    intros key. rewrite Hc, Hd. apply Hs.
  - destruct (target_in_heap heap0 s t Hk Ht) as (d & Hd0 & Hkey & _).
    destruct (Hcov d Hd0) as (r' & Hr' & Hlt). rewrite Hkey, Hm in Hr'.
    simplify_eq.
    assert (Hlen : length (details s) = length heap0).
    { by rewrite <- (length_fmap entryIdent (details s)), Hk, length_fmap. }
    split.
    + by rewrite Hd, fmap_ident_alter.
    + lia.
    + rewrite Hc, length_app, Hsu. cbn. lia.
    + intros key. rewrite Hc, drop_app_le by lia.
      rewrite elem_of_app, list_elem_of_singleton. intros [Hold| ->].
      * destruct (Hs key Hold) as (r0 & e0 & Hr0 & He0 & H1 & H2).
        exists r0. rewrite Hd.
        destruct (decide (r0 = r')) as [->|Hne].
        -- exists (mergeEntry (pageFunction reply) e0).
           rewrite list_lookup_alter_eq, He0. cbn.
           repeat split; try done; by apply mergeEntry_keeps.
        -- exists e0. by rewrite list_lookup_alter_ne.
      * destruct (lookup_lt_is_Some_2 (details s) r') as [e He]; [lia|].
        exists r', (mergeEntry (pageFunction reply) e). rewrite Hd.
        rewrite list_lookup_alter_eq, He. cbn.
        destruct (mergeEntry_done (pageFunction reply) e). done.
  - destruct (target_in_heap heap0 s t Hk Ht) as (d & Hd0 & Hkey & _).
    destruct (Hcov d Hd0) as (r' & Hr' & _). rewrite Hkey in Hr'. congruence.
Qed.

Lemma passes_Inv heap0 n0 k s0 s :
  covers detailMap heap0 →
  Inv detailMap heap0 n0 s0 →
  passes k s0 = Some s →
  Inv detailMap heap0 n0 s.
Proof.
  intros Hcov. revert s0. induction k as [|k IH]; intros s0 Hinv Hp.
  - cbn in Hp. by simplify_eq.
  - simpl in Hp. destruct (inLoop s0); [|done].
    destruct (iteration s0) as [[] s1| |] eqn:Hit; [|done..].
    eapply IH; [|done]. by eapply iteration_Inv.
Qed.

(** The only request of a pass is the one for its target. *)
Lemma iteration_requests s :
  fetchesOf (trace (stateOf (iteration s)))
  = fetchesOf (trace s) ++ requestOf targets detailMap s.
Proof.
  unfold requestOf, entryKey, entryIdent, fetchesOf.
  walk; rewrite ?Ht_, ?Hmap_, ?omap_app; cbn [omap list_omap];
    rewrite ?app_nil_r, <- ?app_assoc; reflexivity.
Qed.

(** Every request the loop makes is for an entry one of the targets refers
    to. *)
Lemma forLoop_requests heap0 n0 fuel s0 r x :
  covers detailMap heap0 →
  Inv detailMap heap0 n0 s0 →
  forLoop fuel s0 = Some r →
  x ∈ fetchesOf (trace (stateOf r)) →
  x ∈ fetchesOf (trace s0)
  ∨ ∃ rt d, rt ∈ targets ∧ heap0 !! rt = Some d ∧ entryIdent d = x.
Proof.
  intros Hcov. revert s0. induction fuel as [|fuel IH]; intros s0 Hinv Hf Hx; [done|].
  simpl in Hf. destruct (inLoop s0) eqn:Hin; [|simplify_eq; by left].
  assert (Hreq : ∀ y, y ∈ requestOf targets detailMap s0 →
    ∃ rt d, rt ∈ targets ∧ heap0 !! rt = Some d ∧ entryIdent d = y).
  { intros y. unfold requestOf.
    destruct (target s0) as [t|] eqn:Ht; [|by intros ?%elem_of_nil].
    destruct (detailMap !! entryKey t); [|by intros ?%elem_of_nil].
    intros ->%list_elem_of_singleton.
    destruct (target_in_heap heap0 s0 t (inv_keys _ _ _ _ Hinv) Ht)
      as (d & _ & _ & rt & Hrt & Hd & Hid).
    by exists rt, d. }
  pose proof (iteration_requests s0) as Hit.
  destruct (iteration s0) as [[] s1| |] eqn:Hrun; cbn [stateOf] in Hit.
  - destruct (IH s1 (iteration_Inv heap0 n0 s0 s1 Hcov Hinv Hrun) Hf Hx) as [H1|H1];
      [|by right].
    rewrite Hit, elem_of_app in H1. destruct H1 as [H1|H1]; [by left|right; by apply Hreq].
  - simplify_eq. cbn [stateOf] in Hx. rewrite Hit, elem_of_app in Hx.
    destruct Hx as [H1|H1]; [by left|right; by apply Hreq].
  - simplify_eq. cbn [stateOf] in Hx. rewrite Hit, elem_of_app in Hx.
    destruct Hx as [H1|H1]; [by left|right; by apply Hreq].
Qed.

(** The loop ends by leaving the range of the targets, after some passes. *)
Lemma forLoop_Ret fuel s0 s' :
  forLoop fuel s0 = Some (Ret tt s') →
  ∃ k, passes k s0 = Some s' ∧ inLoop s' = false.
Proof.
  revert s0. induction fuel as [|fuel IH]; intros s0 Hf; [done|].
  simpl in Hf. destruct (inLoop s0) eqn:Hin.
  - destruct (iteration s0) as [[] s1| |] eqn:Hit; [|done..].
    destruct (IH s1 Hf) as (k & Hk & Hout). exists (S k).
    simpl. by rewrite Hin, Hit.
  - simplify_eq. by exists 0%nat.
Qed.

(** The flush after the loop leaves the counters and the checkpoint's keys. *)
Lemma final_flush_frame s :
  let s' := stateOf ((saveDetails env isArray;; saveProgress env;; closeBrowser) s) in
  success s' = success s ∧ errors s' = errors s
  ∧ completed (progress s') = completed (progress s)
  ∧ details s' = details s
  ∧ fetchesOf (trace s') = fetchesOf (trace s).
Proof.
  unfold fetchesOf. exec.
  case_write1; settle; [case_write2; settle|];
    rewrite ?omap_app; cbn [omap list_omap]; rewrite ?app_nil_r; done.
Qed.

#[local] Hint Rewrite delivery_mergeState document_mergeState : merged.

(** The events of a pass keep the pace: a pass that completes ends ready
    for the next request. *)
Lemma iteration_pace s :
  ∃ ev, trace (stateOf (iteration s)) = trace s ++ ev
    ∧ match iteration s with
      | Ret _ _ => pace true ev = Some true
      | _ => is_Some (pace true ev)
      end.
Proof.
  walk; rewrite <- ?app_assoc; cbn [app];
    try (eexists; split; [reflexivity|]; first [reflexivity | by eexists]).
  all: exists []; rewrite app_nil_r; split; [reflexivity|by eexists].
Qed.

(** What a pass leaves on the disk is what it found there or what is in
    memory when it ends. *)
Lemma iteration_files s :
  (completed (progress s) `prefix_of` completed (progress (stateOf (iteration s)))
   ∧ total (progress (stateOf (iteration s))) = total (progress s)
   ∧ startedAt (progress (stateOf (iteration s))) = startedAt (progress s))
  ∧ (progressFile (disk (stateOf (iteration s))) = progressFile (disk s)
     ∨ progressFile (disk (stateOf (iteration s)))
       = Some (progress (stateOf (iteration s))))
  ∧ (detailsFile (disk (stateOf (iteration s))) = detailsFile (disk s)
     ∨ detailsFile (disk (stateOf (iteration s)))
       = Some (encodeDetails isArray (details (stateOf (iteration s))))).
Proof.
  walk; (split; [split; [first [done | by apply prefix_app_r]|done]|]);
    split; first [by left | by right].
Qed.

(** Properties kept by every completed pass hold after any number of them. *)
Lemma passes_preserve (P : State → Prop) k s0 s :
  (∀ s s', P s → inLoop s = true → iteration s = Ret tt s' → P s') →
  P s0 → passes k s0 = Some s → P s.
Proof.
  intros Hstep. revert s0. induction k as [|k IH]; intros s0 H0 Hp.
  - cbn in Hp. by simplify_eq.
  - simpl in Hp. destruct (inLoop s0) eqn:Hin; [|done].
    destruct (iteration s0) as [[] s1| |] eqn:Hit; [|done..].
    eapply IH; [|done]. by eapply Hstep.
Qed.

(** The loop stops after some passes: by leaving the range of the targets,
    or in a pass that does not complete. *)
Lemma forLoop_stops fuel s0 r :
  forLoop fuel s0 = Some r →
  ∃ k s, passes k s0 = Some s
    ∧ ((inLoop s = false ∧ r = Ret tt s)
       ∨ (inLoop s = true ∧ iteration s = r ∧ ∀ s', r ≠ Ret tt s')).
Proof.
  revert s0. induction fuel as [|fuel IH]; intros s0 Hf; [done|].
  simpl in Hf. destruct (inLoop s0) eqn:Hin.
  - destruct (iteration s0) as [[] s1| |] eqn:Hit.
    + destruct (IH s1 Hf) as (k & s & Hk & Hor). exists (S k), s.
      split; [|done]. simpl. by rewrite Hin, Hit.
    + simplify_eq. exists 0%nat, s0. split; [done|]. right. by repeat split.
    + simplify_eq. exists 0%nat, s0. split; [done|]. right. by repeat split.
  - simplify_eq. exists 0%nat, s0. split; [done|]. by left.
Qed.

(** The flush after the loop. *)
Lemma final_flush_cases s :
  let r := (saveDetails env isArray;; saveProgress env;; closeBrowser) s in
  details (stateOf r) = details s
  ∧ completed (progress (stateOf r)) = completed (progress s)
  ∧ total (progress (stateOf r)) = total (progress s)
  ∧ startedAt (progress (stateOf r)) = startedAt (progress s)
  ∧ i (stateOf r) = i s
  ∧ match r with
    | Ret _ s' =>
        writeOk env (nwrite s) = true ∧ writeOk env (S (nwrite s)) = true
        ∧ trace s' = trace s ++ [EvWrite DETAILS_FILE true; EvWrite PROGRESS_FILE true; EvClose]
        ∧ detailsFile (disk s') = Some (encodeDetails isArray (details s'))
        ∧ progressFile (disk s') = Some (progress s')
    | Raise _ s' =>
        (writeOk env (nwrite s) = false
         ∧ trace s' = trace s ++ [EvWrite DETAILS_FILE false]
         ∧ disk s' = disk s)
        ∨ (writeOk env (nwrite s) = true ∧ writeOk env (S (nwrite s)) = false
           ∧ trace s' = trace s ++ [EvWrite DETAILS_FILE true; EvWrite PROGRESS_FILE false]
           ∧ detailsFile (disk s') = Some (encodeDetails isArray (details s'))
           ∧ progressFile (disk s') = progressFile (disk s))
    | Exit _ _ => False
    end.
Proof.
  exec. case_write1; settle; [case_write2; settle|];
    rewrite <- ?app_assoc; cbn [app]; repeat split; try done.
  - right. by repeat split.
  - left. by repeat split.
Qed.

(** A pass leaves the entries as they are or stores one result in one of
    them. *)
Lemma iteration_heap s :
  details (stateOf (iteration s)) = details s
  ∨ ∃ r result,
      details (stateOf (iteration s)) = alter (mergeEntry result) r (details s).
Proof.
  walk; first [by left | right; by eexists _, _].
Qed.

(** A pass completes no key or the key of its target. *)
Lemma iteration_completed s :
  completed (progress (stateOf (iteration s))) = completed (progress s)
  ∨ ∃ t, target s = Some t
      ∧ completed (progress (stateOf (iteration s)))
        = completed (progress s) ++ [entryKey t].
Proof.
  unfold entryKey. walk; first [by left | right; by exists t_].
Qed.

(** A block under the limit, followed by a navigation that succeeds. *)
Lemma iteration_blocked s t r reply :
  target s = Some t →
  detailMap !! entryKey t = Some r →
  pageReply env (nfetch s) (cortOfcCd t) (csNo t) = Evaluated reply →
  classify (pageFunction reply) = Blocked →
  (S (consecutiveBlocks s) < MAX_CONSECUTIVE_BLOCKS)%nat →
  gotoOk env (ngoto s) = true →
  ∃ s', iteration s = Ret tt s'
    ∧ trace s' = trace s ++ restEvents s
                 ++ [EvFetch (cortOfcCd t) (csNo t); EvWait IP_BLOCK_WAIT;
                     EvGoto true; EvWait 3000]
    ∧ i s' = i s ∧ progress s' = progress s ∧ details s' = details s
    ∧ disk s' = disk s ∧ consecutiveBlocks s' = S (consecutiveBlocks s)
    ∧ success s' = success s ∧ errors s' = errors s
    ∧ nfetch s' = S (nfetch s) ∧ ngoto s' = S (ngoto s)
    ∧ nwrite s' = nwrite s.
Proof.
  intros Ht0 Hm0 Hr0 Hc Hlt Hg.
  assert (Hb : Js.truthy (Js.prop (pageFunction reply) "__blocked") = true).
  { unfold classify in Hc. destruct (Js.truthy _); [done|].
    unfold settledAs in Hc. repeat case_match; done. }
  assert (Hnot : (MAX_CONSECUTIVE_BLOCKS <=? S (consecutiveBlocks s))%nat = false)
    by (apply Nat.leb_gt; lia).
  unfold entryKey in Hm0. unfold restEvents.
  walk; agree; try congruence;
    (eexists; split; [reflexivity|]); project;
    rewrite <- ?app_assoc; cbn [app];
    repeat split; try reflexivity; lia.
Qed.

(** The counters of the summary after a pass that settles its target. *)
Lemma iteration_stats s t r reply :
  target s = Some t →
  detailMap !! entryKey t = Some r →
  pageReply env (nfetch s) (cortOfcCd t) (csNo t) = Evaluated reply →
  classify (pageFunction reply) ≠ Blocked →
  deliveryItems (stateOf (iteration s))
  = addLength (deliveryItems s)
      (if isSuccess (settledAs (pageFunction reply))
       then deliveryListOf (pageFunction reply) else JArr [])
  ∧ documentItems (stateOf (iteration s))
    = addLength (documentItems s)
        (if isSuccess (settledAs (pageFunction reply))
         then documentListOf (pageFunction reply) else JArr []).
Proof.
  intros Ht0 Hm0 Hr0 Hc.
  assert (Hb : Js.truthy (Js.prop (pageFunction reply) "__blocked") = false).
  { unfold classify in Hc. by destruct (Js.truthy _). }
  unfold entryKey in *.
  walk; agree; try congruence; by split.
Qed.

(** The only way a pass ends the process. *)
Lemma iteration_exit s c s' :
  iteration s = Exit c s' →
  c = 1 ∧ (MAX_CONSECUTIVE_BLOCKS ≤ consecutiveBlocks s')%nat
  ∧ (∃ t, target s = Some t
       ∧ trace s' = trace s ++ restEvents s
                    ++ [EvFetch (cortOfcCd t) (csNo t); EvWrite DETAILS_FILE true;
                        EvWrite PROGRESS_FILE true; EvClose; EvExit 1])
  ∧ detailsFile (disk s') = Some (encodeDetails isArray (details s'))
  ∧ progressFile (disk s') = Some (progress s').
Proof.
  unfold restEvents.
  walk; intros H; simplify_eq; project;
    rewrite <- ?app_assoc; cbn [app].
  all: apply Nat.leb_le in Hmax_; repeat split; try done; by eexists.
Qed.

(** When nothing outside the program fails, a pass that completes either
    stays on its target without completing a key, or moves on with the key
    of its target completed. *)
Lemma iteration_clean s :
  (∀ n c k, ∃ reply, pageReply env n c k = Evaluated reply) →
  (∀ n, gotoOk env n = true) →
  (∀ n, writeOk env n = true) →
  match iteration s with
  | Ret _ s' =>
      (i s' = i s ∧ completed (progress s') = completed (progress s))
      ∨ (i s' = i s + 1
         ∧ ∃ t, target s = Some t
             ∧ completed (progress s') = completed (progress s) ++ [entryKey t])
  | _ => True
  end.
Proof.
  intros Hreply Hgoto Hwrite. unfold entryKey.
  walk; try done;
    try (rewrite Hwrite in *; done);
    try (rewrite Hgoto in *; done);
    try (destruct (Hreply (nfetch s) (cortOfcCd t_) (csNo t_)) as [? ?]; congruence);
    try (left; split; [lia|done]);
    right; (split; [lia|]); by exists t_.
Qed.

End Steps.

(** ** Passes in sequence *)

Lemma fetchesOf_app t1 t2 : fetchesOf (t1 ++ t2) = fetchesOf t1 ++ fetchesOf t2.
Proof. unfold fetchesOf. apply omap_app. Qed.

Lemma fetchesOf_restEvents s : fetchesOf (restEvents s) = [].
Proof. unfold restEvents. by case_match. Qed.

Section Passes.

Variable env : Env.
Variable TEST_MODE : bool.
Variable isArray : bool.
Variable targets : list nat.
Variable detailMap : gmap string nat.




End Passes.

(** ** Checks of the pass theorems on the sample environments *)

Lemma blocked_retry_same_item_witness :
  ∃ s', iteration blockedTwiceEnv false true twoTargets twoMap
          (startOf blockedTwiceEnv false false arrayDisk) = Ret tt s'
    ∧ trace s' = trace (startOf blockedTwiceEnv false false arrayDisk)
                 ++ restEvents (startOf blockedTwiceEnv false false arrayDisk)
                 ++ [EvFetch "A" "1"; EvWait IP_BLOCK_WAIT; EvGoto true; EvWait 3000]
    ∧ i s' = 0
    ∧ target twoTargets s' = Some caseA
    ∧ progress s' = progress (startOf blockedTwiceEnv false false arrayDisk)
    ∧ details s' = [caseA; caseB]
    ∧ disk s' = arrayDisk
    ∧ consecutiveBlocks s' = 1%nat
    ∧ success s' = 0%nat
    ∧ errors s' = 0%nat
    ∧ ∃ post, trace (stateOf (iteration blockedTwiceEnv false true twoTargets twoMap s'))
              = trace s' ++ restEvents s' ++ EvFetch "A" "1" :: post.
Proof.
  apply (blocked_retry_same_item blockedTwiceEnv false true twoTargets twoMap
           (startOf blockedTwiceEnv false false arrayDisk) caseA 0 blockedReply).
  - reflexivity.
  - reflexivity.
  - reflexivity.
  - reflexivity.
  - vm_compute. lia.
  - reflexivity.
Defined.






Lemma thrown_request_skips_target_witness :
  ∃ s', iteration throwingEnv false true twoTargets twoMap
          (startOf throwingEnv false false arrayDisk) = Ret tt s'
    ∧ i s' = 0 + 1
    ∧ errors s' = 1%nat
    ∧ success s' = 0%nat
    ∧ consecutiveBlocks s' = 0%nat
    ∧ progress s' = progress (startOf throwingEnv false false arrayDisk)
    ∧ details s' = [caseA; caseB]
    ∧ trace s' = trace (startOf throwingEnv false false arrayDisk)
                 ++ restEvents (startOf throwingEnv false false arrayDisk)
                 ++ [EvFetch "A" "1"; EvWait DELAY_BETWEEN].
Proof.
  apply (thrown_request_skips_target throwingEnv false true twoTargets twoMap
           (startOf throwingEnv false false arrayDisk) caseA 0
           "Execution context was destroyed"); reflexivity.
Defined.

Lemma failed_navigation_skips_target_witness :
  ∃ s', iteration lostSessionEnv false true twoTargets twoMap
          (startOf lostSessionEnv false false arrayDisk) = Ret tt s'
    ∧ i s' = 0 + 1
    ∧ errors s' = 1%nat
    ∧ consecutiveBlocks s' = 1%nat
    ∧ progress s' = progress (startOf lostSessionEnv false false arrayDisk)
    ∧ details s' = [caseA; caseB]
    ∧ trace s' = trace (startOf lostSessionEnv false false arrayDisk)
                 ++ restEvents (startOf lostSessionEnv false false arrayDisk)
                 ++ [EvFetch "A" "1"; EvWait IP_BLOCK_WAIT; EvGoto false;
                     EvWait DELAY_BETWEEN].
Proof.
  apply (failed_navigation_skips_target lostSessionEnv false true twoTargets twoMap
           (startOf lostSessionEnv false false arrayDisk) caseA 0 blockedReply).
  - reflexivity.
  - reflexivity.
  - reflexivity.
  - reflexivity.
  - vm_compute. lia.
  - reflexivity.
Defined.

(** ** The merge rule *)

(** The test [mergerList.length > 0] and the sums of the counters convert a
    length that is not a number: the text of a number above 0 passes the
    test, and added to a counter it makes a text of it.  The length of a
    string is counted in code units. *)
Example length_is_converted :
  Js.lengthPositive (JObj {[ "length" := JStr "5" ]}) = true
  ∧ Js.lengthPositive (JObj {[ "length" := JStr "0" ]}) = false
  ∧ Js.lengthPositive (JObj {[ "length" := JBool true ]}) = true
  ∧ Js.lengthPositive (JObj {[ "length" := JArr [JNum 5] ]}) = true
  ∧ Js.lengthOf (JStr "차단") = Some (JNum 2)
  ∧ addLength (Some 0) (JStr "차단") = Some 2
  ∧ addLength (Some 0) (JObj {[ "length" := JBool true ]}) = Some 1
  ∧ addLength (Some 0) (JObj {[ "length" := JStr "5" ]}) = None.
Proof. repeat split; vm_compute; reflexivity. Qed.



(** *** Storing a result twice *)

Lemma entry_eq (e1 e2 : DetailEntry) :
  cortOfcCd e1 = cortOfcCd e2 → csNo e1 = csNo e2 →
  courtName e1 = courtName e2 → caseNumber e1 = caseNumber e2 →
  fields e1 = fields e2 → e1 = e2.
Proof. destruct e1, e2. cbn. by intros -> -> -> -> ->. Qed.

Lemma mergeFields_cases k :
  k = "deliveryRecords" ∨ k = "documentRecords" ∨ k = "mergerRecords"
  ∨ k = "priorCaseInfo" ∨ k ∉ mergeFields.
Proof.
  destruct (decide (k ∈ mergeFields)) as [Hin|Hout]; [|by do 4 right].
  unfold mergeFields in Hin. set_solver.
Qed.

(** X22: storing the same result twice is storing it once.  When a later
    result is stored over an earlier one, the two primary collections are
    those of the later result alone, while the merger records and the prior
    case stored by the earlier result stay when the later result brings
    none: a no-data or error outcome, or a success without them. *)
Theorem merge_is_idempotent (result later : json) (e : DetailEntry) :
  mergeEntry result (mergeEntry result e) = mergeEntry result e
  ∧ fields (mergeEntry later (mergeEntry result e)) !! "deliveryRecords"
    = fields (mergeEntry later e) !! "deliveryRecords"
  ∧ fields (mergeEntry later (mergeEntry result e)) !! "documentRecords"
    = fields (mergeEntry later e) !! "documentRecords"
  ∧ (isSuccess (settledAs later) && Js.lengthPositive (mergerListOf later) = false →
     fields (mergeEntry later (mergeEntry result e)) !! "mergerRecords"
     = fields (mergeEntry result e) !! "mergerRecords")
  ∧ (isSuccess (settledAs later)
     && (Js.truthyJ (priorCaseOf later) && Js.hasKeys (priorCaseOf later)) = false →
     fields (mergeEntry later (mergeEntry result e)) !! "priorCaseInfo"
     = fields (mergeEntry result e) !! "priorCaseInfo").
Proof.
  split; [|split; [|split; [|split]]].
  - destruct (mergeEntry_declared result (mergeEntry result e)) as (D1 & D2 & D3 & D4).
    apply entry_eq; try done.
    apply map_eq. intros k.
    destruct (mergeEntry_primary result (mergeEntry result e)) as [P1 P2].
    destruct (mergeEntry_primary result e) as [P1' P2'].
    destruct (mergeEntry_optional result (mergeEntry result e)) as [O1 O2].
    destruct (mergeEntry_optional result e) as [O1' O2'].
    destruct (mergeFields_cases k) as [->|[->|[->|[->|Hk]]]].
    + by rewrite P1, P1'.
    + by rewrite P2, P2'.
    + rewrite O1. rewrite O1'. by repeat case_match.
    + rewrite O2. rewrite O2'. by repeat case_match.
    + by apply mergeEntry_frame.
  - destruct (mergeEntry_primary later (mergeEntry result e)) as [-> _].
    by destruct (mergeEntry_primary later e) as [-> _].
  - destruct (mergeEntry_primary later (mergeEntry result e)) as [_ ->].
    by destruct (mergeEntry_primary later e) as [_ ->].
  - destruct (mergeEntry_optional later (mergeEntry result e)) as [-> _].
    destruct (isSuccess (settledAs later)); [|done].
    by destruct (Js.lengthPositive (mergerListOf later)).
  - destruct (mergeEntry_optional later (mergeEntry result e)) as [_ ->].
    destruct (isSuccess (settledAs later)); [|done].
    by destruct (Js.truthyJ (priorCaseOf later) && Js.hasKeys (priorCaseOf later)).
Qed.

(** ** Saving the record store *)

Lemma encodeDetails_keys heap :
  (imap (λ idx d, (pretty idx, d)) heap).*1 = pretty <$> seq 0 (length heap)
  ∧ (imap (λ idx (d : DetailEntry), (pretty idx, d)) heap).*2 = heap.
Proof.
  split.
  - rewrite fmap_imap.
    rewrite <- (imap_seq_0 heap (λ j, pretty j)). by apply imap_ext.
  - rewrite fmap_imap.
    rewrite (imap_ext _ (const (λ d : DetailEntry, d))) by done.
    rewrite imap_const. apply list_fmap_id.
Qed.

Lemma decode_encode isArray heap :
  decodeDetails (encodeDetails isArray heap) = heap.
Proof.
  destruct isArray; [done|]. cbn. apply encodeDetails_keys.
Qed.

(** C9, as amended: what [saveDetails] writes has the shape of the store it
    was loaded from and holds the entries in their order, so that loading it
    again gives the same sequence.  A store loaded as an array is written as
    that array.  A store loaded as an object is written as an object whose
    keys are the positions 0, 1, 2, ... in decimal: the keys it was loaded
    with are kept only if they were these. *)
Theorem saveDetails_keeps_shape_and_order (env : Env) (raw : RawStore) (s : State) :
  writeOk env (nwrite s) = true →
  ∃ s' saved, saveDetails env (rawIsArray raw) s = Ret tt s'
    ∧ detailsFile (disk s') = Some saved
    ∧ rawIsArray saved = rawIsArray raw
    ∧ decodeDetails saved = details s
    ∧ (rawIsArray raw = true → saved = StoreArray (details s))
    ∧ (rawIsArray raw = false →
         ∃ kvs, saved = StoreObject kvs
           ∧ kvs.*2 = details s
           ∧ kvs.*1 = pretty <$> seq 0 (length (details s)))
    ∧ (∀ kvs0, raw = StoreObject kvs0 → length (details s) = length kvs0 →
         ((∃ kvs, saved = StoreObject kvs ∧ kvs.*1 = kvs0.*1)
          ↔ kvs0.*1 = pretty <$> seq 0 (length kvs0))).
Proof.
  intros Hw.
  exists (withDisk (putDetailsFile (encodeDetails (rawIsArray raw) (details s)))
            (withTrace (λ t, t ++ [EvWrite DETAILS_FILE true]) (tickWrite s))),
         (encodeDetails (rawIsArray raw) (details s)).
  split.
  { exec. rewrite Hw. settle. reflexivity. }
  split; [done|]. split; [by destruct raw|].
  split; [apply decode_encode|].
  destruct (encodeDetails_keys (details s)) as [K1 K2].
  split; [by intros ->|]. split.
  - intros ->. eexists. by repeat split.
  - intros kvs0 -> Hlen. cbn. split.
    + intros (kvs & [= <-] & Hk). by rewrite <- Hk, K1, Hlen.
    + intros Hk. eexists. split; [done|]. by rewrite K1, Hk, Hlen.
Qed.

Lemma saveDetails_keeps_shape_and_order_witness :
  ∃ s' saved, saveDetails okEnv false (startOf okEnv false false objectDisk) = Ret tt s'
    ∧ detailsFile (disk s') = Some saved
    ∧ rawIsArray saved = false
    ∧ decodeDetails saved = [caseA; caseB].
Proof.
  destruct (saveDetails_keeps_shape_and_order okEnv
              (StoreObject [("A1", caseA); ("B2", caseB)])
              (startOf okEnv false false objectDisk) eq_refl)
    as (s' & saved & Hrun & Hd & Hshape & Hdec & _).
  exists s', saved. split; [exact Hrun|]. split; [exact Hd|].
  split; [exact Hshape|exact Hdec].
Defined.

(** C9 fails as stated: a store loaded as an object with the keys A1 and B2
    is written back, at the end of a run, under the keys 0 and 1. *)
Lemma object_store_is_rekeyed :
  ∃ sf kvs, main okEnv false false objectDisk = Some (Ret tt sf)
    ∧ detailsFile objectDisk = Some (StoreObject [("A1", caseA); ("B2", caseB)])
    ∧ detailsFile (disk sf) = Some (StoreObject kvs)
    ∧ kvs.*1 = ["0"; "1"].
Proof. do 2 eexists. vm_compute. repeat split; reflexivity. Qed.

(** ** Saving and loading the checkpoint *)

Section Progress.

Variable env : Env.

(** X23: [saveProgress] stamps the checkpoint in memory with the time of
    the call and writes it: completed keys, total and start time are
    unchanged, and the details file is not touched.  What it has written is
    what [loadProgress] returns when resuming, without reading the clock;
    without the resume flag [loadProgress] ignores the file and returns a
    fresh checkpoint with no completed key.  When the write fails the file
    is as before, but the checkpoint in memory has the new time. *)
Theorem saved_progress_is_what_resume_loads (s : State) :
  (writeOk env (nwrite s) = true →
   ∃ s', saveProgress env s = Ret tt s'
     ∧ progressFile (disk s') = Some (progress s')
     ∧ detailsFile (disk s') = detailsFile (disk s)
     ∧ completed (progress s') = completed (progress s)
     ∧ total (progress s') = total (progress s)
     ∧ startedAt (progress s') = startedAt (progress s)
     ∧ lastUpdated (progress s') = clock env (nclock s)
     ∧ (∀ env2 s2, loadProgress env2 true (disk s') s2 = Ret (progress s') s2)
     ∧ (∀ env2 s2, ∃ p s2', loadProgress env2 false (disk s') s2 = Ret p s2'
          ∧ completed p = [] ∧ total p = 0%nat
          ∧ startedAt p = clock env2 (nclock s2)
          ∧ lastUpdated p = clock env2 (S (nclock s2))))
  ∧ (writeOk env (nwrite s) = false →
     ∃ e s', saveProgress env s = Raise e s'
       ∧ disk s' = disk s
       ∧ completed (progress s') = completed (progress s)
       ∧ lastUpdated (progress s') = clock env (nclock s)).
Proof.
  split; intros Hw.
  - eexists. split.
    { exec. settle. rewrite Hw. settle. reflexivity. }
    project. repeat split; try reflexivity.
    intros env2 s2. do 2 eexists. split.
    { unfold loadProgress. exec. settle. reflexivity. }
    by repeat split.
  - do 2 eexists. split.
    { exec. settle. rewrite Hw. settle. reflexivity. }
    project. by repeat split.
Qed.

End Progress.

(** ** The run as a whole *)

Section Run.

Variable env : Env.
Variable TEST_MODE : bool.
Variable RESUME : bool.

(** What the statements before the loop establish. *)
Lemma prepare_ready d isArray targets detailMap s0 :
  prepare env TEST_MODE RESUME (initialState d) = Ret (Ready isArray targets detailMap) s0 →
  ∃ raw, detailsFile d = Some raw
    ∧ isArray = rawIsArray raw
    ∧ details s0 = decodeDetails raw
    ∧ detailMap = buildDetailMap (details s0)
    ∧ targets = selectTargets TEST_MODE (list_to_set (completed (progress s0))) (details s0)
    ∧ success s0 = 0%nat ∧ errors s0 = 0%nat ∧ consecutiveBlocks s0 = 0%nat
    ∧ i s0 = 0 ∧ disk s0 = d ∧ nfetch s0 = 0%nat ∧ nwrite s0 = 0%nat
    ∧ completed (progress s0) = loadedKeys RESUME d.
Proof.
  unfold loadedKeys.
  cbv [prepare loadProgress gotoSearchPage now waitForTimeout closeBrowser
       processExit raise mbind M_bind bind mret M_ret ret get modify emit].
  cbn [initialState disk].
  destruct (detailsFile d) as [raw|] eqn:Hraw; [|done].
  destruct RESUME, (progressFile d); settle;
    destruct (length _ =? 0)%nat; try done;
    match goal with
    | |- context [gotoOk env ?n] => destruct (gotoOk env n)
    end; try done;
    destruct (wsReady env); try done;
    cbv beta iota zeta; intros H; simplify_eq; exists raw; settle; done.
Qed.

Lemma prepare_Inv d isArray targets detailMap s0 :
  prepare env TEST_MODE RESUME (initialState d) = Ret (Ready isArray targets detailMap) s0 →
  covers detailMap (details s0)
  ∧ Inv detailMap (details s0) (length (completed (progress s0))) s0.
Proof.
  intros (raw & _ & _ & _ & -> & _ & Hs & _ & _ & Hi & _)%prepare_ready.
  split; [apply buildDetailMap_covers|].
  split; [done|lia|lia|].
  intros key. rewrite drop_all. by intros ?%elem_of_nil.
Qed.

(** X27: when a block brings the streak to the limit and the two writes of
    the flush that follows succeed, the run ends in that same pass: the
    details file and the progress file are written, the browser is closed
    and the process exits with status 1, no other request being made.  What
    is written is the store and the checkpoint of that moment: loading the
    details file again gives the entries in memory, and every key completed
    in this run leads to an entry that holds both collections.  No pass ends
    the process otherwise: an exit from the loop has status 1 and comes with
    a streak at the limit. *)
Theorem abort_at_block_limit d isArray targets detailMap s0 k s t reply :
  prepare env TEST_MODE RESUME (initialState d) = Ret (Ready isArray targets detailMap) s0 →
  passes env TEST_MODE isArray targets detailMap k s0 = Some s →
  target targets s = Some t →
  pageReply env (nfetch s) (cortOfcCd t) (csNo t) = Evaluated reply →
  classify (pageFunction reply) = Blocked →
  (MAX_CONSECUTIVE_BLOCKS ≤ S (consecutiveBlocks s))%nat →
  writeOk env (nwrite s) = true →
  writeOk env (S (nwrite s)) = true →
  ∃ s' saved p,
    main env TEST_MODE RESUME d = Some (Exit 1 s')
    ∧ iteration env TEST_MODE isArray targets detailMap s = Exit 1 s'
    ∧ trace s' = trace s ++ restEvents s
                 ++ [EvFetch (cortOfcCd t) (csNo t); EvWrite DETAILS_FILE true;
                     EvWrite PROGRESS_FILE true; EvClose; EvExit 1]
    ∧ detailsFile (disk s') = Some saved
    ∧ rawIsArray saved = isArray
    ∧ decodeDetails saved = details s
    ∧ progressFile (disk s') = Some p
    ∧ completed p = completed (progress s)
    ∧ length (completed (progress s))
      = (length (completed (progress s0)) + success s)%nat
    ∧ (∀ key, key ∈ drop (length (completed (progress s0))) (completed p) →
         ∃ r e, detailMap !! key = Some r ∧ decodeDetails saved !! r = Some e
           ∧ is_Some (fields e !! "deliveryRecords")
           ∧ is_Some (fields e !! "documentRecords"))
    ∧ (∀ s1 code s2,
         iteration env TEST_MODE isArray targets detailMap s1 = Exit code s2 →
         code = 1 ∧ (MAX_CONSECUTIVE_BLOCKS ≤ S (consecutiveBlocks s1))%nat).
Proof.
  intros Hprep Hpass Ht Hreply Hc Hmax Hw1 Hw2.
  destruct (prepare_Inv _ _ _ _ _ Hprep) as [Hcov Hinv0].
  pose proof (passes_Inv env TEST_MODE isArray targets detailMap _ _ _ _ _
                Hcov Hinv0 Hpass) as [Hk Hi Hn Hs].
  destruct (target_in_heap targets (details s0) s t Hk Ht) as (d0 & Hd0 & Hkey & _).
  destruct (Hcov d0 Hd0) as (r & Hr & _). rewrite Hkey in Hr.
  destruct (iteration_aborts env TEST_MODE isArray targets detailMap
              s t r reply Ht Hr Hreply Hc Hmax Hw1 Hw2)
    as (s' & Hit & Htr & Hd & Hp & Hdk & _).
  exists s', (encodeDetails isArray (details s)), (progress s').
  split.
  { unfold main. rewrite Hprep. unfold collect.
    destruct (forLoop_passes env TEST_MODE isArray targets detailMap
                k s0 s (S (budget targets s0)) Hpass) as [Hle ->]; [lia|].
    destruct (S (budget targets s0) - k)%nat as [|fuel] eqn:Hfuel; [lia|].
    simpl. by rewrite (target_inLoop targets s t Hi Ht), Hit. }
  split; [done|]. split; [done|].
  split; [by rewrite Hdk|]. split; [by destruct isArray|].
  split; [apply decode_encode|]. split; [by rewrite Hdk|].
  split; [by rewrite Hp|]. split; [done|]. split.
  - intros key. rewrite Hp, decode_encode. cbn [completed setLastUpdated]. apply Hs.
  - intros s1 code s2 Hexit.
    pose proof (iteration_cases env TEST_MODE isArray targets detailMap s1) as Hcase.
    rewrite Hexit in Hcase. destruct Hcase as (-> & Hle & Heq). split; [done|lia].
Qed.


(** The statements before the loop make no request. *)
Lemma prepare_quiet d :
  fetchesOf (trace (stateOf (prepare env TEST_MODE RESUME (initialState d)))) = [].
Proof.
  cbv [prepare loadProgress gotoSearchPage now waitForTimeout closeBrowser
       processExit raise mbind M_bind bind mret M_ret ret get modify emit].
  cbn [initialState disk].
  destruct (detailsFile d) as [raw|]; [|done].
  destruct RESUME, (progressFile d); settle;
    destruct (length _ =? 0)%nat; try done;
    match goal with
    | |- context [gotoOk env ?n] => destruct (gotoOk env n)
    end; try done;
    destruct (wsReady env); done.
Qed.

(** X5: whatever the environment does, every request of a run is for an entry of
    the loaded store that has no deliveryRecords field and whose key is not
    among the completed keys the run starts with. *)
Theorem only_pending_entries_are_requested d raw r c n :
  detailsFile d = Some raw →
  main env TEST_MODE RESUME d = Some r →
  (c, n) ∈ fetchesOf (trace (stateOf r)) →
  ∃ pos e, decodeDetails raw !! pos = Some e
    ∧ cortOfcCd e = c ∧ csNo e = n
    ∧ fields e !! "deliveryRecords" = None
    ∧ entryKey e ∉ loadedKeys RESUME d.
Proof.
  intros Hraw Hmain Hx. unfold main in Hmain.
  pose proof (prepare_quiet d) as Hq.
  destruct (prepare env TEST_MODE RESUME (initialState d))
    as [[|isArray targets detailMap] s0| |] eqn:Hprep; cbn [stateOf] in Hq;
    try (simplify_eq; cbn [stateOf] in Hx; rewrite Hq in Hx; by apply elem_of_nil in Hx).
  destruct (prepare_Inv _ _ _ _ _ Hprep) as [Hcov Hinv].
  destruct (prepare_ready _ _ _ _ _ Hprep)
    as (raw' & Hraw' & _ & Hd & _ & Htg & _ & _ & _ & _ & _ & _ & _ & Hkeys).
  assert (raw' = raw) as -> by congruence.
  assert (Hloop : ∃ r1, forLoop env TEST_MODE isArray targets detailMap
                          (S (budget targets s0)) s0 = Some r1
                        ∧ (c, n) ∈ fetchesOf (trace (stateOf r1))).
  { unfold collect in Hmain.
    destruct (forLoop _ _ _ _ _ _ s0) as [[[] s1| |]|]; simplify_eq;
      try (eexists; split; [reflexivity|done]).
    eexists. split; [reflexivity|].
    pose proof (final_flush_frame env isArray s1) as (_ & _ & _ & _ & Hf).
    cbv zeta in Hf. cbn [stateOf]. by rewrite <- Hf. }
  destruct Hloop as (r1 & Hr1 & Hx1).
  destruct (forLoop_requests env TEST_MODE isArray targets detailMap
              _ _ _ _ _ _ Hcov Hinv Hr1 Hx1) as [H0|(rt & e & Hrt & He & Hid)].
  { rewrite Hq in H0. by apply elem_of_nil in H0. }
  rewrite Htg in Hrt. apply selectTargets_elem in Hrt as (_ & e' & He' & Ht).
  rewrite He in He'. simplify_eq.
  apply isTarget_spec in Ht as [Hk Hn]. rewrite Hkeys in Hk.
  exists rt, e'. rewrite <- Hd. unfold entryIdent in Hid.
  split; [done|]. split; [congruence|]. split; [congruence|]. split; [done|].
  set_solver.
Qed.

(** X1: the run always ends: the fuel given to the loop is enough. *)
Theorem main_total d : ∃ r, main env TEST_MODE RESUME d = Some r.
Proof.
  unfold main.
  destruct (prepare env TEST_MODE RESUME (initialState d))
    as [[|isArray targets detailMap] s0| |]; try by eexists.
  unfold collect.
  destruct (forLoop_total env TEST_MODE isArray targets detailMap
              (S (budget targets s0)) s0) as [r Hr]; [lia|].
  rewrite Hr. destruct r as [[] s1| |]; by eexists.
Qed.

End Run.

(** ** The ways a run ends, and what holds at every end *)

Lemma pace_app b t1 t2 : pace b (t1 ++ t2) = pace b t1 ≫= λ b', pace b' t2.
Proof.
  revert b. induction t1 as [|e t1 IH]; intros b; [done|].
  destruct e; cbn [app pace]; try apply IH. destruct b; [apply IH|done].
Qed.

Lemma pace_gap t2 mid c n :
  is_Some (pace false (mid ++ EvFetch c n :: t2)) →
  ∃ ms, EvWait ms ∈ mid ∧ DELAY_BETWEEN ≤ ms.
Proof.
  induction mid as [|e mid IH]; cbn [app pace]; [by intros [? ?]|].
  destruct e; cbn [pace orb]; try (intros H; destruct (IH H) as (ms' & Hin & Hle);
    exists ms'; split; [by right|done]).
  - destruct (DELAY_BETWEEN <=? ms) eqn:Hms.
    + intros _. exists ms. split; [left|]. by apply Z.leb_le.
    + intros H; destruct (IH H) as (ms' & Hin & Hle). exists ms'. split; [by right|done].
  - by intros [? ?].
Qed.

(** On a trace that keeps the pace, two requests have a pause of at least
    DELAY_BETWEEN between them. *)
Lemma pace_sound b t1 c n mid c' n' t2 :
  is_Some (pace b (t1 ++ EvFetch c n :: mid ++ EvFetch c' n' :: t2)) →
  ∃ ms, EvWait ms ∈ mid ∧ DELAY_BETWEEN ≤ ms.
Proof.
  revert b. induction t1 as [|e t1 IH]; intros b.
  - cbn [app pace]. destruct b; [apply pace_gap|by intros [? ?]].
  - destruct e; cbn [app pace]; try apply IH. destruct b; [apply IH|by intros [? ?]].
Qed.

Lemma keeps_refl e : keeps e e.
Proof. by repeat split. Qed.

Lemma keeps_merge result e0 e : keeps e0 e → keeps e0 (mergeEntry result e).
Proof.
  intros (H1 & H2 & H3 & H4 & H5 & H6).
  destruct (mergeEntry_declared result e) as (D1 & D2 & D3 & D4).
  repeat split; try congruence.
  - intros k Hk. rewrite mergeEntry_frame by done. by apply H5.
  - intros k Hk. by apply mergeEntry_keeps, H6.
Qed.

Lemma keeps_heap_refl heap : Forall2 keeps heap heap.
Proof. apply Forall2_same_length_lookup. split; [done|]. intros ???; intros. simplify_eq. apply keeps_refl. Qed.

Lemma keeps_alter result r heap0 heap :
  Forall2 keeps heap0 heap → Forall2 keeps heap0 (alter (mergeEntry result) r heap).
Proof.
  intros H. apply Forall2_alter_r; [done|]. intros e0 e _ _. apply keeps_merge.
Qed.

Lemma keeps_ident heap0 heap :
  Forall2 keeps heap0 heap → entryIdent <$> heap = entryIdent <$> heap0.
Proof.
  induction 1 as [|e0 e l0 l (H1 & H2 & _) _ IH]; [done|].
  cbn. rewrite IH. unfold entryIdent. by rewrite H1, H2.
Qed.

Lemma encode_isArray isArray heap : rawIsArray (encodeDetails isArray heap) = isArray.
Proof. by destruct isArray. Qed.

Lemma checkpointOf_same keys0 heap0 targets started p p' :
  completed p' = completed p → total p' = total p → startedAt p' = startedAt p →
  checkpointOf keys0 heap0 targets started p →
  checkpointOf keys0 heap0 targets started p'.
Proof. unfold checkpointOf. by intros -> -> ->. Qed.

Lemma filterRefs_nil p (heap : list DetailEntry) refs :
  (∀ e, e ∈ heap → p e = false) → filterRefs p heap refs = [].
Proof.
  intros Hall. unfold filterRefs. induction refs as [|r refs IH]; [done|].
  cbn [List.filter]. destruct (heap !! r) as [e|] eqn:He; [|done].
  rewrite (Hall e); [done|]. by eapply list_elem_of_lookup_2.
Qed.

Lemma selectTargets_nil TEST_MODE completedSet (heap : list DetailEntry) :
  (∀ e, e ∈ heap → isTarget completedSet e = false) →
  selectTargets TEST_MODE completedSet heap = [].
Proof.
  intros Hall. unfold selectTargets. rewrite (filterRefs_nil _ _ _ Hall).
  by destruct TEST_MODE.
Qed.

Lemma selectTargets_all completedSet (heap : list DetailEntry) pos e :
  heap !! pos = Some e → isTarget completedSet e = true →
  pos ∈ selectTargets false completedSet heap.
Proof.
  intros He Ht. cbn [selectTargets]. apply filterRefs_elem. split.
  - unfold allRefs. apply elem_of_seq. apply lookup_lt_Some in He. lia.
  - by exists e.
Qed.

Lemma requestOf_length targets detailMap s :
  (length (requestOf targets detailMap s) ≤ 1)%nat.
Proof. unfold requestOf. repeat case_match; cbn; lia. Qed.

Section Endings.

Variable env : Env.
Variable TEST_MODE : bool.
Variable RESUME : bool.

(** The ways the statements before the loop end. *)
Lemma prepare_cases d :
  match prepare env TEST_MODE RESUME (initialState d) with
  | Ret Done s =>
      ∃ raw, detailsFile d = Some raw ∧ pendingOf TEST_MODE RESUME d raw = []
        ∧ trace s = [] ∧ disk s = d
  | Ret (Ready isArray targets detailMap) s =>
      ∃ raw, detailsFile d = Some raw
        ∧ targets = pendingOf TEST_MODE RESUME d raw ∧ targets ≠ []
        ∧ gotoOk env 0 = true ∧ wsReady env = true
        ∧ trace s = [EvGoto true; EvWait 3000] ∧ disk s = d
        ∧ total (progress s) = length (decodeDetails raw)
        ∧ (RESUME = true → ∀ p, progressFile d = Some p → startedAt (progress s) = startedAt p)
  | Raise _ s =>
      ∃ raw, detailsFile d = Some raw ∧ pendingOf TEST_MODE RESUME d raw ≠ []
        ∧ gotoOk env 0 = false ∧ trace s = [EvGoto false] ∧ disk s = d
  | Exit c s =>
      c = 1 ∧ disk s = d
      ∧ ((detailsFile d = None ∧ trace s = [EvExit 1])
         ∨ (∃ raw, detailsFile d = Some raw ∧ pendingOf TEST_MODE RESUME d raw ≠ []
              ∧ gotoOk env 0 = true ∧ wsReady env = false
              ∧ trace s = [EvGoto true; EvWait 3000; EvClose; EvExit 1]))
  end.
Proof.
  unfold pendingOf, loadedKeys.
  cbv [prepare loadProgress gotoSearchPage now waitForTimeout closeBrowser
       processExit raise mbind M_bind bind mret M_ret ret get modify emit].
  cbn [initialState disk].
  destruct (detailsFile d) as [raw|] eqn:Hraw; [|by repeat split; try left].
  destruct RESUME, (progressFile d) as [p0|]; settle;
    match goal with
    | |- context [(length ?l =? 0)%nat] =>
        destruct l as [|x l'] eqn:Hsel; cbn [length Nat.eqb]
    end;
    try (exists raw; by repeat split);
    match goal with
    | |- context [gotoOk env ?n] => destruct (gotoOk env n) eqn:Hgo
    end; settle;
    try (exists raw; by repeat split);
    destruct (wsReady env) eqn:Hws; settle;
    try (exists raw; repeat split; try done; congruence);
    (split; [done|]; split; [done|]; right; exists raw;
     repeat split; try done; congruence).
Qed.

(** A run is the statements before the loop, some passes of the loop, and
    then either the flush after the loop or a pass that does not
    complete. *)
Lemma main_cases d r :
  main env TEST_MODE RESUME d = Some r →
  match prepare env TEST_MODE RESUME (initialState d) with
  | Ret Done s => r = Ret tt s
  | Ret (Ready isArray targets detailMap) s0 =>
      ∃ k s, passes env TEST_MODE isArray targets detailMap k s0 = Some s
        ∧ ((inLoop targets s = false
            ∧ r = (saveDetails env isArray;; saveProgress env;; closeBrowser) s)
           ∨ (inLoop targets s = true
              ∧ iteration env TEST_MODE isArray targets detailMap s = r
              ∧ ∀ s', r ≠ Ret tt s'))
  | Raise e s => r = Raise e s
  | Exit c s => r = Exit c s
  end.
Proof.
  unfold main.
  destruct (prepare env TEST_MODE RESUME (initialState d))
    as [[|isArray targets detailMap] s0| |]; try (intros; by simplify_eq).
  unfold collect.
  destruct (forLoop _ _ _ _ _ _ s0) as [r1|] eqn:Hloop; [|done].
  destruct (forLoop_stops _ _ _ _ _ _ _ _ Hloop) as (k & s & Hk & Hor).
  intros Hr. exists k, s. split; [done|].
  destruct Hor as [[Hout ->]|(Hin & Hit & Hne)].
  - left. split; [done|]. by simplify_eq.
  - right. destruct r1 as [[] s1| |]; [by destruct (Hne s1)|by simplify_eq..].
Qed.

Lemma run_cases d r :
  main env TEST_MODE RESUME d = Some r →
  endsEarly env TEST_MODE RESUME d r
  ∨ ∃ raw isArray targets detailMap s0 k s,
      prepare env TEST_MODE RESUME (initialState d)
        = Ret (Ready isArray targets detailMap) s0
      ∧ detailsFile d = Some raw
      ∧ targets = pendingOf TEST_MODE RESUME d raw ∧ targets ≠ []
      ∧ gotoOk env 0 = true ∧ wsReady env = true
      ∧ trace s0 = [EvGoto true; EvWait 3000] ∧ disk s0 = d
      ∧ passes env TEST_MODE isArray targets detailMap k s0 = Some s
      ∧ endsFrom env TEST_MODE isArray targets detailMap s r.
Proof.
  intros Hmain. pose proof (main_cases d r Hmain) as Hc.
  pose proof (prepare_cases d) as Hp. unfold endsEarly.
  destruct (prepare env TEST_MODE RESUME (initialState d))
    as [[|isArray targets detailMap] s0|e s0|c s0] eqn:Hprep.
  - left. right. left. destruct Hp as (raw & ? & ? & ? & ?). by exists raw, s0.
  - right. destruct Hp as (raw & ? & ? & ? & ? & ? & ? & ? & _).
    destruct Hc as (k & s & Hk & Hor).
    by exists raw, isArray, targets, detailMap, s0, k, s.
  - left. right. right. left. destruct Hp as (raw & ? & ? & ? & ? & ?).
    by exists raw, e, s0.
  - left. destruct Hp as (-> & ? & [[? ?]|(raw & ? & ? & ? & ? & ?)]).
    + left. by exists s0.
    + right. right. right. by exists raw, s0.
Qed.

(** The trace of a run keeps the pace. *)
Lemma main_pace d r :
  main env TEST_MODE RESUME d = Some r → is_Some (pace true (trace (stateOf r))).
Proof.
  intros Hmain.
  destruct (run_cases d r Hmain)
    as [[(s & -> & _ & Htr & _)|[(raw & s & -> & _ & _ & Htr & _)
        |[(raw & e & s & -> & _ & _ & _ & Htr & _)|(raw & s & -> & _ & _ & _ & _ & Htr & _)]]]
       |(raw & isArray & targets & detailMap & s0 & k & s & Hprep & _ & _ & _ & _ & _
         & Htr & _ & Hk & Hor)];
    cbn [stateOf]; try (by rewrite Htr).
  assert (Hs : pace true (trace s) = Some true).
  { apply (passes_preserve env TEST_MODE isArray targets detailMap
             (λ s, pace true (trace s) = Some true) k s0 s); [|by rewrite Htr|done].
    intros s1 s2 H1 _ Hit.
    destruct (iteration_pace env TEST_MODE isArray targets detailMap s1)
      as (ev & Hev & Hpace).
    rewrite Hit in Hev, Hpace. cbn [stateOf] in Hev.
    by rewrite Hev, pace_app, H1. }
  destruct Hor as [[_ ->]|(_ & Hit & _)].
  + pose proof (final_flush_cases env isArray s) as (_ & _ & _ & _ & _ & Hf).
    cbv zeta in Hf.
    destruct ((saveDetails env isArray;; saveProgress env;; closeBrowser) s)
      as [[] s'|e s'|c s']; cbn [stateOf]; [| |done].
    * destruct Hf as (_ & _ & -> & _). by rewrite pace_app, Hs.
    * destruct Hf as [(_ & -> & _)|(_ & _ & -> & _)]; by rewrite pace_app, Hs.
  + destruct (iteration_pace env TEST_MODE isArray targets detailMap s)
      as (ev & Hev & Hpace).
    rewrite Hit in Hev, Hpace. rewrite Hev, pace_app, Hs. cbn.
    by destruct r.
Qed.

(** X15: between any two requests of a run, whatever the replies and the
    failures, the loop has paused for at least DELAY_BETWEEN (1500 ms): the
    pause that ends a pass, or the cooldown and the pause after a block. *)
Theorem requests_are_paced d r t1 c n mid c' n' t2 :
  main env TEST_MODE RESUME d = Some r →
  trace (stateOf r) = t1 ++ EvFetch c n :: mid ++ EvFetch c' n' :: t2 →
  ∃ ms, EvWait ms ∈ mid ∧ DELAY_BETWEEN ≤ ms.
Proof.
  intros Hmain Htr. pose proof (main_pace d r Hmain) as Hp.
  rewrite Htr in Hp. by eapply pace_sound.
Qed.

End Endings.

Section Early.

Variable env : Env.
Variable TEST_MODE : bool.
Variable RESUME : bool.

(** X13: the four ways a run ends before its loop.  Without a details
    file the process exits with status 1 at once.  With no entry left to
    collect (an empty store included) the run returns without opening the
    browser and without writing any file.  When the first navigation fails
    the run ends with that exception, and when the page comes up without its
    framework the browser is closed and the process exits with status 1; in
    both cases nothing has been requested or written. *)
Theorem main_stops_before_the_loop d :
  (detailsFile d = None →
     ∃ s, main env TEST_MODE RESUME d = Some (Exit 1 s)
       ∧ trace s = [EvExit 1] ∧ disk s = d)
  ∧ (∀ raw, detailsFile d = Some raw → pendingOf TEST_MODE RESUME d raw = [] →
       ∃ s, main env TEST_MODE RESUME d = Some (Ret tt s)
         ∧ trace s = [] ∧ disk s = d)
  ∧ (∀ raw, detailsFile d = Some raw → pendingOf TEST_MODE RESUME d raw ≠ [] →
       gotoOk env 0 = false →
       ∃ e s, main env TEST_MODE RESUME d = Some (Raise e s)
         ∧ trace s = [EvGoto false] ∧ disk s = d)
  ∧ (∀ raw, detailsFile d = Some raw → pendingOf TEST_MODE RESUME d raw ≠ [] →
       gotoOk env 0 = true → wsReady env = false →
       ∃ s, main env TEST_MODE RESUME d = Some (Exit 1 s)
         ∧ trace s = [EvGoto true; EvWait 3000; EvClose; EvExit 1] ∧ disk s = d)
  ∧ (∀ raw, decodeDetails raw = [] → pendingOf TEST_MODE RESUME d raw = []).
Proof.
  pose proof (prepare_cases env TEST_MODE RESUME d) as Hp. unfold main.
  destruct (prepare env TEST_MODE RESUME (initialState d))
    as [[|isArray targets detailMap] s0|e s0|c s0].
  - destruct Hp as (raw & Hraw & Hpend & Htr & Hd).
    split; [congruence|]. split; [by exists s0|].
    split; [intros raw' ? ?; congruence|]. split; [intros raw' ? ?; congruence|].
    intros raw' Hnil. unfold pendingOf. rewrite Hnil. by destruct TEST_MODE.
  - destruct Hp as (raw & Hraw & Htg & Hne & Hgo & Hws & Htr & Hd & _).
    split; [congruence|]. split; [intros raw' ? ?; congruence|].
    split; [intros raw' ? ? ?; congruence|]. split; [intros raw' ? ? ? ?; congruence|].
    intros raw' Hnil. unfold pendingOf. rewrite Hnil. by destruct TEST_MODE.
  - destruct Hp as (raw & Hraw & Hne & Hgo & Htr & Hd).
    split; [congruence|]. split; [intros raw' ? ?; congruence|].
    split; [intros raw' ? ? ?; by exists e, s0|].
    split; [intros raw' ? ? ? ?; congruence|].
    intros raw' Hnil. unfold pendingOf. rewrite Hnil. by destruct TEST_MODE.
  - destruct Hp as (-> & Hd & [[Hnone Htr]|(raw & Hraw & Hne & Hgo & Hws & Htr)]).
    + split; [by exists s0|]. split; [intros raw' ? ?; congruence|].
      split; [intros raw' ? ? ?; congruence|]. split; [intros raw' ? ? ? ?; congruence|].
      intros raw' Hnil. unfold pendingOf. rewrite Hnil. by destruct TEST_MODE.
    + split; [congruence|]. split; [intros raw' ? ?; congruence|].
      split; [intros raw' ? ? ?; congruence|]. split; [intros raw' ? ? ? ?; by exists s0|].
      intros raw' Hnil. unfold pendingOf. rewrite Hnil. by destruct TEST_MODE.
Qed.

End Early.

Section Requests.

Variable env : Env.
Variable TEST_MODE : bool.
Variable RESUME : bool.

(** In a state of the loop that keeps the invariant, the target exists and
    its entry is found. *)
Lemma inv_finds_entry heap0 n0 targets detailMap s :
  detailMap = buildDetailMap heap0 →
  (∀ rt, rt ∈ targets → (rt < length heap0)%nat) →
  Inv detailMap heap0 n0 s →
  inLoop targets s = true →
  ∃ rt d0 t r e,
    targets !! Z.to_nat (i s) = Some rt
    ∧ heap0 !! rt = Some d0
    ∧ entryIdent t = entryIdent d0
    ∧ details s !! rt = Some t
    ∧ target targets s = Some t
    ∧ detailMap !! entryKey t = Some r
    ∧ details s !! r = Some e
    ∧ entryKey e = entryKey t
    ∧ (rt ≤ r)%nat
    ∧ (NoDup (entryKey <$> heap0) → r = rt).
Proof.
  intros Hmap Hvalid [Hk Hi _ _] Hin.
  assert (Hlen : length (details s) = length heap0).
  { by rewrite <- (length_fmap entryIdent (details s)), Hk, length_fmap. }
  unfold inLoop in Hin. apply Z.ltb_lt in Hin.
  destruct (lookup_lt_is_Some_2 targets (Z.to_nat (i s))) as [rt Hrt]; [lia|].
  assert (Hlt : (rt < length heap0)%nat) by (by eapply Hvalid, list_elem_of_lookup_2).
  destruct (lookup_lt_is_Some_2 heap0 rt Hlt) as [d0 Hd0].
  destruct (lookup_lt_is_Some_2 (details s) rt) as [t Ht]; [lia|].
  assert (Htgt : target targets s = Some t).
  { rewrite target_eq, Hrt. done. }
  assert (Hid : entryIdent t = entryIdent d0).
  { assert (H : (entryIdent <$> details s) !! rt = Some (entryIdent t))
      by (by rewrite list_lookup_fmap, Ht).
    rewrite Hk, list_lookup_fmap, Hd0 in H. cbn in H. congruence. }
  assert (Hkey : entryKey t = entryKey d0).
  { unfold entryIdent in Hid. unfold entryKey. congruence. }
  destruct (buildDetailMap_covers heap0 d0) as (r & Hr & Hrlt);
    [by eapply list_elem_of_lookup_2|].
  apply buildDetailMap_lookup in Hr as Hlast.
  destruct Hlast as [(d1 & Hd1 & Hk1) Hmax].
  destruct (lookup_lt_is_Some_2 (details s) r) as [e He]; [lia|].
  assert (Hide : entryIdent e = entryIdent d1).
  { assert (H : (entryIdent <$> details s) !! r = Some (entryIdent e))
      by (by rewrite list_lookup_fmap, He).
    rewrite Hk, list_lookup_fmap, Hd1 in H. cbn in H. congruence. }
  exists rt, d0, t, r, e. rewrite Hmap, Hkey.
  repeat split; try done.
  - unfold entryIdent in Hide. unfold entryKey in *. congruence.
  - by eapply Hmax.
  - intros Hnd. eapply (NoDup_lookup (entryKey <$> heap0)); [done| |].
    + by rewrite list_lookup_fmap, Hd1.
    + by rewrite list_lookup_fmap, Hd0, Hk1.
Qed.

(** In every pass of a run the target exists and its entry is found: the
    loop index stays in the range of the targets, and the map holds the key
    of every entry. *)
Lemma pass_finds_entry d isArray targets detailMap s0 k s :
  prepare env TEST_MODE RESUME (initialState d) = Ret (Ready isArray targets detailMap) s0 →
  passes env TEST_MODE isArray targets detailMap k s0 = Some s →
  inLoop targets s = true →
  ∃ rt t r e,
    targets !! Z.to_nat (i s) = Some rt
    ∧ details s !! rt = Some t
    ∧ target targets s = Some t
    ∧ detailMap !! entryKey t = Some r
    ∧ details s !! r = Some e
    ∧ entryKey e = entryKey t
    ∧ (rt ≤ r)%nat
    ∧ (NoDup (entryKey <$> details s0) → r = rt).
Proof.
  intros Hprep Hpass Hin.
  destruct (prepare_Inv _ _ _ _ _ _ _ _ Hprep) as [Hcov Hinv0].
  destruct (prepare_ready _ _ _ _ _ _ _ _ Hprep)
    as (raw & _ & _ & _ & Hmap & Htg & _).
  pose proof (passes_Inv env TEST_MODE isArray targets detailMap _ _ _ _ _
                Hcov Hinv0 Hpass) as Hinv.
  assert (Hvalid : ∀ rt, rt ∈ targets → (rt < length (details s0))%nat).
  { intros rt Hrt. rewrite Htg in Hrt. by apply selectTargets_elem in Hrt as [? _]. }
  destruct (inv_finds_entry _ _ targets detailMap s Hmap Hvalid Hinv Hin)
    as (rt & d0 & t & r & e & H1 & _ & _ & H2 & H3 & H4 & H5 & H6 & H7 & H8).
  by exists rt, t, r, e.
Qed.

(** X12: in every pass of a run the loop index is in the range of the
    targets and the map holds the key of the target, so the pass makes its
    request: the branch for a missing entry is never taken, and no exception
    leaves the loop.  The entry the result will be stored in has the key of
    the target and is not before it in the store; it is the target itself
    when the keys of the store are pairwise distinct. *)
Theorem every_pass_finds_its_entry d isArray targets detailMap s0 k s :
  prepare env TEST_MODE RESUME (initialState d) = Ret (Ready isArray targets detailMap) s0 →
  passes env TEST_MODE isArray targets detailMap k s0 = Some s →
  inLoop targets s = true →
  (∃ rt t r e post,
     targets !! Z.to_nat (i s) = Some rt
     ∧ details s !! rt = Some t
     ∧ target targets s = Some t
     ∧ detailMap !! entryKey t = Some r
     ∧ details s !! r = Some e
     ∧ entryKey e = entryKey t
     ∧ (rt ≤ r)%nat
     ∧ (NoDup (entryKey <$> details s0) → r = rt)
     ∧ trace (stateOf (iteration env TEST_MODE isArray targets detailMap s))
       = trace s ++ restEvents s ++ EvFetch (cortOfcCd t) (csNo t) :: post)
  ∧ (∀ e s', iteration env TEST_MODE isArray targets detailMap s ≠ Raise e s').
Proof.
  intros Hprep Hpass Hin.
  destruct (pass_finds_entry d isArray targets detailMap s0 k s Hprep Hpass Hin)
    as (rt & t & r & e & Hrt & Hdt & Ht & Hr & He & Hk & Hle & Hnd).
  split.
  - destruct (iteration_fetches env TEST_MODE isArray targets detailMap s t r Ht Hr)
      as [post Hpost].
    by exists rt, t, r, e, post.
  - intros e' s' Hit.
    pose proof (iteration_cases env TEST_MODE isArray targets detailMap s) as Hc.
    rewrite Hit in Hc. congruence.
Qed.

Lemma iteration_withinBound isArray targets detailMap s s' :
  withinBound targets s → inLoop targets s = true →
  iteration env TEST_MODE isArray targets detailMap s = Ret tt s' →
  withinBound targets s'.
Proof.
  intros [Hi (k & Hk & Hk4 & Hend & HF)] Hin Hit.
  unfold inLoop in Hin. apply Z.ltb_lt in Hin.
  pose proof (iteration_cases env TEST_MODE isArray targets detailMap s) as Hc.
  pose proof (iteration_requests env TEST_MODE isArray targets detailMap s) as Hr.
  pose proof (requestOf_length targets detailMap s) as Hl.
  rewrite Hit in Hc, Hr. cbn [stateOf] in Hr.
  unfold withinBound, MAX_CONSECUTIVE_BLOCKS in *.
  rewrite Hr, length_app.
  destruct Hc as [Hadv|(Hsame & Hcb & Hlt)].
  - split; [lia|]. exists 0%nat. repeat split; lia.
  - split; [lia|]. exists (S k). repeat split; lia.
Qed.

Lemma fetches_early d r :
  endsEarly env TEST_MODE RESUME d r → fetchesOf (trace (stateOf r)) = [].
Proof.
  intros [(s & -> & _ & Htr & _)|[(raw & s & -> & _ & _ & Htr & _)
        |[(raw & e & s & -> & _ & _ & _ & Htr & _)|(raw & s & -> & _ & _ & _ & _ & Htr & _)]]];
    cbn [stateOf]; by rewrite Htr.
Qed.

(** X16: a run makes at most MAX_CONSECUTIVE_BLOCKS (5) requests for each
    of its targets, whatever is answered; in test mode, at most 25 in
    all. *)
Theorem requests_are_bounded d raw r :
  detailsFile d = Some raw →
  main env TEST_MODE RESUME d = Some r →
  (length (fetchesOf (trace (stateOf r)))
   ≤ MAX_CONSECUTIVE_BLOCKS * length (pendingOf TEST_MODE RESUME d raw))%nat
  ∧ (TEST_MODE = true → (length (fetchesOf (trace (stateOf r))) ≤ 25)%nat).
Proof.
  intros Hraw Hmain.
  assert (Hb : (length (fetchesOf (trace (stateOf r)))
     ≤ MAX_CONSECUTIVE_BLOCKS * length (pendingOf TEST_MODE RESUME d raw))%nat).
  { destruct (run_cases env TEST_MODE RESUME d r Hmain)
      as [Hearly|(raw' & isArray & targets & detailMap & s0 & k & s & Hprep & Hraw'
                  & Htg & _ & _ & _ & Htr & _ & Hk & Hor)].
    { rewrite (fetches_early d r Hearly). cbn. lia. }
    assert (raw' = raw) as -> by congruence. rewrite <- Htg.
    destruct (prepare_ready _ _ _ _ _ _ _ _ Hprep)
      as (_ & _ & _ & _ & _ & _ & _ & _ & Hcb & Hi & _).
    assert (Hs : withinBound targets s).
    { apply (passes_preserve env TEST_MODE isArray targets detailMap
               (withinBound targets) k s0 s); [| |done].
      - intros s1 s2. apply iteration_withinBound.
      - split; [lia|]. exists 0%nat. rewrite Htr, Hi. cbn.
        unfold MAX_CONSECUTIVE_BLOCKS. repeat split; lia. }
    destruct Hs as [Hi' (j & Hj & Hj4 & Hend & HF)].
    unfold MAX_CONSECUTIVE_BLOCKS in *.
    destruct Hor as [[Hout ->]|(Hin & Hit & _)].
    - unfold inLoop in Hout. apply Z.ltb_ge in Hout.
      pose proof (final_flush_frame env isArray s) as (_ & _ & _ & _ & Hf).
      cbv zeta in Hf. rewrite Hf. lia.
    - unfold inLoop in Hin. apply Z.ltb_lt in Hin.
      pose proof (iteration_requests env TEST_MODE isArray targets detailMap s) as Hr.
      pose proof (requestOf_length targets detailMap s) as Hl.
      rewrite Hit in Hr. rewrite Hr, length_app. lia. }
  split; [done|]. intros ->. etrans; [exact Hb|].
  unfold pendingOf. pose proof (selectTargets_test_length
    (list_to_set (loadedKeys RESUME d)) (decodeDetails raw)).
  unfold MAX_CONSECUTIVE_BLOCKS. lia.
Qed.

(** X14: how a run can end.  It returns normally when there was nothing
    to collect, or after the loop has passed all its targets and the final
    flush has written both files, which then hold the entries and the
    checkpoint in memory.  It ends with an exception only when the first
    navigation fails or when a write of the final flush fails, the loop
    having passed all its targets: every failure inside the loop is caught
    there.  It exits, always with status 1, when the details file is
    missing, when the page comes up without its framework, or at the block
    limit, after both files have been written. *)
Theorem run_ends_in_known_ways d r :
  main env TEST_MODE RESUME d = Some r →
  match r with
  | Ret _ sf =>
      (∃ raw, detailsFile d = Some raw ∧ pendingOf TEST_MODE RESUME d raw = []
         ∧ trace sf = [] ∧ disk sf = d)
      ∨ (∃ raw tr, detailsFile d = Some raw
           ∧ i sf = Z.of_nat (length (pendingOf TEST_MODE RESUME d raw))
           ∧ trace sf = tr ++ [EvWrite DETAILS_FILE true; EvWrite PROGRESS_FILE true;
                               EvClose]
           ∧ detailsFile (disk sf) = Some (encodeDetails (rawIsArray raw) (details sf))
           ∧ progressFile (disk sf) = Some (progress sf))
  | Raise _ sf =>
      (gotoOk env 0 = false ∧ trace sf = [EvGoto false] ∧ disk sf = d)
      ∨ (∃ raw tr f, detailsFile d = Some raw
           ∧ i sf = Z.of_nat (length (pendingOf TEST_MODE RESUME d raw))
           ∧ trace sf = tr ++ [EvWrite f false])
  | Exit c sf =>
      c = 1
      ∧ ((detailsFile d = None ∧ trace sf = [EvExit 1] ∧ disk sf = d)
         ∨ (wsReady env = false
            ∧ trace sf = [EvGoto true; EvWait 3000; EvClose; EvExit 1] ∧ disk sf = d)
         ∨ (∃ raw tr c n, detailsFile d = Some raw
              ∧ (MAX_CONSECUTIVE_BLOCKS ≤ consecutiveBlocks sf)%nat
              ∧ trace sf = tr ++ [EvFetch c n; EvWrite DETAILS_FILE true;
                                  EvWrite PROGRESS_FILE true; EvClose; EvExit 1]
              ∧ detailsFile (disk sf) = Some (encodeDetails (rawIsArray raw) (details sf))
              ∧ progressFile (disk sf) = Some (progress sf)))
  end.
Proof.
  intros Hmain.
  destruct (run_cases env TEST_MODE RESUME d r Hmain)
    as [[(s & -> & ? & ? & ?)|[(raw & s & -> & ? & ? & ? & ?)
        |[(raw & e & s & -> & ? & ? & ? & ? & ?)|(raw & s & -> & ? & ? & ? & ? & ? & ?)]]]
       |(raw & isArray & targets & detailMap & s0 & k & s & Hprep & Hraw
         & Htg & _ & _ & _ & Htr & _ & Hk & Hor)].
  - split; [done|]. by left.
  - left. by exists raw.
  - by left.
  - split; [done|]. right. by left.
  - destruct (prepare_ready _ _ _ _ _ _ _ _ Hprep)
      as (raw' & Hraw' & Harr & _ & _ & _ & _ & _ & Hcb & Hi & _).
    assert (raw' = raw) as -> by congruence. subst isArray.
    destruct Hor as [[Hout ->]|(Hin & Hit & Hne)].
    + assert (Hs : withinBound targets s).
      { apply (passes_preserve env TEST_MODE (rawIsArray raw) targets detailMap
                 (withinBound targets) k s0 s); [| |done].
        - intros s1 s2. apply iteration_withinBound.
        - split; [lia|]. exists 0%nat. rewrite Htr, Hi. cbn.
          unfold MAX_CONSECUTIVE_BLOCKS. repeat split; lia. }
      destruct Hs as [Hi' _]. unfold inLoop in Hout. apply Z.ltb_ge in Hout.
      pose proof (final_flush_cases env (rawIsArray raw) s) as (_ & _ & _ & _ & Hidx & Hf).
      cbv zeta in Hf, Hidx.
      destruct ((saveDetails env (rawIsArray raw);; saveProgress env;; closeBrowser) s)
        as [[] s'|e s'|c s']; cbn [stateOf] in *; [| |done].
      * right. destruct Hf as (_ & _ & Ht' & Hd' & Hp').
        exists raw, (trace s). repeat split; try done. rewrite <- Htg. lia.
      * right. exists raw. rewrite <- Htg.
        destruct Hf as [(_ & Ht' & _)|(_ & _ & Ht' & _)].
        -- exists (trace s), DETAILS_FILE. split; [done|]. split; [lia|done].
        -- exists (trace s ++ [EvWrite DETAILS_FILE true]), PROGRESS_FILE.
           split; [done|]. split; [lia|]. by rewrite <- app_assoc.
    + destruct r as [[] s'|e s'|c s'].
      * by destruct (Hne s').
      * pose proof (iteration_cases env TEST_MODE (rawIsArray raw) targets detailMap s) as Hc.
        rewrite Hit in Hc.
        destruct (pass_finds_entry d _ targets detailMap s0 k s Hprep Hk Hin)
          as (? & ? & ? & ? & _ & _ & Ht & _). congruence.
      * destruct (iteration_exit env TEST_MODE (rawIsArray raw) targets detailMap
                    s c s' Hit) as (-> & Hmax & (t & _ & Ht') & Hd' & Hp').
        split; [done|]. right. right.
        exists raw, (trace s ++ restEvents s), (cortOfcCd t), (csNo t).
        repeat split; try done. by rewrite <- app_assoc.
Qed.

End Requests.

Section Store.

Variable env : Env.
Variable TEST_MODE : bool.
Variable RESUME : bool.

Lemma iteration_kept isArray targets detailMap heap0 s :
  Forall2 keeps heap0 (details s) ∧ storeKept isArray heap0 (disk s) →
  Forall2 keeps heap0 (details (stateOf (iteration env TEST_MODE isArray targets detailMap s)))
  ∧ storeKept isArray heap0 (disk (stateOf (iteration env TEST_MODE isArray targets detailMap s))).
Proof.
  intros [Hm Hd].
  assert (Hm' : Forall2 keeps heap0
    (details (stateOf (iteration env TEST_MODE isArray targets detailMap s)))).
  { destruct (iteration_heap env TEST_MODE isArray targets detailMap s)
      as [->|(r & result & ->)]; [done|by apply keeps_alter]. }
  split; [done|].
  destruct (iteration_files env TEST_MODE isArray targets detailMap s)
    as (_ & _ & [Hsame|Hnew]).
  - unfold storeKept. by rewrite Hsame.
  - eexists. split; [exact Hnew|]. split; [apply encode_isArray|].
    by rewrite decode_encode.
Qed.

(** X17: however a run ends, the details file holds a store of the shape
    it was loaded in, with as many entries, in the same order; each entry
    has its four declared fields and every field other than
    deliveryRecords, documentRecords, mergerRecords and priorCaseInfo
    unchanged, and has lost no field.  (A write that fails leaves its file
    as it was.) *)
Theorem store_on_disk_keeps_loaded_entries d raw r :
  detailsFile d = Some raw →
  main env TEST_MODE RESUME d = Some r →
  ∃ saved, detailsFile (disk (stateOf r)) = Some saved
    ∧ rawIsArray saved = rawIsArray raw
    ∧ length (decodeDetails saved) = length (decodeDetails raw)
    ∧ Forall2 keeps (decodeDetails raw) (decodeDetails saved).
Proof.
  intros Hraw Hmain.
  assert (Hgoal : storeKept (rawIsArray raw) (decodeDetails raw) (disk (stateOf r))).
  { assert (H0 : storeKept (rawIsArray raw) (decodeDetails raw) d).
    { exists raw. split; [done|]. split; [done|apply keeps_heap_refl]. }
    destruct (run_cases env TEST_MODE RESUME d r Hmain)
      as [[(s & -> & ? & ? & Hd)|[(raw' & s & -> & ? & ? & ? & Hd)
          |[(raw' & e & s & -> & ? & ? & ? & ? & Hd)|(raw' & s & -> & ? & ? & ? & ? & ? & Hd)]]]
         |(raw' & isArray & targets & detailMap & s0 & k & s & Hprep & Hraw'
           & Htg & _ & _ & _ & Htr & Hd0 & Hk & Hor)];
      cbn [stateOf]; try (by rewrite Hd).
    destruct (prepare_ready _ _ _ _ _ _ _ _ Hprep)
      as (raw'' & Hraw'' & Harr & Hdet & _).
    assert (raw'' = raw) as -> by congruence. subst isArray.
    assert (Hs : Forall2 keeps (decodeDetails raw) (details s)
                 ∧ storeKept (rawIsArray raw) (decodeDetails raw) (disk s)).
    { apply (passes_preserve env TEST_MODE (rawIsArray raw) targets detailMap
               (λ s, Forall2 keeps (decodeDetails raw) (details s)
                     ∧ storeKept (rawIsArray raw) (decodeDetails raw) (disk s))
               k s0 s); [| |done].
      - intros s1 s2 H1 _ Hit.
        pose proof (iteration_kept (rawIsArray raw) targets detailMap _ s1 H1) as H2.
        by rewrite Hit in H2.
      - rewrite Hdet, Hd0. split; [apply keeps_heap_refl|done]. }
    destruct Hor as [[Hout ->]|(Hin & Hit & Hne)].
    - pose proof (final_flush_cases env (rawIsArray raw) s) as (Hdet' & _ & _ & _ & _ & Hf).
      cbv zeta in Hf, Hdet'. destruct Hs as [Hm Hd].
      destruct ((saveDetails env (rawIsArray raw);; saveProgress env;; closeBrowser) s)
        as [[] s'|e s'|c s']; cbn [stateOf] in *; [| |done].
      + destruct Hf as (_ & _ & _ & Hd' & _). eexists. split; [exact Hd'|].
        split; [apply encode_isArray|]. by rewrite decode_encode, Hdet'.
      + destruct Hf as [(_ & _ & ->)|(_ & _ & _ & Hd' & _)]; [done|].
        eexists. split; [exact Hd'|].
        split; [apply encode_isArray|]. by rewrite decode_encode, Hdet'.
    - pose proof (iteration_kept (rawIsArray raw) targets detailMap _ s Hs) as H2.
      rewrite Hit in H2. apply H2. }
  destruct Hgoal as (saved & H1 & H2 & H3). exists saved.
  repeat split; try done. symmetry. by eapply Forall2_length.
Qed.

End Store.

Section Checkpoint.

Variable env : Env.
Variable TEST_MODE : bool.
Variable RESUME : bool.

Lemma iteration_checkpoint isArray targets detailMap keys0 heap0 started file0 s :
  entryIdent <$> details s = entryIdent <$> heap0 →
  checkpointOf keys0 heap0 targets started (progress s)
  ∧ checkpointKept keys0 heap0 targets started file0 s →
  let s' := stateOf (iteration env TEST_MODE isArray targets detailMap s) in
  checkpointOf keys0 heap0 targets started (progress s')
  ∧ checkpointKept keys0 heap0 targets started file0 s'.
Proof.
  intros Hk [(Hpre & Htot & Hst & Hkeys) Hdisk] s'.
  destruct (iteration_files env TEST_MODE isArray targets detailMap s)
    as ((Hp' & Ht' & Hs') & Hfile & _).
  fold s' in Hp', Ht', Hs', Hfile.
  assert (Hmem : checkpointOf keys0 heap0 targets started (progress s')).
  { split; [by etrans|]. split; [congruence|]. split; [congruence|].
    destruct (iteration_completed env TEST_MODE isArray targets detailMap s)
      as [Hc|(t & Ht & Hc)]; fold s' in Hc; rewrite Hc; [done|].
    intros key. rewrite drop_app_le by (by apply prefix_length).
    rewrite elem_of_app, list_elem_of_singleton. intros [Hold| ->]; [by apply Hkeys|].
    destruct (target_in_heap targets heap0 s t Hk Ht)
      as (d0 & _ & Hkey & rt & Hrt & Hd0 & _).
    by exists rt, d0. }
  split; [done|]. destruct Hfile as [Hsame|Hnew].
  - destruct Hdisk as [H0|(p & Hp & Hok & Hle)].
    + left. congruence.
    + right. exists p. split; [congruence|]. split; [done|]. by etrans.
  - right. exists (progress s'). split; [done|]. split; [exact Hmem|done].
Qed.

(** X18: however a run ends, the progress file is the one the run found
    or a checkpoint of this run.  Such a checkpoint lists the completed keys
    the run started with (those of the file when resuming, none otherwise),
    followed by keys of targets of this run only; it is not ahead of the
    checkpoint in memory; its total is the number of entries of the store;
    and when resuming it keeps the start time of the file. *)
Theorem checkpoint_extends_loaded_keys d raw r :
  detailsFile d = Some raw →
  main env TEST_MODE RESUME d = Some r →
  progressFile (disk (stateOf r)) = progressFile d
  ∨ ∃ p, progressFile (disk (stateOf r)) = Some p
      ∧ loadedKeys RESUME d `prefix_of` completed p
      ∧ completed p `prefix_of` completed (progress (stateOf r))
      ∧ total p = length (decodeDetails raw)
      ∧ (∀ key, key ∈ drop (length (loadedKeys RESUME d)) (completed p) →
           ∃ pos e, pos ∈ pendingOf TEST_MODE RESUME d raw
             ∧ decodeDetails raw !! pos = Some e ∧ entryKey e = key)
      ∧ (RESUME = true → ∀ p0, progressFile d = Some p0 → startedAt p = startedAt p0).
Proof.
  intros Hraw Hmain.
  destruct (run_cases env TEST_MODE RESUME d r Hmain)
    as [[(s & -> & ? & ? & Hd)|[(raw' & s & -> & ? & ? & ? & Hd)
        |[(raw' & e & s & -> & ? & ? & ? & ? & Hd)|(raw' & s & -> & ? & ? & ? & ? & ? & Hd)]]]
       |(raw' & isArray & targets & detailMap & s0 & k & s & Hprep & Hraw'
         & Htg & _ & _ & _ & Htr & Hd0 & Hk & Hor)];
    cbn [stateOf]; try (left; by rewrite Hd).
  assert (raw' = raw) as -> by congruence.
  destruct (prepare_ready _ _ _ _ _ _ _ _ Hprep)
    as (raw'' & Hraw'' & Harr & Hdet & _ & _ & _ & _ & _ & _ & _ & _ & _ & Hkeys).
  assert (raw'' = raw) as -> by congruence.
  pose proof (prepare_cases env TEST_MODE RESUME d) as Hpc. rewrite Hprep in Hpc.
  destruct Hpc as (raw'' & Hraw3 & _ & _ & _ & _ & _ & _ & Htot & Hstart).
  assert (raw'' = raw) as -> by congruence.
  destruct (prepare_Inv _ _ _ _ _ _ _ _ Hprep) as [Hcov Hinv0].
  set (P := λ s, (checkpointOf (loadedKeys RESUME d) (decodeDetails raw) targets
                    (startedAt (progress s0)) (progress s)
                  ∧ checkpointKept (loadedKeys RESUME d) (decodeDetails raw) targets
                      (startedAt (progress s0)) (progressFile d) s)
                 ∧ Inv detailMap (details s0) (length (completed (progress s0))) s).
  assert (Hs : P s).
  { apply (passes_preserve env TEST_MODE isArray targets detailMap P k s0 s); [| |done].
    - intros s1 s2 [H1 Hinv] _ Hit. split; [|by eapply iteration_Inv].
      assert (Hid : entryIdent <$> details s1 = entryIdent <$> decodeDetails raw)
        by (rewrite <- Hdet; apply Hinv).
      pose proof (iteration_checkpoint isArray targets detailMap _ _ _ _ s1 Hid H1) as H2.
      cbv zeta in H2. by rewrite Hit in H2.
    - split; [|done]. split.
      + split; [by rewrite Hkeys|]. split; [done|]. split; [done|].
        intros key. rewrite Hkeys, drop_all. by intros ?%elem_of_nil.
      + left. by rewrite Hd0. }
  destruct Hs as [Hs Hinv].
  assert (Hend : checkpointKept (loadedKeys RESUME d) (decodeDetails raw) targets
                   (startedAt (progress s0)) (progressFile d) (stateOf r)).
  { destruct Hor as [[Hout ->]|(Hin & Hit & Hne)].
    - pose proof (final_flush_cases env isArray s) as (_ & Hc' & Ht' & Hs' & _ & Hf).
      cbv zeta in Hf, Hc', Ht', Hs'. destruct Hs as [Hm Hd].
      destruct ((saveDetails env isArray;; saveProgress env;; closeBrowser) s)
        as [[] s'|e s'|c s']; cbn [stateOf] in *; [| |done].
      + destruct Hf as (_ & _ & _ & _ & Hp'). right. exists (progress s').
        split; [done|]. split; [by eapply checkpointOf_same|done].
      + assert (Hfile : progressFile (disk s') = progressFile (disk s)).
        { destruct Hf as [(_ & _ & ->)|(_ & _ & _ & _ & ->)]; done. }
        destruct Hd as [H0|(p & Hp & Hok & Hle)].
        * left. congruence.
        * right. exists p. split; [congruence|]. split; [done|]. by rewrite Hc'.
    - assert (Hid : entryIdent <$> details s = entryIdent <$> decodeDetails raw)
        by (rewrite <- Hdet; apply Hinv).
      pose proof (iteration_checkpoint isArray targets detailMap _ _ _ _ s Hid Hs) as H2.
      cbv zeta in H2. rewrite Hit in H2. apply H2. }
  destruct Hend as [H0|(p & Hp & (Hpre & Htot' & Hst & Hkeys') & Hle)]; [by left|].
  right. exists p. rewrite <- Htg. repeat split; try done.
  intros -> p0 Hp0. rewrite Hst. by apply Hstart.
Qed.

End Checkpoint.

Section Clean.

Variable env : Env.
Variable TEST_MODE : bool.
Variable RESUME : bool.

(** What the passes of a run keep true when nothing outside the program
    fails. *)
Lemma clean_passes d isArray targets detailMap s0 k s :
  neverFails env →
  prepare env TEST_MODE RESUME (initialState d) = Ret (Ready isArray targets detailMap) s0 →
  passes env TEST_MODE isArray targets detailMap k s0 = Some s →
  Inv detailMap (details s0) (length (completed (progress s0))) s
  ∧ Forall2 keeps (details s0) (details s)
  ∧ completed (progress s0) `prefix_of` completed (progress s)
  ∧ doneUpTo targets (details s0) s.
Proof.
  intros (Hreply & Hgoto & Hwrite) Hprep Hk.
  destruct (prepare_ready _ _ _ _ _ _ _ _ Hprep)
    as (raw' & _ & _ & _ & _ & _ & _ & _ & _ & Hi0 & _).
  destruct (prepare_Inv _ _ _ _ _ _ _ _ Hprep) as [Hcov Hinv0].
  set (heap0 := details s0) in *.
  set (P := λ s, Inv detailMap heap0 (length (completed (progress s0))) s
                 ∧ Forall2 keeps heap0 (details s)
                 ∧ completed (progress s0) `prefix_of` completed (progress s)
                 ∧ doneUpTo targets heap0 s).
  apply (passes_preserve env TEST_MODE isArray targets detailMap P k s0 s); [| |done].
  - intros s1 s2 (Hinv & Hkept & Hpre & Hdone) _ Hit.
    split; [by eapply iteration_Inv|].
    split.
    { destruct (iteration_heap env TEST_MODE isArray targets detailMap s1)
        as [H|(r & result & H)]; rewrite Hit in H; cbn [stateOf] in H; rewrite H;
        [done|by apply keeps_alter]. }
    destruct (iteration_files env TEST_MODE isArray targets detailMap s1)
      as ((Hp' & _) & _). rewrite Hit in Hp'. cbn [stateOf] in Hp'.
    split; [by etrans|].
    pose proof (iteration_clean env TEST_MODE isArray targets detailMap s1
                  Hreply Hgoto Hwrite) as Hc. rewrite Hit in Hc.
    intros j rt d0 Hj Hrt Hd0'.
    destruct Hc as [[Hi' Hc']|(Hi' & t & Ht & Hc')].
    + rewrite Hc'. apply (Hdone j rt d0); [lia|done..].
    + rewrite Hc', elem_of_app.
      destruct (decide (Z.of_nat j < i s1)) as [Hlt|Hge];
        [left; by apply (Hdone j rt d0)|right].
      assert (Hji : j = Z.to_nat (i s1)).
      { destruct Hinv as [_ Hi1 _ _]. lia. }
      rewrite target_eq in Ht. subst j. rewrite Hrt in Ht. cbn in Ht.
      assert (H : (entryIdent <$> details s1) !! rt = Some (entryIdent t))
        by (by rewrite list_lookup_fmap, Ht).
      rewrite (keeps_ident _ _ Hkept), list_lookup_fmap, Hd0' in H. cbn in H.
      apply list_elem_of_singleton. unfold entryKey, entryIdent in *. congruence.
  - split; [done|]. split; [apply keeps_heap_refl|]. split; [done|].
    intros j rt d0 Hj. lia.
Qed.


End Clean.

Section Resumed.

Variable env : Env.
Variable RESUME : bool.


End Resumed.

(** *** The order of the requests *)

Lemma deref_lookup (heap : list DetailEntry) refs j rt d :
  (∀ r, r ∈ refs → is_Some (heap !! r)) →
  refs !! j = Some rt → heap !! rt = Some d → deref heap refs !! j = Some d.
Proof.
  unfold deref. revert j. induction refs as [|r0 refs IH]; intros j Hall Hj Hd; [done|].
  destruct (Hall r0) as [d0 Hd0]; [left|].
  cbn [omap list_omap]. rewrite Hd0. destruct j as [|j]; cbn in *.
  - by simplify_eq.
  - apply IH; [|done..]. intros r Hr. apply Hall. by right.
Qed.

Lemma deref_length (heap : list DetailEntry) refs :
  (∀ r, r ∈ refs → is_Some (heap !! r)) → length (deref heap refs) = length refs.
Proof.
  unfold deref. induction refs as [|r0 refs IH]; intros Hall; [done|].
  destruct (Hall r0) as [d0 Hd0]; [left|].
  cbn [omap list_omap]. rewrite Hd0. cbn. rewrite IH; [done|].
  intros r Hr. apply Hall. by right.
Qed.

Lemma zip_with_snoc {A B C} (f : A → B → C) l1 x l2 y :
  l2 !! length l1 = Some y →
  zip_with f (l1 ++ [x]) l2 = zip_with f l1 l2 ++ [f x y].
Proof.
  revert l2. induction l1 as [|a l1 IH]; intros [|b l2] Hy; cbn in *; try done.
  - by simplify_eq.
  - by rewrite IH.
Qed.

Lemma replicate_snoc {A} n (x : A) : replicate n x ++ [x] = replicate (S n) x.
Proof. induction n as [|n IH]; [done|]. cbn. by rewrite IH. Qed.

Section Order.

Variable env : Env.
Variable TEST_MODE : bool.
Variable RESUME : bool.

(** What one pass adds to the requests made so far. *)
Lemma iteration_inOrder isArray targets detailMap heap0 n0 s :
  detailMap = buildDetailMap heap0 →
  (∀ rt, rt ∈ targets → (rt < length heap0)%nat) →
  Inv detailMap heap0 n0 s →
  inOrder targets heap0 s →
  inLoop targets s = true →
  match iteration env TEST_MODE isArray targets detailMap s with
  | Ret _ s' => inOrder targets heap0 s'
  | r =>
      ∃ counts, length counts = S (Z.to_nat (i s))
        ∧ Forall (λ c, 1 ≤ c ≤ MAX_CONSECUTIVE_BLOCKS)%nat counts
        ∧ fetchesOf (trace (stateOf r))
          = concat (zip_with replicate counts (identsOf heap0 targets))
  end.
Proof.
  intros Hmap Hvalid Hinv [Hi (counts & k & Hlen & Hall & Hk & Hk5 & Hend & Hf)] Hin.
  destruct (inv_finds_entry heap0 n0 targets detailMap s Hmap Hvalid Hinv Hin)
    as (rt & d0 & t & r & e & Hrt & Hd0 & Hid & _ & Ht & Hr & _).
  assert (Hident : identsOf heap0 targets !! Z.to_nat (i s) = Some (entryIdent t)).
  { unfold identsOf. rewrite list_lookup_fmap.
    rewrite (deref_lookup heap0 targets _ rt d0); [by rewrite Hid| |done..].
    intros r' Hr'. apply lookup_lt_is_Some_2. by apply Hvalid. }
  rewrite Hident in Hf. cbn [default] in Hf.
  pose proof (iteration_requests env TEST_MODE isArray targets detailMap s) as Hreq.
  unfold requestOf in Hreq. rewrite Ht, Hr in Hreq.
  assert (Hnew : fetchesOf (trace (stateOf (iteration env TEST_MODE isArray targets detailMap s)))
    = concat (zip_with replicate (counts ++ [S k]) (identsOf heap0 targets))).
  { rewrite Hreq, Hf, <- app_assoc, replicate_snoc.
    rewrite (zip_with_snoc replicate counts (S k) _ (entryIdent t)) by (by rewrite Hlen).
    rewrite concat_app. cbn. by rewrite app_nil_r. }
  assert (Hall' : Forall (λ c, 1 ≤ c ≤ MAX_CONSECUTIVE_BLOCKS)%nat (counts ++ [S k])).
  { apply Forall_app. split; [done|]. apply Forall_singleton. lia. }
  unfold inLoop in Hin. apply Z.ltb_lt in Hin.
  pose proof (iteration_cases env TEST_MODE isArray targets detailMap s) as Hc.
  destruct (iteration env TEST_MODE isArray targets detailMap s) as [[] s'|e' s'|c s'];
    cbn [stateOf] in *.
  - destruct Hc as [Hadv|(Hsame & Hcb & Hlt)].
    + split; [lia|]. exists (counts ++ [S k]), 0%nat.
      rewrite length_app, Hlen. cbn [length]. unfold MAX_CONSECUTIVE_BLOCKS.
      repeat split; try lia; try done. by rewrite Hnew, app_nil_r.
    + split; [lia|]. exists counts, (S k). rewrite Hsame, Hident. cbn [default].
      repeat split; try lia; try done.
      by rewrite Hreq, Hf, <- app_assoc, replicate_snoc.
  - exists (counts ++ [S k]). rewrite length_app, Hlen. cbn [length].
    split; [lia|]. by split.
  - exists (counts ++ [S k]). rewrite length_app, Hlen. cbn [length].
    split; [lia|]. by split.
Qed.

(** X24: the requests of a run follow its targets: the first target is
    requested between one and MAX_CONSECUTIVE_BLOCKS times in a row, then
    the second, and so on in the order of the targets, and nothing else is
    requested.  A run that returns normally has requested every one of its
    targets; a run that ends otherwise has requested a beginning of
    them. *)
Theorem requests_follow_the_targets d raw r :
  detailsFile d = Some raw →
  main env TEST_MODE RESUME d = Some r →
  length (identsOf (decodeDetails raw) (pendingOf TEST_MODE RESUME d raw))
  = length (pendingOf TEST_MODE RESUME d raw)
  ∧ ∃ counts : list nat,
      fetchesOf (trace (stateOf r))
      = concat (zip_with replicate counts
                  (identsOf (decodeDetails raw) (pendingOf TEST_MODE RESUME d raw)))
      ∧ Forall (λ c, 1 ≤ c ≤ MAX_CONSECUTIVE_BLOCKS)%nat counts
      ∧ (length counts ≤ length (pendingOf TEST_MODE RESUME d raw))%nat
      ∧ (∀ sf, r = Ret tt sf →
           length counts = length (pendingOf TEST_MODE RESUME d raw)).
Proof.
  intros Hraw Hmain.
  assert (Hvalid0 : ∀ rt, rt ∈ pendingOf TEST_MODE RESUME d raw →
            (rt < length (decodeDetails raw))%nat).
  { intros rt Hrt. unfold pendingOf in Hrt. by apply selectTargets_elem in Hrt as [? _]. }
  split.
  { unfold identsOf. rewrite length_fmap. apply deref_length.
    intros rt Hrt. apply lookup_lt_is_Some_2. by apply Hvalid0. }
  destruct (run_cases env TEST_MODE RESUME d r Hmain)
    as [Hearly|(raw' & isArray & targets & detailMap & s0 & k & s & Hprep & Hraw'
                & Htg & _ & _ & _ & Htr & _ & Hk & Hor)].
  { exists []. rewrite (fetches_early env TEST_MODE RESUME d r Hearly).
    split; [done|]. split; [done|]. split; [cbn; lia|].
    intros sf ->.
    destruct Hearly as [(s & ? & _)|[(raw' & s & _ & Hraw' & Hpend & _)
        |[(raw' & e & s & ? & _)|(raw' & s & ? & _)]]]; try done.
    assert (raw' = raw) as -> by congruence. by rewrite Hpend. }
  assert (raw' = raw) as -> by congruence. rewrite <- Htg in *.
  destruct (prepare_ready _ _ _ _ _ _ _ _ Hprep)
    as (raw' & Hraw'' & _ & Hdet & Hmap & _ & _ & _ & _ & Hi0 & _).
  assert (raw' = raw) as -> by congruence. rewrite <- Hdet in *.
  destruct (prepare_Inv _ _ _ _ _ _ _ _ Hprep) as [Hcov Hinv0].
  set (n0 := length (completed (progress s0))) in *.
  set (P := λ s, Inv detailMap (details s0) n0 s ∧ inOrder targets (details s0) s).
  assert (Hs : P s).
  { apply (passes_preserve env TEST_MODE isArray targets detailMap P k s0 s); [| |done].
    - intros s1 s2 [Hinv Hord] Hin Hit. split; [by eapply iteration_Inv|].
      pose proof (iteration_inOrder isArray targets detailMap (details s0) n0 s1
                    Hmap Hvalid0 Hinv Hord Hin) as H. by rewrite Hit in H.
    - split; [done|]. split; [lia|]. exists [], 0%nat. rewrite Htr, Hi0.
      unfold MAX_CONSECUTIVE_BLOCKS. repeat split; try done; cbn; lia. }
  destruct Hs as [Hinv (Hi & counts & j & Hlen & Hall & Hj & Hj5 & Hend & Hf)].
  destruct Hor as [[Hout ->]|(Hin & Hit & Hne)].
  - unfold inLoop in Hout. apply Z.ltb_ge in Hout.
    assert (Hn : i s = Z.of_nat (length targets)) by lia.
    rewrite (Hend Hn) in Hf. cbn [replicate] in Hf. rewrite app_nil_r in Hf.
    exists counts.
    pose proof (final_flush_frame env isArray s) as (_ & _ & _ & _ & Hff).
    cbv zeta in Hff. rewrite Hff. split; [done|]. split; [done|].
    split; [lia|]. intros _ _. lia.
  - pose proof (iteration_inOrder isArray targets detailMap (details s0) n0 s
                  Hmap Hvalid0 Hinv
                  (conj Hi (ex_intro _ counts (ex_intro _ j
                     (conj Hlen (conj Hall (conj Hj (conj Hj5 (conj Hend Hf))))))))
                  Hin) as H.
    rewrite Hit in H. unfold inLoop in Hin. apply Z.ltb_lt in Hin.
    destruct r as [[] s'|e' s'|c s']; [by destruct (Hne s')| |];
      destruct H as (counts' & Hlen' & Hall' & Hf'); exists counts';
      (split; [done|]; split; [done|]; split; [lia|done]).
Qed.

End Order.

(** ** Checks of the run theorems on the sample environments *)

(** C1, at the failing input: every request is blocked and the navigation
    that follows the cooldown throws.  The block on the first target comes
    with a streak of 1, under the limit; the target is requested that once
    and never again: the statements that step the index back are not
    reached, the loop counts an error, pauses, and goes on with the second
    target.  The run returns with no target collected or completed. *)
Lemma blocked_target_is_passed_over_when_navigation_throws :
  classify (pageFunction blockedReply) = Blocked
  ∧ consecutiveBlocks
      (afterPasses lostSessionEnv false true twoTargets twoMap 1
         (startOf lostSessionEnv false false arrayDisk)) = 1%nat
  ∧ i (afterPasses lostSessionEnv false true twoTargets twoMap 1
         (startOf lostSessionEnv false false arrayDisk)) = 1
  ∧ ∃ sf, main lostSessionEnv false false arrayDisk = Some (Ret tt sf)
      ∧ trace sf = [EvGoto true; EvWait 3000;
                    EvFetch "A" "1"; EvWait IP_BLOCK_WAIT; EvGoto false;
                    EvWait DELAY_BETWEEN;
                    EvFetch "B" "2"; EvWait IP_BLOCK_WAIT; EvGoto false;
                    EvWait DELAY_BETWEEN;
                    EvWrite DETAILS_FILE true; EvWrite PROGRESS_FILE true; EvClose]
      ∧ fetchesOf (trace sf) = [("A", "1"); ("B", "2")]
      ∧ details sf = [caseA; caseB]
      ∧ completed (progress sf) = []
      ∧ errors sf = 2%nat
      ∧ success sf = 0%nat.
Proof.
  do 3 (split; [vm_compute; reflexivity|]).
  eexists. split; [vm_compute; reflexivity|].
  repeat split; vm_compute; reflexivity.
Qed.

(** C2, at the failing input: the first five requests are blocked and the
    first write of the run, which is the first write of the flush at the
    limit, fails.  The streak reaches 5 in the fifth pass, but the
    exception of the write leaves the flush before the process is ended:
    the loop counts an error, pauses, and goes on with the second target,
    and the run returns normally.  The first target is neither collected nor
    completed. *)
Lemma abort_is_missed_when_flush_write_fails :
  consecutiveBlocks
    (afterPasses blockedFiveEnv false true twoTargets twoMap 5
       (startOf blockedFiveEnv false false arrayDisk)) = MAX_CONSECUTIVE_BLOCKS
  ∧ ∃ sf, main blockedFiveEnv false false arrayDisk = Some (Ret tt sf)
      ∧ trace sf = [EvGoto true; EvWait 3000;
                    EvFetch "A" "1"; EvWait IP_BLOCK_WAIT; EvGoto true; EvWait 3000;
                    EvFetch "A" "1"; EvWait IP_BLOCK_WAIT; EvGoto true; EvWait 3000;
                    EvFetch "A" "1"; EvWait IP_BLOCK_WAIT; EvGoto true; EvWait 3000;
                    EvFetch "A" "1"; EvWait IP_BLOCK_WAIT; EvGoto true; EvWait 3000;
                    EvFetch "A" "1"; EvWrite DETAILS_FILE false; EvWait DELAY_BETWEEN;
                    EvFetch "B" "2"; EvWait DELAY_BETWEEN;
                    EvWrite DETAILS_FILE true; EvWrite PROGRESS_FILE true; EvClose]
      ∧ completed (progress sf) = ["B2"]
      ∧ details sf !! 0%nat = Some caseA
      ∧ errors sf = 1%nat
      ∧ success sf = 1%nat.
Proof.
  split; [vm_compute; reflexivity|].
  eexists. split; [vm_compute; reflexivity|].
  repeat split; vm_compute; reflexivity.
Qed.

Lemma abort_at_block_limit_witness :
  ∃ s' saved p,
    main alwaysBlockedEnv false false arrayDisk = Some (Exit 1 s')
    ∧ fetchesOf (trace s') = [("A", "1"); ("A", "1"); ("A", "1"); ("A", "1"); ("A", "1")]
    ∧ detailsFile (disk s') = Some saved
    ∧ decodeDetails saved = [caseA; caseB]
    ∧ progressFile (disk s') = Some p
    ∧ completed p = [].
Proof.
  destruct (abort_at_block_limit alwaysBlockedEnv false false arrayDisk
              true twoTargets twoMap (startOf alwaysBlockedEnv false false arrayDisk)
              4 (afterPasses alwaysBlockedEnv false true twoTargets twoMap 4
                   (startOf alwaysBlockedEnv false false arrayDisk))
              caseA blockedReply)
    as (s' & saved & p & Hmain & _ & Htr & Hd & _ & Hdec & Hp & Hc & _ & _ & _).
  - vm_compute. reflexivity.
  - vm_compute. reflexivity.
  - vm_compute. reflexivity.
  - vm_compute. reflexivity.
  - vm_compute. reflexivity.
  - vm_compute. lia.
  - reflexivity.
  - reflexivity.
  - exists s', saved, p. split; [exact Hmain|].
    split; [rewrite Htr; vm_compute; reflexivity|].
    split; [exact Hd|]. split; [exact Hdec|]. split; [exact Hp|exact Hc].
Defined.


(** The scenario of a target blocked twice and then answered: it is
    requested three times, ends with the data of the answer, and counts as a
    success and not as an error; the streak is back to 0. *)
Example block_then_recover :
  ∃ sf e, main blockedTwiceEnv false false arrayDisk = Some (Ret tt sf)
    ∧ fetchesOf (trace sf) = [("A", "1"); ("A", "1"); ("A", "1"); ("B", "2")]
    ∧ details sf !! 0%nat = Some e
    ∧ fields e !! "deliveryRecords" = Some (JArr [JStr "d1"; JStr "d2"])
    ∧ completed (progress sf) = ["A1"; "B2"]
    ∧ consecutiveBlocks sf = 0%nat
    ∧ success sf = 2%nat
    ∧ errors sf = 0%nat.
Proof. do 2 eexists. vm_compute. repeat split; reflexivity. Qed.

Lemma only_pending_entries_are_requested_witness :
  ∃ pos e, [caseA; caseB; caseC; caseD] !! pos = Some e
    ∧ cortOfcCd e = "C" ∧ csNo e = "3"
    ∧ fields e !! "deliveryRecords" = None
    ∧ entryKey e ∉ ["A1"; "B2"].
Proof.
  apply (only_pending_entries_are_requested okEnv false true resumeDisk
           (StoreArray [caseA; caseB; caseC; caseD])
           (default (Ret tt (initialState resumeDisk))
              (main okEnv false true resumeDisk))
           "C" "3").
  - reflexivity.
  - vm_compute. reflexivity.
  - replace (fetchesOf _) with [("C", "3"); ("D", "4")] by (vm_compute; reflexivity).
    left.
Defined.

(** ** Checks of the further theorems on the sample environments *)

Lemma wrapped_answer_is_read_as_bare_witness :
  pageFunction successReply
  = pageFunction (HttpResponse 200 "bare"
      (Some (JObj (<["dlt_dlvrDtsLst" := JArr [JStr "d1"; JStr "d2"]]>
                  (<["dlt_mrgDpcnSbxLst" := JArr [JStr "m1"]]> ∅))))).
Proof.
  apply (wrapped_answer_is_read_as_bare 200 "" "bare"
           (<["dlt_dlvrDtsLst" := JArr [JStr "d1"; JStr "d2"]]>
              (<["dlt_mrgDpcnSbxLst" := JArr [JStr "m1"]]> ∅)) ∅); reflexivity.
Defined.

Lemma status_decides_without_indicator_witness :
  classify (pageFunction nodataReply) = NoData
  ∧ Js.prop (pageFunction nodataReply) "message" = Some (JStr NO_DATA_TEXT)
  ∧ classify (pageFunction errorReply) = Error
  ∧ pageFunction successReply = payload successBody.
Proof.
  destruct (status_decides_without_indicator 550 "" emptyBody) as ((_ & H1 & H2) & _);
    [reflexivity|discriminate|reflexivity|reflexivity|].
  destruct (status_decides_without_indicator 500 "" emptyBody) as (_ & H3 & _);
    [reflexivity|discriminate|reflexivity|].
  destruct (status_decides_without_indicator 200 "" successBody) as (_ & _ & H4);
    [reflexivity|discriminate|reflexivity|].
  split; [exact H1|]. split; [apply H2; reflexivity|].
  split; [apply H3; [discriminate|reflexivity]|apply H4; reflexivity].
Defined.

Lemma unreadable_reply_is_error_witness :
  classify (pageFunction (HttpResponse 200 "<html>" None)) = Error
  ∧ Js.prop (pageFunction (HttpResponse 200 "<html>" None)) "__error" = Some (JBool true)
  ∧ Js.prop (pageFunction (HttpResponse 200 "<html>" None)) "__blocked" = None.
Proof.
  apply (unreadable_reply_is_error (HttpResponse 200 "<html>" None)).
  right. left. by exists 200, "<html>".
Defined.

Lemma every_pass_finds_its_entry_witness :
  (∃ rt t r e post,
     twoTargets !! Z.to_nat (i (startOf okEnv false false arrayDisk)) = Some rt
     ∧ details (startOf okEnv false false arrayDisk) !! rt = Some t
     ∧ target twoTargets (startOf okEnv false false arrayDisk) = Some t
     ∧ twoMap !! entryKey t = Some r
     ∧ details (startOf okEnv false false arrayDisk) !! r = Some e
     ∧ entryKey e = entryKey t
     ∧ (rt ≤ r)%nat
     ∧ (NoDup (entryKey <$> details (startOf okEnv false false arrayDisk)) → r = rt)
     ∧ trace (stateOf (iteration okEnv false true twoTargets twoMap
                         (startOf okEnv false false arrayDisk)))
       = trace (startOf okEnv false false arrayDisk)
         ++ restEvents (startOf okEnv false false arrayDisk)
         ++ EvFetch (cortOfcCd t) (csNo t) :: post)
  ∧ (∀ e s', iteration okEnv false true twoTargets twoMap
               (startOf okEnv false false arrayDisk) ≠ Raise e s').
Proof.
  apply (every_pass_finds_its_entry okEnv false false arrayDisk true twoTargets twoMap
           (startOf okEnv false false arrayDisk) 0
           (startOf okEnv false false arrayDisk)).
  - vm_compute. reflexivity.
  - reflexivity.
  - reflexivity.
Defined.

Lemma main_stops_before_the_loop_witness :
  (∃ s, main okEnv false false noStoreDisk = Some (Exit 1 s)
     ∧ trace s = [EvExit 1] ∧ disk s = noStoreDisk)
  ∧ (∃ s, main okEnv false false emptyStoreDisk = Some (Ret tt s)
       ∧ trace s = [] ∧ disk s = emptyStoreDisk)
  ∧ (∃ e s, main offlineEnv false false arrayDisk = Some (Raise e s)
       ∧ trace s = [EvGoto false] ∧ disk s = arrayDisk)
  ∧ (∃ s, main notReadyEnv false false arrayDisk = Some (Exit 1 s)
       ∧ trace s = [EvGoto true; EvWait 3000; EvClose; EvExit 1] ∧ disk s = arrayDisk).
Proof.
  destruct (main_stops_before_the_loop okEnv false false noStoreDisk) as (H1 & _).
  destruct (main_stops_before_the_loop okEnv false false emptyStoreDisk) as (_ & H2 & _).
  destruct (main_stops_before_the_loop offlineEnv false false arrayDisk)
    as (_ & _ & H3 & _).
  destruct (main_stops_before_the_loop notReadyEnv false false arrayDisk)
    as (_ & _ & _ & H4 & _).
  split; [apply H1; reflexivity|].
  split; [apply (H2 (StoreArray [])); reflexivity|].
  split; [apply (H3 (StoreArray [caseA; caseB])); [reflexivity|vm_compute; discriminate|reflexivity]|].
  apply (H4 (StoreArray [caseA; caseB])); [reflexivity|vm_compute; discriminate|reflexivity..].
Defined.

Lemma run_ends_in_known_ways_witness :
  ∃ sf, main alwaysBlockedEnv false false arrayDisk = Some (Exit 1 sf)
    ∧ 1 = 1
    ∧ ((detailsFile arrayDisk = None ∧ trace sf = [EvExit 1] ∧ disk sf = arrayDisk)
       ∨ (wsReady alwaysBlockedEnv = false
          ∧ trace sf = [EvGoto true; EvWait 3000; EvClose; EvExit 1]
          ∧ disk sf = arrayDisk)
       ∨ (∃ raw tr c n, detailsFile arrayDisk = Some raw
            ∧ (MAX_CONSECUTIVE_BLOCKS ≤ consecutiveBlocks sf)%nat
            ∧ trace sf = tr ++ [EvFetch c n; EvWrite DETAILS_FILE true;
                                EvWrite PROGRESS_FILE true; EvClose; EvExit 1]
            ∧ detailsFile (disk sf) = Some (encodeDetails (rawIsArray raw) (details sf))
            ∧ progressFile (disk sf) = Some (progress sf))).
Proof.
  eexists. split; [vm_compute; reflexivity|].
  apply (run_ends_in_known_ways alwaysBlockedEnv false false arrayDisk (Exit 1 _)).
  vm_compute. reflexivity.
Defined.

Lemma requests_are_paced_witness :
  ∃ ms, EvWait ms ∈ [EvWrite PROGRESS_FILE true; EvWrite DETAILS_FILE true;
                     EvWait DELAY_BETWEEN]
    ∧ DELAY_BETWEEN ≤ ms.
Proof.
  apply (requests_are_paced okEnv false false arrayDisk
           (resultOf okEnv false false arrayDisk)
           [EvGoto true; EvWait 3000] "A" "1"
           [EvWrite PROGRESS_FILE true; EvWrite DETAILS_FILE true; EvWait DELAY_BETWEEN]
           "B" "2"
           [EvWait DELAY_BETWEEN; EvWrite DETAILS_FILE true; EvWrite PROGRESS_FILE true;
            EvClose]).
  - vm_compute. reflexivity.
  - vm_compute. reflexivity.
Defined.

Lemma requests_are_bounded_witness :
  (length (fetchesOf (trace (stateOf (resultOf alwaysBlockedEnv false false arrayDisk))))
   ≤ MAX_CONSECUTIVE_BLOCKS
     * length (pendingOf false false arrayDisk (StoreArray [caseA; caseB])))%nat
  ∧ (false = true →
     (length (fetchesOf (trace (stateOf (resultOf alwaysBlockedEnv false false arrayDisk))))
      ≤ 25)%nat).
Proof.
  apply (requests_are_bounded alwaysBlockedEnv false false arrayDisk
           (StoreArray [caseA; caseB]) (resultOf alwaysBlockedEnv false false arrayDisk)).
  - reflexivity.
  - vm_compute. reflexivity.
Defined.

Lemma store_on_disk_keeps_loaded_entries_witness :
  ∃ saved, detailsFile (disk (stateOf (resultOf okEnv false false objectDisk))) = Some saved
    ∧ rawIsArray saved = false
    ∧ length (decodeDetails saved) = 2%nat
    ∧ Forall2 keeps [caseA; caseB] (decodeDetails saved).
Proof.
  apply (store_on_disk_keeps_loaded_entries okEnv false false objectDisk
           (StoreObject [("A1", caseA); ("B2", caseB)])
           (resultOf okEnv false false objectDisk)).
  - reflexivity.
  - vm_compute. reflexivity.
Defined.

Lemma checkpoint_extends_loaded_keys_witness :
  progressFile (disk (stateOf (resultOf okEnv false true resumeDisk)))
  = progressFile resumeDisk
  ∨ ∃ p, progressFile (disk (stateOf (resultOf okEnv false true resumeDisk))) = Some p
      ∧ loadedKeys true resumeDisk `prefix_of` completed p
      ∧ completed p `prefix_of`
          completed (progress (stateOf (resultOf okEnv false true resumeDisk)))
      ∧ total p = 4%nat
      ∧ (∀ key, key ∈ drop (length (loadedKeys true resumeDisk)) (completed p) →
           ∃ pos e, pos ∈ pendingOf false true resumeDisk
                            (StoreArray [caseA; caseB; caseC; caseD])
             ∧ [caseA; caseB; caseC; caseD] !! pos = Some e ∧ entryKey e = key)
      ∧ (true = true → ∀ p0, progressFile resumeDisk = Some p0 →
           startedAt p = startedAt p0).
Proof.
  apply (checkpoint_extends_loaded_keys okEnv false true resumeDisk
           (StoreArray [caseA; caseB; caseC; caseD])
           (resultOf okEnv false true resumeDisk)).
  - reflexivity.
  - vm_compute. reflexivity.
Defined.





Lemma saved_progress_is_what_resume_loads_witness :
  ∃ s', saveProgress okEnv (startOf okEnv false false arrayDisk) = Ret tt s'
    ∧ progressFile (disk s') = Some (progress s')
    ∧ completed (progress s') = []
    ∧ total (progress s') = 2%nat
    ∧ lastUpdated (progress s') = "t2"
    ∧ loadProgress okEnv true (disk s') s' = Ret (progress s') s'.
Proof.
  destruct (saved_progress_is_what_resume_loads okEnv (startOf okEnv false false arrayDisk))
    as [H _].
  destruct (H eq_refl) as (s' & Hrun & Hp & _ & Hc & Ht & _ & Hl & Hload & _).
  exists s'. split; [exact Hrun|]. split; [exact Hp|]. split; [exact Hc|].
  split; [exact Ht|]. split; [exact Hl|apply Hload].
Defined.

Lemma requests_follow_the_targets_witness :
  length (identsOf [caseA; caseB] (pendingOf false false arrayDisk (StoreArray [caseA; caseB])))
  = length (pendingOf false false arrayDisk (StoreArray [caseA; caseB]))
  ∧ ∃ counts : list nat,
      fetchesOf (trace (stateOf (resultOf blockedTwiceEnv false false arrayDisk)))
      = concat (zip_with replicate counts
                  (identsOf [caseA; caseB]
                     (pendingOf false false arrayDisk (StoreArray [caseA; caseB]))))
      ∧ Forall (λ c, 1 ≤ c ≤ MAX_CONSECUTIVE_BLOCKS)%nat counts
      ∧ (length counts
         ≤ length (pendingOf false false arrayDisk (StoreArray [caseA; caseB])))%nat
      ∧ (∀ sf, resultOf blockedTwiceEnv false false arrayDisk = Ret tt sf →
           length counts
           = length (pendingOf false false arrayDisk (StoreArray [caseA; caseB]))).
Proof.
  apply (requests_follow_the_targets blockedTwiceEnv false false arrayDisk
           (StoreArray [caseA; caseB]) (resultOf blockedTwiceEnv false false arrayDisk)).
  - reflexivity.
  - vm_compute. reflexivity.
Defined.

